(** * My_Website islands: chat terminal, rollout pie, diagnostics panel

    A shallow embedding of the three React islands of the repository
    (AutoForgeTerminal, BitlockerPie, CloudLabPanel) and the properties
    their specification states about them.

    Conventions of the embedding:
    - a JavaScript string is a [string]; one character stands for one code
      unit, so the white space of [trim] and of the regular expression
      class [\s] is its Latin-1 part;
    - a JavaScript value of unknown shape (a parsed response body, the
      [any]-typed reply) is a [Js.JsValue];
    - an expression that may throw evaluates to a [Js.completion];
    - the functions of the host (JSON.parse, JSON.stringify, the URL
      constructor) are the fields of the class [Js.Host]; the widgets are
      written against the class, and [RefHost.ref_host] is a small
      executable instance for the concrete examples;
    - React state is a record, an event handler a function on it, and an
      [async] function a list of suspended continuations that later events
      resume. *)

From Stdlib Require Import ZArith QArith Qminmax Qround Qabs Qpower String Ascii List Lia Lqa Bool.
From Stdlib Require Import Floats.SpecFloat DecimalString.
From stdpp Require Import base list.
Import ListNotations.

#[local] Open Scope string_scope.
#[local] Open Scope list_scope.

(** ** JavaScript values and strings *)

Module Js.

(** Numbers are IEEE-754 binary64 values. *)
Definition prec : Z := 53.
Definition emax : Z := 1024.
Definition number : Type := spec_float.

Definition number_of_Z (n : Z) : number := binary_normalize prec emax n 0 false.

#[warnings="-register-all"]
Inductive JsValue : Type :=
| JUndefined
| JNull
| JBool (b : bool)
| JNum (x : number)
| JStr (s : string)
| JArr (xs : list JsValue)
| JObj (props : list (string * JsValue)).

(** The value an exception carries, seen through [e?.message]: the message
    of an Error object, or [None] for a thrown value without one. *)
Record Thrown : Type := { message : option string }.

Inductive completion (A : Type) : Type :=
| Normal (a : A)
| Throw (e : Thrown).
Arguments Normal {A} a.
Arguments Throw {A} e.

#[export] Instance completion_ret : MRet completion := @Normal.

#[export] Instance completion_fmap : FMap completion :=
  fun A B (f : A -> B) (c : completion A) =>
    match c with
    | Normal a => Normal (f a)
    | Throw e => Throw e
    end.

#[export] Instance completion_bind : MBind completion :=
  fun A B (k : A -> completion B) (c : completion A) =>
    match c with
    | Normal a => k a
    | Throw e => Throw e
    end.

Definition TypeError (what : string) : Thrown := {| message := Some what |}.

(** *** Truthiness and nullish values *)

Definition number_truthy (x : number) : bool :=
  match x with
  | S754_zero _ | S754_nan => false
  | _ => true
  end.

Definition string_truthy (s : string) : bool := negb (s =? "").

Definition truthy (v : JsValue) : bool :=
  match v with
  | JUndefined | JNull => false
  | JBool b => b
  | JNum x => number_truthy x
  | JStr s => string_truthy s
  | JArr _ | JObj _ => true
  end.

Definition nullish (v : JsValue) : bool :=
  match v with
  | JUndefined | JNull => true
  | _ => false
  end.

(** [a || b] on values. *)
Definition or_else (a b : JsValue) : JsValue := if truthy a then a else b.

(** [a || b] on strings. *)
Definition str_or (a b : string) : string := if string_truthy a then a else b.

(** [a ?? b]; the right operand is evaluated only when the left one is
    nullish. *)
Definition coalesce (a b : completion JsValue) : completion JsValue :=
  v ← a; if nullish v then b else Normal v.

Notation "a ?? b" := (coalesce a b) (at level 58, left associativity).

(** *** Property access *)

Fixpoint assoc (k : string) (props : list (string * JsValue)) : option JsValue :=
  match props with
  | [] => None
  | (k', v) :: rest => if k' =? k then Some v else assoc k rest
  end.

Definition is_digit (c : ascii) : bool :=
  let n := nat_of_ascii c in (48 <=? n)%nat && (n <=? 57)%nat.

Fixpoint digits_value (acc : nat) (s : string) : option nat :=
  match s with
  | "" => Some acc
  | String c r =>
      if is_digit c then digits_value (10 * acc + (nat_of_ascii c - 48)) r else None
  end.

(** A property key that is a canonical array index: ["0"], or digits that
    do not start with a zero. *)
Definition index_of_key (k : string) : option nat :=
  match k with
  | "" => None
  | String c r =>
      if (c =? "0")%char then (if r =? "" then Some 0%nat else None)
      else digits_value 0 k
  end.

Definition char_at (s : string) (n : nat) : JsValue :=
  match String.get n s with
  | Some c => JStr (String c "")
  | None => JUndefined
  end.

(** The own data property [k] of a value that is neither null nor
    undefined. Inherited members are methods, which are not JSON values;
    none of the names the widgets probe is inherited. *)
Definition own (v : JsValue) (k : string) : JsValue :=
  match v with
  | JObj props => default JUndefined (assoc k props)
  | JArr xs =>
      if k =? "length" then JNum (number_of_Z (Z.of_nat (length xs)))
      else match index_of_key k with
           | Some n => default JUndefined (xs !! n)
           | None => JUndefined
           end
  | JStr s =>
      if k =? "length" then JNum (number_of_Z (Z.of_nat (String.length s)))
      else match index_of_key k with
           | Some n => char_at s n
           | None => JUndefined
           end
  | _ => JUndefined
  end.

(** [v.k]: a TypeError on null and undefined. *)
Definition get (v : JsValue) (k : string) : completion JsValue :=
  if nullish v then Throw (TypeError ("Cannot read properties (reading '" ++ k ++ "')"))
  else Normal (own v k).

(** [v?.k] and [v?.[k]]. *)
Definition get_opt (v : JsValue) (k : string) : JsValue :=
  if nullish v then JUndefined else own v k.

(** *** White space, [trim] and [replace(/\s+/g, " ")] *)

Definition is_space (c : ascii) : bool :=
  let n := nat_of_ascii c in
  ((9 <=? n)%nat && (n <=? 13)%nat) || (n =? 32)%nat || (n =? 160)%nat.

Fixpoint trimStart (s : string) : string :=
  match s with
  | "" => ""
  | String c r => if is_space c then trimStart r else s
  end.

Fixpoint trimEnd (s : string) : string :=
  match s with
  | "" => ""
  | String c r =>
      let r' := trimEnd r in
      if is_space c && (r' =? "") then "" else String c r'
  end.

Definition trim (s : string) : string := trimEnd (trimStart s).

Fixpoint whitespace_only (s : string) : bool :=
  match s with
  | "" => true
  | String c r => is_space c && whitespace_only r
  end.

(** [s.replace(/\s+/g, " ")]: every maximal run of white space becomes one
    space. [in_run] tells that the previous character was white space. *)
Fixpoint collapse_from (in_run : bool) (s : string) : string :=
  match s with
  | "" => ""
  | String c r =>
      if is_space c
      then (if in_run then collapse_from true r else String " " (collapse_from true r))
      else String c (collapse_from false r)
  end.

Definition collapse_spaces (s : string) : string := collapse_from false s.

(** [s.slice(0, n)] for [0 <= n]. *)
Fixpoint slice0 (n : nat) (s : string) : string :=
  match n, s with
  | S n', String c r => String c (slice0 n' r)
  | _, _ => ""
  end.

(** The decimal text of an integer, as a template literal prints it. *)
Definition Z_to_string (n : Z) : string := NilZero.string_of_int (Z.to_int n).

(** [Math.round] on an exact value: the nearest integer, ties upwards. *)
Definition Math_round (x : Q) : Z := Qfloor (x + (1 # 2))%Q.

(** *** The host *)

(** A fetch Response: the status line, and what [await r.text()] gives. *)
Record Response : Type := {
  status : Z;
  statusText : string;
  text : completion string
}.

(** The [ok] getter of a Response: the status is in 200..299. *)
Definition response_ok (r : Response) : bool :=
  (200 <=? status r)%Z && (status r <=? 299)%Z.

(** What [await fetch(...)] and [await r.text()] give without an
    exception: the response and its text. *)
Definition responds (fetched : completion Response) (r : Response) (raw : string) : Prop :=
  fetched = Normal r /\ text r = Normal raw.

(** A fetch exception: [fetch] rejects, or reading the body does. *)
Definition fails (fetched : completion Response) (e : Thrown) : Prop :=
  fetched = Throw e \/ exists r, fetched = Normal r /\ text r = Throw e.

(** *** The shape of a string *)

Definition starts_with_space (s : string) : bool :=
  match s with
  | String c _ => is_space c
  | "" => false
  end.

Fixpoint ends_with_space (s : string) : bool :=
  match s with
  | "" => false
  | String c "" => is_space c
  | String _ r => ends_with_space r
  end.

(** Every white-space character is a space, and no white space follows
    it. *)
Fixpoint single_spaced (s : string) : bool :=
  match s with
  | "" => true
  | String c r =>
      (if is_space c then (c =? " ")%char && negb (starts_with_space r) else true)
      && single_spaced r
  end.

(** The characters that are not white space, in order. *)
Fixpoint visible (s : string) : string :=
  match s with
  | "" => ""
  | String c r => if is_space c then visible r else String c (visible r)
  end.

Definition starts_with_visible (s : string) : bool :=
  match s with
  | String c _ => negb (is_space c)
  | "" => false
  end.

(** The words of a text: its maximal runs of characters that are not
    white space, in order. *)
Fixpoint words (s : string) : list string :=
  match s with
  | "" => []
  | String c r =>
      if is_space c then words r
      else if starts_with_visible r
           then match words r with
                | w :: ws => String c w :: ws
                | [] => [String c ""]
                end
           else String c "" :: words r
  end.

Fixpoint spaces (n : nat) : string :=
  match n with
  | O => ""
  | S n => String " " (spaces n)
  end.

(** [s.padStart(n, " ")] *)
Definition padStart (n : nat) (s : string) : string :=
  spaces (n - String.length s) ++ s.

(** [s] ends with [suffix]. *)
Fixpoint ends_with (suffix s : string) : bool :=
  (s =? suffix)
  || match s with
     | "" => false
     | String _ r => ends_with suffix r
     end.

Class Host : Type := {
  (** [JSON.parse(text)]: the value, or the SyntaxError. *)
  JSON_parse : string -> completion JsValue;
  (** [JSON.stringify(v, null, indent)]: the text, or [None] for
      [undefined]. *)
  JSON_stringify : JsValue -> nat -> option string;
  (** [new URL(u).origin]: the origin, or [None] when the constructor
      throws. *)
  URL_origin : string -> option string
}.

End Js.

(** ** AutoForgeTerminal: the chat terminal *)

Module Chat.
Import Js.

Inductive Role : Type := user | assistant | system.

Definition role_name (r : Role) : string :=
  match r with
  | user => "user"
  | assistant => "assistant"
  | system => "system"
  end.

(** [content] is declared a string; the reply that [send] stores in it is
    whatever value the response held, so it is a [JsValue] here. *)
Record Msg : Type := { role : Role; content : JsValue }.

Record Request : Type := {
  url : string;
  method : string;
  headers : list (string * string);
  body : option string
}.

(** The four state cells of the component. *)
Record State : Type := {
  messages : list Msg;
  input : string;
  busy : bool;
  err : option string
}.

Definition setMessages (f : list Msg -> list Msg) (s : State) : State :=
  {| messages := f (messages s); input := input s; busy := busy s; err := err s |}.
Definition setInput (v : string) (s : State) : State :=
  {| messages := messages s; input := v; busy := busy s; err := err s |}.
Definition setBusy (b : bool) (s : State) : State :=
  {| messages := messages s; input := input s; busy := b; err := err s |}.
Definition setErr (e : option string) (s : State) : State :=
  {| messages := messages s; input := input s; busy := busy s; err := e |}.

(** The component together with its surroundings: the calls of [send]
    suspended at [await fetch] (each remembers its [t0]), and the requests
    handed to [fetch] so far. *)
Record Terminal : Type := {
  state : State;
  awaiting : list Q;
  network : list Request
}.

Definition initial : Terminal :=
  {| state := {| messages := []; input := ""; busy := false; err := None |};
     awaiting := [];
     network := [] |}.

(** [{ role, content }] *)
Definition msg_json (m : Msg) : JsValue :=
  JObj [("role", JStr (role_name (role m))); ("content", content m)].

(** [sanitize]: very light sanitization for display. *)
Definition sanitize (s : string) : string := trim (collapse_spaces s).

Section Component.
Context `{Host} (apiUrl : string).

Definition origin : string :=
  match URL_origin apiUrl with
  | Some o => o
  | None => apiUrl
  end.

(** [json.choices?.[0]?.message?.content] *)
Definition first_choice (json : JsValue) : completion JsValue :=
  choices ← get json "choices";
  Normal (get_opt (get_opt (get_opt choices "0") "message") "content").

(** [raw ? JSON.parse(raw) : {}] *)
Definition parse_body (raw : string) : completion JsValue :=
  if string_truthy raw then JSON_parse raw else Normal (JObj []).

(** The body of the inner [try]: parse, then probe the common response
    shapes. *)
Definition probe (raw : string) : completion JsValue :=
  json ← parse_body raw;
  get json "reply" ?? get json "content" ?? get json "message"
    ?? first_choice json ?? Normal (JStr raw).

(** The value of [reply] after the inner [try]/[catch]. *)
Definition resolve_reply (raw : string) : JsValue :=
  match probe raw with
  | Normal reply => reply
  | Throw _ => JStr (str_or raw "(empty response)")
  end.

(** [send], up to [await fetch]; [now] is what [performance.now()]
    returns. *)
Definition send (now : Q) (t : Terminal) : Terminal :=
  let s := state t in
  let text := trim (input s) in
  if negb (string_truthy text) || busy s then t
  else
    let s := setErr None s in
    let s := setBusy true s in
    let s := setMessages (fun m => m ++ [{| role := user; content := JStr text |}]) s in
    let s := setInput "" s in
    let body :=
      JSON_stringify
        (JObj [("messages",
                JArr (map msg_json (messages (state t))
                      ++ [JObj [("role", JStr "user"); ("content", JStr text)]]))])
        0 in
    {| state := s;
       awaiting := awaiting t ++ [now];
       network := network t ++
         [{| url := apiUrl;
             method := "POST";
             headers := [("Content-Type", "application/json")];
             body := body |}] |}.

(** [send] as the closure of one render: [input], [busy] and [messages]
    are the constants of the render that made it ([seen]), while the
    setters act on the state as it is when they run. [send now t] is the
    closure of the render of [t] itself. *)
Definition send_from (seen : State) (now : Q) (t : Terminal) : Terminal :=
  let text := trim (input seen) in
  if negb (string_truthy text) || busy seen then t
  else
    let s := setErr None (state t) in
    let s := setBusy true s in
    let s := setMessages (fun m => m ++ [{| role := user; content := JStr text |}]) s in
    let s := setInput "" s in
    let body :=
      JSON_stringify
        (JObj [("messages",
                JArr (map msg_json (messages seen)
                      ++ [JObj [("role", JStr "user"); ("content", JStr text)]]))])
        0 in
    {| state := s;
       awaiting := awaiting t ++ [now];
       network := network t ++
         [{| url := apiUrl;
             method := "POST";
             headers := [("Content-Type", "application/json")];
             body := body |}] |}.

(** [send], from [await fetch] to its end. [fetched] is what
    [await fetch(...)] gives: the response, or the exception it rejected
    with; the response holds what [await res.text()] gives. *)
Definition resume (now : Q) (fetched : completion Response) (t : Terminal) : Terminal :=
  match awaiting t with
  | [] => t
  | t0 :: rest =>
      let s := state t in
      let s :=
        match (res ← fetched; text res) with
        | Normal raw =>
            let reply := resolve_reply raw in
            let ms := Z.max 0 (Math_round (now - t0)) in
            let s := setMessages (fun m => m ++
                       [{| role := assistant;
                           content := or_else reply (JStr "(no content)") |}]) s in
            setMessages (fun m => m ++
              [{| role := system;
                  content := JStr ("✓ responded in " ++ Z_to_string ms
                                   ++ "ms from " ++ origin) |}]) s
        | Throw e =>
            let s := setErr (Some (str_or (default "" (message e)) "Network error")) s in
            setMessages (fun m => m ++
              [{| role := system; content := JStr "× request failed" |}]) s
        end in
      {| state := setBusy false s; awaiting := rest; network := network t |}
  end.

Definition onChange (value : string) (t : Terminal) : Terminal :=
  {| state := setInput value (state t); awaiting := awaiting t; network := network t |}.

Definition onKeyDown (now : Q) (key : string) (shiftKey : bool) (t : Terminal) : Terminal :=
  if (key =? "Enter") && negb shiftKey then send now t else t.

(** What can happen to a mounted terminal. The Send button is disabled
    while [busy || !input.trim()]; a click that gets through runs [send]. *)
Inductive Event : Type :=
| Change (value : string)
| KeyDown (key : string) (shiftKey : bool)
| Click
| Settled (fetched : completion Response).

Definition step (t : Terminal) (ev : Q * Event) : Terminal :=
  let (now, e) := ev in
  match e with
  | Change value => onChange value t
  | KeyDown key shiftKey => onKeyDown now key shiftKey t
  | Click => send now t
  | Settled fetched => resume now fetched t
  end.

Definition run (evs : list (Q * Event)) (t : Terminal) : Terminal :=
  fold_left step evs t.

(** *** The vocabulary of the specification *)

(** The first candidate that is neither null nor undefined, else the
    fallback. *)
Fixpoint first_present (candidates : list JsValue) (fallback : JsValue) : JsValue :=
  match candidates with
  | [] => fallback
  | v :: rest => if nullish v then first_present rest fallback else v
  end.

(** The nested first-choice message content field of a body. *)
Definition nested_content (json : JsValue) : JsValue :=
  get_opt (get_opt (get_opt (get_opt json "choices") "0") "message") "content".

(** Reply extraction as the specification words it: the reply field, else
    the content field, else the message field, else the nested field, else
    the raw text; on a body that does not parse, the raw text, or the
    placeholder if it is empty. *)
Definition spec_reply (raw : string) : JsValue :=
  match parse_body raw with
  | Normal json =>
      first_present
        [get_opt json "reply"; get_opt json "content"; get_opt json "message";
         nested_content json]
        (JStr raw)
  | Throw _ => JStr (if raw =? "" then "(empty response)" else raw)
  end.

(** The request the specification describes for a transcript and a text:
    a POST of the prior messages, each reduced to its role and content,
    followed by the new user message. *)
Definition post (prior : list Msg) (text : string) : Request :=
  {| url := apiUrl;
     method := "POST";
     headers := [("Content-Type", "application/json")];
     body :=
       JSON_stringify
         (JObj [("messages",
                 JArr (map (fun m => JObj [("role", JStr (role_name (role m)));
                                           ("content", content m)]) prior
                       ++ [JObj [("role", JStr "user"); ("content", JStr text)]]))])
         0 |}.

(** A terminal is coherent when [busy] tells whether a [send] is
    suspended, and at most one is. *)
Definition coherent (t : Terminal) : Prop :=
  (busy (state t) = false /\ awaiting t = [])
  \/ (busy (state t) = true /\ exists t0, awaiting t = [t0]).


(** The events that resume no suspended [send]. *)
Definition quiet (ev : Q * Event) : bool :=
  match snd ev with
  | Settled _ => false
  | _ => true
  end.

End Component.

(** The Send button: [disabled={busy || !input.trim()}]. *)
Definition send_disabled (s : State) : bool :=
  busy s || negb (string_truthy (trim (input s))).

(** *** The shape of a transcript *)

Definition failure_line : Msg := {| role := system; content := JStr "× request failed" |}.

(** A transcript made of exchanges, and whether its last one is still
    open: a user message with a trimmed, non-empty text, closed by an
    assistant message of truthy content and a status line, or by the
    failure line. *)
Inductive exchanges : list Msg -> bool -> Prop :=
| exchanges_none : exchanges [] false
| exchanges_asked (l : list Msg) (text : string) :
    exchanges l false ->
    text <> "" ->
    trim text = text ->
    exchanges (l ++ [{| role := user; content := JStr text |}]) true
| exchanges_answered (l : list Msg) (reply : JsValue) (status : string) :
    exchanges l true ->
    truthy reply = true ->
    status <> "" ->
    exchanges (l ++ [{| role := assistant; content := reply |};
                     {| role := system; content := JStr status |}]) false
| exchanges_failed (l : list Msg) :
    exchanges l true ->
    exchanges (l ++ [failure_line]) false.

(** What the error cell tells: nothing while a request is out; otherwise
    it is set, to a text that is not empty, exactly when the transcript
    ends with the failure line. *)
Definition error_tells (t : Terminal) : Prop :=
  (busy (state t) = true -> err (state t) = None)
  /\ (err (state t) <> None <-> last (messages (state t)) = Some failure_line)
  /\ (forall s, err (state t) = Some s -> s <> "").

End Chat.

(** ** BitlockerPie: the rollout pie *)

Module Pie.
Import Js.

(** The arithmetic the component uses on [number]s. The code runs at
    [binary64]; [exact] is the same arithmetic without rounding. *)
Class Arith (num : Type) : Type := {
  add : num -> num -> num;
  sub : num -> num -> num;
  mul : num -> num -> num;
  div : num -> num -> num;
  Math_max : num -> num -> num;
  of_Z : Z -> num;
  Math_PI : num
}.

Definition is_neg_zero (x : number) : bool :=
  match x with
  | S754_zero true => true
  | _ => false
  end.

(** [Math.max] on doubles: NaN if either is NaN, and +0 above -0. *)
Definition SFmax (a b : number) : number :=
  match SFcompare a b with
  | None => S754_nan
  | Some Lt => b
  | Some Gt => a
  | Some Eq => if is_neg_zero a then b else a
  end.

#[export] Instance binary64 : Arith number := {|
  add := SFadd prec emax;
  sub := SFsub prec emax;
  mul := SFmul prec emax;
  div := SFdiv prec emax;
  Math_max := SFmax;
  of_Z := number_of_Z;
  Math_PI := S754_finite false 7074237752028440 (-51)
|}.

(** Rationals, with [Math.PI] the rational that the double is. *)
#[export] Instance exact : Arith Q := {|
  add := Qplus;
  sub := Qminus;
  mul := Qmult;
  div := Qdiv;
  Math_max := Qmax;
  of_Z := inject_Z;
  Math_PI := (7074237752028440 # 2251799813685248)%Q
|}.

(** The rational a finite double is. *)
Definition Q_of_number (x : number) : option Q :=
  match x with
  | S754_zero _ => Some 0%Q
  | S754_finite neg m e =>
      let q := (inject_Z (Zpos m) * Qpower 2 e)%Q in
      Some (if neg then Qopp q else q)
  | _ => None
  end.

(** A double stands for a rational: it is finite and has that value. *)
Definition stands_for (x : number) (v : Q) : Prop :=
  exists q, Q_of_number x = Some q /\ (q == v)%Q.

(** The unit roundoff of binary64, 2^-53. *)
Definition u53 : Q := 1 # 9007199254740992.

(** Where a value lies with respect to a shifted mantissa, as its round
    and sticky bits tell: on it, below its half, on its half or above. *)
Definition locates (mrs : shr_record) (x : Q) : Prop :=
  match shr_r mrs, shr_s mrs with
  | false, false => (x == inject_Z (shr_m mrs))%Q
  | false, true => (inject_Z (shr_m mrs) < x /\ x < inject_Z (shr_m mrs) + (1 # 2))%Q
  | true, false => (x == inject_Z (shr_m mrs) + (1 # 2))%Q
  | true, true => (inject_Z (shr_m mrs) + (1 # 2) < x /\ x < inject_Z (shr_m mrs) + 1)%Q
  end.

(** A double that is +0 or a positive normal number with its exponent in
    a range, and the rational it stands for. *)
Definition rep (lo hi : Z) (x : number) (v : Q) : Prop :=
  (x = S754_zero false /\ (v == 0)%Q)
  \/ exists (m : positive) (e : Z),
       x = S754_finite false m e
       /\ (2 ^ 52 <= Z.pos m < 2 ^ 53)%Z
       /\ (lo <= e <= hi)%Z
       /\ (v == inject_Z (Z.pos m) * 2 ^ e)%Q.

Section Component.
Context {num : Type} `{Arith num}.

Record Day : Type := { day : num; encrypted : num; pending : num; failed : num }.

Record Seg : Type := { label : string; val : num; frac : num; color : string }.

(** One arc of the ring: the two lengths of its dash pattern and its
    rotation in degrees. *)
Record Arc : Type := { len : num; gap : num; rot : num }.

Definition C_ENC : string := "#16c2c2".
Definition C_PEN : string := "#94a3b8".
Definition C_FAIL : string := "#fbbf24".

(** [days[i]], and the TypeError of reading a field of [undefined]. *)
Definition current (days : list Day) (i : nat) : completion Day :=
  match days !! i with
  | Some d => Normal d
  | None => Throw (TypeError "Cannot read properties of undefined")
  end.

Definition total (days : list Day) (i : nat) : completion num :=
  d ← current days i;
  Normal (Math_max (of_Z 1) (add (add (encrypted d) (pending d)) (failed d))).

Definition segs (days : list Day) (i : nat) (total : num) : completion (list Seg) :=
  d ← current days i;
  let f := fun n => div n total in
  Normal
    [ {| label := "Encrypted"; val := encrypted d; frac := f (encrypted d); color := C_ENC |};
      {| label := "Pending"; val := pending d; frac := f (pending d); color := C_PEN |};
      {| label := "Failed"; val := failed d; frac := f (failed d); color := C_FAIL |} ].

Definition r : num := of_Z 110.
Definition circ : num := mul (mul (of_Z 2) Math_PI) r.

(** [segs.map(...)] with its running [acc]: the arcs, and [acc] after
    the last one. *)
Fixpoint arcs_from (acc : num) (ss : list Seg) : list Arc * num :=
  match ss with
  | [] => ([], acc)
  | s :: rest =>
      let len := mul circ (frac s) in
      let rot := sub (mul acc (of_Z 360)) (of_Z 90) in
      let (more, final) := arcs_from (add acc (frac s)) rest in
      ({| len := len; gap := sub circ len; rot := rot |} :: more, final)
  end.

Definition arcs (ss : list Seg) : list Arc := fst (arcs_from (of_Z 0) ss).

(** The sum of the fractions, as the running [acc] adds them up. *)
Definition frac_sum (ss : list Seg) : num := snd (arcs_from (of_Z 0) ss).

(** What one render computes from [days] and [i]: the numbers behind the
    ring, the legend and the two centre labels. *)
Record View : Type := {
  v_total : num;
  v_segs : list Seg;
  v_arcs : list Arc;
  v_day : num;
  v_percent : num
}.

Definition render (days : list Day) (i : nat) : completion View :=
  t ← total days i;
  ss ← segs days i t;
  d ← current days i;
  d' ← current days i;
  Normal {| v_total := t;
            v_segs := ss;
            v_arcs := arcs ss;
            v_day := day d;
            v_percent := mul (div (encrypted d') t) (of_Z 100) |}.

(** A pending [window.setTimeout(tick, 1200)]: its handle, the time it is
    due, and the value of [step] in the closure of its [tick]. *)
Record Timeout : Type := { handle : nat; due : Z; step : nat }.

(** The state cells [i] and [playing], the ref [tRef], and the timers of
    the window. *)
Record Widget : Type := {
  i : nat;
  playing : bool;
  tRef : option nat;
  timers : list Timeout;
  next_handle : nat;
  clock : Z;
  mounted : bool
}.

Definition initial : Widget :=
  {| i := 0; playing := false; tRef := None; timers := [];
     next_handle := 1; clock := 0; mounted := true |}.

(** State setters do nothing once the component is gone. *)
Definition setI (n : nat) (w : Widget) : Widget :=
  {| i := if mounted w then n else i w; playing := playing w; tRef := tRef w;
     timers := timers w; next_handle := next_handle w; clock := clock w;
     mounted := mounted w |}.

Definition setPlaying (b : bool) (w : Widget) : Widget :=
  {| i := i w; playing := if mounted w then b else playing w; tRef := tRef w;
     timers := timers w; next_handle := next_handle w; clock := clock w;
     mounted := mounted w |}.

Definition set_tRef (h : option nat) (w : Widget) : Widget :=
  {| i := i w; playing := playing w; tRef := h;
     timers := timers w; next_handle := next_handle w; clock := clock w;
     mounted := mounted w |}.

(** [tRef.current = window.setTimeout(tick, 1200)], with [step] the
    current value of the closure's counter. *)
Definition schedule_tick (step : nat) (w : Widget) : Widget :=
  {| i := i w; playing := playing w; tRef := Some (next_handle w);
     timers := timers w ++
       [{| handle := next_handle w; due := clock w + 1200; step := step |}];
     next_handle := S (next_handle w); clock := clock w;
     mounted := mounted w |}.

Definition clearTimeout (h : nat) (w : Widget) : Widget :=
  {| i := i w; playing := playing w; tRef := tRef w;
     timers := filter (fun t => handle t ≠ h) (timers w);
     next_handle := next_handle w; clock := clock w; mounted := mounted w |}.

Section Playback.
Variable days : list Day.

Definition start (w : Widget) : Widget :=
  if playing w then w
  else
    let w := setPlaying true w in
    let w := setI 0 w in
    schedule_tick 0 w.

(** [tick], entered with the counter at [step]. *)
Definition tick (step : nat) (w : Widget) : Widget :=
  let step := S step in
  if (length days <=? step)%nat then
    let w := setPlaying false w in
    set_tRef None w
  else
    let w := setI step w in
    schedule_tick step w.

(** The earliest pending timeout fires; the clock moves to its due
    time. *)
Definition fire (w : Widget) : Widget :=
  match timers w with
  | [] => w
  | t :: rest =>
      tick (step t)
        {| i := i w; playing := playing w; tRef := tRef w; timers := rest;
           next_handle := next_handle w; clock := Z.max (clock w) (due t);
           mounted := mounted w |}
  end.

(** The cleanup of the effect: [if (tRef.current) clearTimeout(...)]. *)
Definition unmount (w : Widget) : Widget :=
  let w :=
    match tRef w with
    | Some h => if (h =? 0)%nat then w else clearTimeout h w
    | None => w
    end in
  {| i := i w; playing := playing w; tRef := tRef w; timers := timers w;
     next_handle := next_handle w; clock := clock w; mounted := false |}.

(** The Start button is there only while the component is mounted. *)
Inductive Event : Type := Start | Fire | Unmount.

Definition step_event (w : Widget) (e : Event) : Widget :=
  match e with
  | Start => if mounted w then start w else w
  | Fire => fire w
  | Unmount => unmount w
  end.

Definition run (evs : list Event) (w : Widget) : Widget :=
  fold_left step_event evs w.

(** *** The vocabulary of the specification *)

(** Nothing is scheduled and nothing plays. *)
Definition idle (w : Widget) : Prop :=
  playing w = false /\ timers w = [] /\ mounted w = true.

(** The state [k] timeouts after [w]. *)
Definition after (k : nat) (w : Widget) : Widget := Nat.iter k fire w.

(** Playback that began at time [T] shows day [k]: the next step is
    scheduled one delay after the last. *)
Definition playing_at (T : Z) (k : nat) (w : Widget) : Prop :=
  i w = k /\ playing w = true /\ mounted w = true
  /\ clock w = (T + 1200 * Z.of_nat k)%Z
  /\ exists h, tRef w = Some h
       /\ timers w = [{| handle := h; due := (T + 1200 * Z.of_nat (S k))%Z; step := k |}].

(** A mounted widget is steady when it is idle, or plays with exactly
    the timeout that [tRef] holds pending. *)
Definition steady (w : Widget) : Prop :=
  mounted w = true ->
  (playing w = false /\ timers w = [])
  \/ (playing w = true /\ exists t, timers w = [t] /\ tRef w = Some (handle t)).

(** Playback is over at time [T], on day [k]. *)
Definition stopped_at (T : Z) (k : nat) (w : Widget) : Prop :=
  i w = k /\ playing w = false /\ mounted w = true
  /\ clock w = T /\ tRef w = None /\ timers w = [].

End Playback.

(** The fractions of a snapshot: those of the render at that day. *)
Definition fractions (d : Day) : completion (list Seg) :=
  t ← total [d] 0;
  segs [d] 0 t.

End Component.

Arguments Day num : clear implicits.
Arguments Seg num : clear implicits.
Arguments View num : clear implicits.

(** The timers are sound when handles are positive, a mounted widget is
    idle or plays with the one timeout [tRef] holds, and an unmounted one
    has none pending. *)
Definition sound (w : Widget) : Prop :=
  Forall (fun t => 1 <= handle t) (timers w)
  /\ 1 <= next_handle w
  /\ (mounted w = true ->
      (playing w = false /\ timers w = [])
      \/ (playing w = true /\ exists t, timers w = [t] /\ tRef w = Some (handle t)))
  /\ (mounted w = false -> timers w = []).

(** The value column of the legend, [s.val.toString().padStart(2, " ")],
    for a whole count that a double holds exactly (up to 2^53), which
    [toString] prints in full. *)
Definition legend_val (n : Z) : string := padStart 2 (Z_to_string n).

(** A snapshot of integer counts. *)
Definition counts {num : Type} `{Arith num} (n e p f : Z) : Day num :=
  {| day := of_Z n; encrypted := of_Z e; pending := of_Z p; failed := of_Z f |}.

End Pie.

(** ** CloudLabPanel: the diagnostics panel *)

Module Panel.
Import Js.

Record CallResult : Type := {
  url : string;
  ok : bool;
  status : Z;
  statusText : string;
  bodyPreview : string;
  fullJson : JsValue;
  timeMs : Z;
  at_ : string
}.

(** [trimPreview(s, max)] *)
Definition trimPreview (s : string) (max : nat) : string :=
  let t := trim (collapse_spaces s) in
  if (max <? String.length t)%nat then slice0 max t ++ " …" else str_or t "(empty)".

Section Component.
Context `{Host}.
(** [root]: the base of the API, computed once from the props. *)
Variable root : string.

(** [previewJson(v, max)]; [JSON.stringify] gives [undefined] for
    [undefined], and [trimPreview] then fails on [s.replace]. *)
Definition previewJson (v : JsValue) (max : nat) : completion string :=
  match JSON_stringify v 2 with
  | Some s => Normal (trimPreview s max)
  | None => Throw (TypeError "Cannot read properties of undefined (reading 'replace')")
  end.

(** The inner [try]/[catch] of [call]: [fullJson] and [bodyPreview]. *)
Definition read_body (raw : string) : JsValue * string :=
  match (if string_truthy raw then JSON_parse raw else Normal JUndefined) with
  | Normal json =>
      match previewJson json 260 with
      | Normal preview => (json, preview)
      | Throw _ => (json, trimPreview raw 260)
      end
  | Throw _ => (JUndefined, trimPreview raw 260)
  end.

(** [call(fullUrl)]: [t0] and [t1] are the two readings of
    [performance.now()], [at_] is [new Date().toLocaleString()], and
    [fetched] is what [await fetch(...)] gives. *)
Definition call (fullUrl : string) (t0 t1 : Q) (at_ : string)
    (fetched : completion Response) : CallResult :=
  let attempt : completion (Z * string * bool * string * JsValue) :=
    r ← fetched;
    raw ← text r;
    let (fullJson, bodyPreview) := read_body raw in
    Normal (Js.status r, str_or (Js.statusText r) "", response_ok r, bodyPreview, fullJson) in
  match attempt with
  | Normal (status, statusText, ok, bodyPreview, fullJson) =>
      {| url := fullUrl; ok := ok; status := status; statusText := statusText;
         bodyPreview := bodyPreview; fullJson := fullJson;
         timeMs := Math_round (t1 - t0); at_ := at_ |}
  | Throw e =>
      {| url := fullUrl; ok := false; status := 0;
         statusText := default "Network error" (message e);
         bodyPreview := "(request failed)"; fullJson := JUndefined;
         timeMs := Math_round (t1 - t0); at_ := at_ |}
  end.

(** Where a call of [run] is suspended: in the forward sweep, in
    [await call(...)], or in the pause and the backward sweep. *)
Inductive Phase : Type :=
| Forward (path : string)
| Calling (fullUrl : string) (t0 : Q)
| Backward (res : CallResult).

(** The state cells [error] and [history], the calls of [run] in flight,
    and the URLs handed to [fetch]. The packet on the path is decoration
    and has no place here. *)
Record Widget : Type := {
  error : option string;
  history : list CallResult;
  runs : list Phase;
  network : list string
}.

Definition initial : Widget :=
  {| error := None; history := []; runs := []; network := [] |}.

Definition setError (e : option string) (w : Widget) : Widget :=
  {| error := e; history := history w; runs := runs w; network := network w |}.
Definition setHistory (f : list CallResult -> list CallResult) (w : Widget) : Widget :=
  {| error := error w; history := f (history w); runs := runs w; network := network w |}.
Definition set_runs (rs : list Phase) (w : Widget) : Widget :=
  {| error := error w; history := history w; runs := rs; network := network w |}.

(** [run(path)], up to the first [await]. *)
Definition run (path : string) (w : Widget) : Widget :=
  let w := setError None w in
  set_runs (runs w ++ [Forward path]) w.

(** The forward sweep of run [k] is over: [call] starts and fetches. *)
Definition swept (k : nat) (now : Q) (w : Widget) : Widget :=
  match runs w !! k with
  | Some (Forward path) =>
      let fullUrl := (root ++ path)%string in
      {| error := error w; history := history w;
         runs := <[k := Calling fullUrl now]> (runs w);
         network := network w ++ [fullUrl] |}
  | _ => w
  end.

(** The fetch of run [k] is settled: [call] returns, the result goes to
    the history. *)
Definition answered (k : nat) (fetched : completion Response) (now : Q) (at_ : string)
    (w : Widget) : Widget :=
  match runs w !! k with
  | Some (Calling fullUrl t0) =>
      let res := call fullUrl t0 now at_ fetched in
      let w := setHistory (fun h => h ++ [res]) w in
      set_runs (<[k := Backward res]> (runs w)) w
  | _ => w
  end.

(** The backward sweep of run [k] is over: the last line of [run]. *)
Definition returned (k : nat) (w : Widget) : Widget :=
  match runs w !! k with
  | Some (Backward res) =>
      let w := set_runs (delete k (runs w)) w in
      if negb (ok res)
      then setError (Some ("Request failed (" ++ Z_to_string (status res) ++ " "
                           ++ str_or (statusText res) "" ++ ")")%string) w
      else w
  | _ => w
  end.

Inductive Event : Type :=
| Press (path : string)
| Swept (k : nat) (now : Q)
| Answered (k : nat) (fetched : completion Response) (now : Q) (at_ : string)
| Returned (k : nat).

Definition step (w : Widget) (e : Event) : Widget :=
  match e with
  | Press path => run path w
  | Swept k now => swept k now w
  | Answered k fetched now at_ => answered k fetched now at_ w
  | Returned k => returned k w
  end.

Definition play (evs : list Event) (w : Widget) : Widget := fold_left step evs w.

(** *** The vocabulary of the specification *)

(** One diagnostics request on a panel with no other in flight: the
    press, the forward sweep, the settled fetch, the backward sweep. *)
Definition request (path : string) (t0 : Q) (fetched : completion Response)
    (t1 : Q) (at_ : string) (w : Widget) : Widget :=
  play [Press path; Swept 0 t0; Answered 0 fetched t1 at_; Returned 0] w.

(** *** The invariants of the panel *)

Definition is_calling (p : Phase) : bool :=
  match p with
  | Calling _ _ => true
  | _ => false
  end.

(** The calls of [run] that wait for their fetch. *)
Fixpoint calling (rs : list Phase) : nat :=
  match rs with
  | [] => 0
  | p :: rest => (if is_calling p then 1 else 0) + calling rest
  end.

(** What every entry of the history satisfies. *)
Definition entry_sound (c : CallResult) : Prop :=
  (ok c = true <-> (200 <= status c <= 299)%Z)
  /\ bodyPreview c <> ""
  /\ exists path, url c = (root ++ path)%string.

Definition phase_sound (p : Phase) : Prop :=
  match p with
  | Forward _ => True
  | Calling fullUrl _ => exists path, fullUrl = (root ++ path)%string
  | Backward res => entry_sound res
  end.

End Component.

(** *** The base of the API *)

Definition is_slash (c : ascii) : bool := (c =? "/")%char.

(** [s.replace(/\/+$/, "")] *)
Fixpoint strip_slashes (s : string) : string :=
  match s with
  | "" => ""
  | String c r =>
      let r' := strip_slashes r in
      if is_slash c && (r' =? "") then "" else String c r'
  end.

Fixpoint slashes (n : nat) : string :=
  match n with
  | O => ""
  | S n => String "/" (slashes n)
  end.

(** The canonical form of a character under the [i] flag. *)
Definition lower (c : ascii) : ascii :=
  let n := nat_of_ascii c in
  if (65 <=? n)%nat && (n <=? 90)%nat then ascii_of_nat (n + 32) else c.

Fixpoint lower_all (s : string) : string :=
  match s with
  | "" => ""
  | String c r => String (lower c) (lower_all r)
  end.

(** [s.replace(/\/api\/health\/?$/i, "")]: the match is the leftmost
    suffix that reads [/api/health] or [/api/health/]. *)
Fixpoint strip_health (s : string) : string :=
  if (lower_all s =? "/api/health") || (lower_all s =? "/api/health/") then ""
  else match s with
       | "" => ""
       | String c r => String c (strip_health r)
       end.

Section Base.
Context `{Host}.

Definition derivedBase (apiUrl : string) : string :=
  match URL_origin apiUrl with
  | Some o => o
  | None => strip_health apiUrl
  end.

(** [root], from the props: [(baseUrl ?? derivedBase).replace(/\/+$/, "")]. *)
Definition root_of (apiUrl : string) (baseUrl : option string) : string :=
  strip_slashes (default (derivedBase apiUrl) baseUrl).

End Base.

End Panel.

(** ** useTypewriter: the typed heading *)

Module Typewriter.
Import Js.

(** The local [i] and [alive] of one run of the effect, the state [out],
    and whether a next [tick] is scheduled. *)
Record Hook : Type := {
  i : nat;
  out : string;
  alive : bool;
  scheduled : bool
}.

Section Effect.
Variable text : string.

Definition tick (h : Hook) : Hook :=
  if negb (alive h)
  then {| i := i h; out := out h; alive := alive h; scheduled := false |}
  else
    let i' := Nat.min (String.length text) (i h + 1) in
    {| i := i'; out := slice0 i' text; alive := alive h;
       scheduled := (i' <? String.length text)%nat |}.

(** The effect: [let alive = true, i = 0; tick();]. *)
Definition mount : Hook :=
  tick {| i := 0; out := ""; alive := true; scheduled := false |}.

(** The scheduled [tick] runs. *)
Definition fire (h : Hook) : Hook :=
  if scheduled h
  then tick {| i := i h; out := out h; alive := alive h; scheduled := false |}
  else h.

(** The cleanup of the effect: [alive = false]. *)
Definition unmount (h : Hook) : Hook :=
  {| i := i h; out := out h; alive := false; scheduled := scheduled h |}.

Inductive Event : Type := Fire | Unmount.

Definition step (h : Hook) (e : Event) : Hook :=
  match e with
  | Fire => fire h
  | Unmount => unmount h
  end.

Definition run (evs : list Event) (h : Hook) : Hook := fold_left step evs h.

End Effect.

End Typewriter.

(** ** PanelErrorBoundary *)

Module Boundary.
Import Js.

(** The state of the boundary: [err]. *)
Definition State : Type := option string.

Definition initial : State := None.

(** [getDerivedStateFromError(e)]: [{ err: e?.message ?? "Unknown error" }]. *)
Definition getDerivedStateFromError (e : Thrown) : State :=
  Some (default "Unknown error" (message e)).

Inductive Rendered : Type :=
| Fallback (shown : string)
| Children.

(** [render]: the error box when [this.state.err] is truthy, else the
    children. *)
Definition render (s : State) : Rendered :=
  match s with
  | Some err => if string_truthy err then Fallback err else Children
  | None => Children
  end.

End Boundary.

(** ** A reference host

    An executable [Host] for the concrete examples. It reads and prints
    JSON texts whose numbers are integer literals and whose strings hold no
    [\u] escapes; a text outside that fragment is refused as if it were not
    JSON, so the examples stay inside it. *)

Module RefHost.
Import Js.

Definition dquote : ascii := ascii_of_nat 34.
Definition backslash : ascii := ascii_of_nat 92.

Definition is_json_space (c : ascii) : bool :=
  let n := nat_of_ascii c in
  (n =? 32)%nat || (n =? 9)%nat || (n =? 10)%nat || (n =? 13)%nat.

Fixpoint skip_ws (s : string) : string :=
  match s with
  | String c r => if is_json_space c then skip_ws r else s
  | "" => ""
  end.

Definition unescape (c : ascii) : option ascii :=
  if (c =? dquote)%char then Some dquote
  else if (c =? backslash)%char then Some backslash
  else if (c =? "/")%char then Some "/"%char
  else if (c =? "b")%char then Some (ascii_of_nat 8)
  else if (c =? "f")%char then Some (ascii_of_nat 12)
  else if (c =? "n")%char then Some (ascii_of_nat 10)
  else if (c =? "r")%char then Some (ascii_of_nat 13)
  else if (c =? "t")%char then Some (ascii_of_nat 9)
  else None.

(** The rest of a string literal, after its opening quote. *)
Fixpoint string_lit (s : string) : option (string * string) :=
  match s with
  | "" => None
  | String c r =>
      if (c =? dquote)%char then Some ("", r)
      else if (c =? backslash)%char then
        match r with
        | String e r' =>
            match unescape e, string_lit r' with
            | Some c', Some (t, rest) => Some (String c' t, rest)
            | _, _ => None
            end
        | "" => None
        end
      else if (nat_of_ascii c <? 32)%nat then None
      else match string_lit r with
           | Some (t, rest) => Some (String c t, rest)
           | None => None
           end
  end.

Fixpoint digits (acc : Z) (s : string) : Z * string :=
  match s with
  | String c r =>
      if is_digit c then digits (10 * acc + (Z.of_nat (nat_of_ascii c) - 48)) r
      else (acc, s)
  | "" => (acc, "")
  end.

Definition starts_with_digit (s : string) : bool :=
  match s with
  | String c _ => is_digit c
  | "" => false
  end.

Definition starts_fraction (s : string) : bool :=
  match s with
  | String c _ => (c =? ".")%char || (c =? "e")%char || (c =? "E")%char
  | "" => false
  end.

(** An integer literal: an optional minus, then [0] or digits without a
    leading zero. *)
Definition number_lit (s : string) : option (number * string) :=
  let (neg, s1) :=
    match s with
    | String c r => if (c =? "-")%char then (true, r) else (false, s)
    | "" => (false, s)
    end in
  match s1 with
  | String c r =>
      if negb (is_digit c) then None
      else if (c =? "0")%char && starts_with_digit r then None
      else
        let (n, rest) := digits 0 s1 in
        if starts_fraction rest then None
        else if (n =? 0)%Z then Some (S754_zero neg, rest)
        else Some (number_of_Z (if neg then - n else n), rest)
  | "" => None
  end.

Fixpoint strip_prefix (p s : string) : option string :=
  match p, s with
  | "", _ => Some s
  | String a p', String b s' => if (a =? b)%char then strip_prefix p' s' else None
  | _, "" => None
  end.

(** A later member with the same key replaces the value of the earlier
    one. *)
Fixpoint set_prop (k : string) (v : JsValue) (props : list (string * JsValue))
    : list (string * JsValue) :=
  match props with
  | [] => [(k, v)]
  | (k', v') :: rest => if k' =? k then (k', v) :: rest else (k', v') :: set_prop k v rest
  end.

Fixpoint value (fuel : nat) (s : string) {struct fuel} : option (JsValue * string) :=
  match fuel with
  | O => None
  | S fuel =>
      match skip_ws s with
      | "" => None
      | String c r =>
          if (c =? "{")%char then
            match skip_ws r with
            | String c' r' =>
                if (c' =? "}")%char then Some (JObj [], r') else members fuel r []
            | "" => None
            end
          else if (c =? "[")%char then
            match skip_ws r with
            | String c' r' =>
                if (c' =? "]")%char then Some (JArr [], r') else elements fuel r []
            | "" => None
            end
          else if (c =? dquote)%char then
            match string_lit r with
            | Some (t, rest) => Some (JStr t, rest)
            | None => None
            end
          else
            match strip_prefix "true" (String c r), strip_prefix "false" (String c r),
                  strip_prefix "null" (String c r) with
            | Some rest, _, _ => Some (JBool true, rest)
            | _, Some rest, _ => Some (JBool false, rest)
            | _, _, Some rest => Some (JNull, rest)
            | _, _, _ =>
                match number_lit (String c r) with
                | Some (x, rest) => Some (JNum x, rest)
                | None => None
                end
            end
      end
  end
with members (fuel : nat) (s : string) (acc : list (string * JsValue)) {struct fuel}
    : option (JsValue * string) :=
  match fuel with
  | O => None
  | S fuel =>
      match skip_ws s with
      | "" => None
      | String c r =>
          if negb (c =? dquote)%char then None
          else
            match string_lit r with
            | None => None
            | Some (k, r1) =>
                match skip_ws r1 with
                | "" => None
                | String c1 r2 =>
                    if negb (c1 =? ":")%char then None
                    else
                      match value fuel r2 with
                      | None => None
                      | Some (v, r3) =>
                          match skip_ws r3 with
                          | "" => None
                          | String c3 r4 =>
                              if (c3 =? ",")%char then members fuel r4 (set_prop k v acc)
                              else if (c3 =? "}")%char then Some (JObj (set_prop k v acc), r4)
                              else None
                          end
                      end
                end
            end
      end
  end
with elements (fuel : nat) (s : string) (acc : list JsValue) {struct fuel}
    : option (JsValue * string) :=
  match fuel with
  | O => None
  | S fuel =>
      match value fuel s with
      | None => None
      | Some (v, r1) =>
          match skip_ws r1 with
          | "" => None
          | String c r2 =>
              if (c =? ",")%char then elements fuel r2 (acc ++ [v])
              else if (c =? "]")%char then Some (JArr (acc ++ [v]), r2)
              else None
          end
      end
  end.

Definition SyntaxError : Thrown := {| message := Some "Unexpected token in JSON" |}.

Definition parse (s : string) : completion JsValue :=
  match value (2 * String.length s + 2) s with
  | Some (v, rest) => if skip_ws rest =? "" then Normal v else Throw SyntaxError
  | None => Throw SyntaxError
  end.

(** *** Printing *)

#[local] Open Scope string_scope.

Definition newline : string := String (ascii_of_nat 10) "".

Definition hex_digit (n : nat) : ascii :=
  if (n <? 10)%nat then ascii_of_nat (48 + n) else ascii_of_nat (87 + n).

Definition escape (c : ascii) : string :=
  let n := nat_of_ascii c in
  if (c =? dquote)%char then String backslash (String dquote "")
  else if (c =? backslash)%char then String backslash (String backslash "")
  else if (n =? 8)%nat then String backslash "b"
  else if (n =? 9)%nat then String backslash "t"
  else if (n =? 10)%nat then String backslash "n"
  else if (n =? 12)%nat then String backslash "f"
  else if (n =? 13)%nat then String backslash "r"
  else if (n <? 32)%nat then
    String backslash ("u00" ++ String (hex_digit (n / 16)) (String (hex_digit (n mod 16)) ""))
  else String c "".

Fixpoint escape_all (s : string) : string :=
  match s with
  | "" => ""
  | String c r => escape c ++ escape_all r
  end.

Definition quote (s : string) : string :=
  String dquote (escape_all s ++ String dquote "").

(** The integer a double is, if it is one. *)
Definition integer_of (x : number) : option Z :=
  match x with
  | S754_zero _ => Some 0%Z
  | S754_finite neg m e =>
      let sign := fun n : Z => if neg then (- n)%Z else n in
      match e with
      | Z0 => Some (sign (Zpos m))
      | Zpos k => Some (sign (Zpos m * 2 ^ Zpos k)%Z)
      | Zneg k =>
          if (Zpos m mod 2 ^ Zpos k =? 0)%Z then Some (sign (Zpos m / 2 ^ Zpos k)%Z)
          else None
      end
  | _ => None
  end.

(** Integers in plain digits; NaN and the infinities as [null], and so is
    a number with a fraction, which is outside the fragment. *)
Definition number_text (x : number) : string :=
  match integer_of x with
  | Some n => Z_to_string n
  | None => "null"
  end.

Fixpoint join (sep : string) (items : list string) : string :=
  match items with
  | [] => ""
  | [x] => x
  | x :: rest => x ++ sep ++ join sep rest
  end.

Definition wrap (open close gap ind : string) (items : list string) : string :=
  match items with
  | [] => open ++ close
  | _ =>
      if gap =? "" then open ++ join "," items ++ close
      else
        let ind' := ind ++ gap in
        open ++ newline ++ ind' ++ join ("," ++ newline ++ ind') items
             ++ newline ++ ind ++ close
  end.

(** [SerializeJSONProperty]: [None] is [undefined]. A member whose value
    is [undefined] is left out of an object and printed as [null] in an
    array. *)
Fixpoint print (gap ind : string) (v : JsValue) {struct v} : option string :=
  match v with
  | JUndefined => None
  | JNull => Some "null"
  | JBool b => Some (if b then "true" else "false")
  | JNum x => Some (number_text x)
  | JStr s => Some (quote s)
  | JArr xs =>
      Some (wrap "[" "]" gap ind
              (map (fun x => default "null" (print gap (ind ++ gap) x)) xs))
  | JObj props =>
      Some (wrap "{" "}" gap ind
              (flat_map
                 (fun kv =>
                    match kv with
                    | (k, x) =>
                        match print gap (ind ++ gap) x with
                        | Some t => [quote k ++ (if gap =? "" then ":" else ": ") ++ t]
                        | None => []
                        end
                    end) props))
  end.

Fixpoint spaces (n : nat) : string :=
  match n with
  | O => ""
  | S n => String " " (spaces n)
  end.

Definition stringify (v : JsValue) (indent : nat) : option string :=
  print (spaces (Nat.min indent 10)) "" v.

(** *** Origins *)

Fixpoint authority (s : string) : string :=
  match s with
  | "" => ""
  | String c r =>
      if (c =? "/")%char || (c =? "?")%char || (c =? "#")%char then ""
      else String c (authority r)
  end.

(** The origin of an [http] or [https] URL written with a lower-case host
    and without a default port; any other text is refused. *)
Definition origin_of (u : string) : option string :=
  match strip_prefix "https://" u, strip_prefix "http://" u with
  | Some rest, _ =>
      if authority rest =? "" then None else Some ("https://" ++ authority rest)
  | _, Some rest =>
      if authority rest =? "" then None else Some ("http://" ++ authority rest)
  | _, _ => None
  end.

Definition ref_host : Host :=
  {| JSON_parse := parse; JSON_stringify := stringify; URL_origin := origin_of |}.

(** The JSON text of an object with string members, for the examples. *)
Definition member_text (kv : string * string) : string :=
  quote (fst kv) ++ ":" ++ quote (snd kv).

Definition object_text (members : list (string * string)) : string :=
  "{" ++ join "," (map member_text members) ++ "}".

End RefHost.

(** ** Sample data for the examples *)

Module Sample.
Import Js RefHost Pie.

#[local] Open Scope string_scope.

Definition chat_url : string := "https://api.example.com/chat".

Definition lab_root : string := "https://lab.example.com".

(** The body with a reply "A" and a content "B". *)
Definition reply_and_content : string := object_text [("reply", "A"); ("content", "B")].

(** The body with a content "B" and a message "C". *)
Definition content_and_message : string :=
  object_text [("content", "B"); ("message", "C")].

(** The body with only a first choice whose message has the content "D". *)
Definition choices_only : string :=
  "{" ++ quote "choices" ++ ":[{" ++ quote "message" ++ ":"
      ++ object_text [("content", "D")] ++ "}]}".

(** The body with a null reply and a content "B". *)
Definition null_reply : string :=
  "{" ++ quote "reply" ++ ":null," ++ quote "content" ++ ":" ++ quote "B" ++ "}".

(** The body with an empty reply and a content "B". *)
Definition empty_reply : string := object_text [("reply", ""); ("content", "B")].

(** The body with the number 42 as its reply. *)
Definition number_reply : string := "{" ++ quote "reply" ++ ":42}".

(** A terminal in whose box "  hi " was typed. *)
Definition typed : Chat.Terminal :=
  Chat.run (H := ref_host) chat_url [(0%Q, Chat.Change "  hi ")] Chat.initial.

Definition ok_response (raw : string) : completion Response :=
  Normal {| status := 200; statusText := "OK"; text := Normal raw |}.

Definition unavailable : completion Response :=
  Normal {| status := 503; statusText := "Service Unavailable";
            text := Normal "upstream down" |}.

Definition unreachable : completion Response :=
  Throw {| message := Some "Failed to fetch" |}.

(** Four days of a rollout to ten machines. *)
Definition four_days : list (Day Q) :=
  [counts 1 3 5 2; counts 2 5 4 1; counts 3 8 2 0; counts 4 10 0 0].

End Sample.

(** * Properties *)

(** ** Strings *)

Module JsFacts.
Import Js.

Lemma string_truthy_false (s : string) : string_truthy s = false <-> s = "".
Proof.
  unfold string_truthy. destruct (String.eqb_spec s ""); simpl; split; congruence.
Qed.

Lemma string_truthy_true (s : string) : string_truthy s = true <-> s <> "".
Proof.
  unfold string_truthy. destruct (String.eqb_spec s ""); simpl; split; congruence.
Qed.

Lemma str_or_nonempty (s d : string) : s <> "" -> str_or s d = s.
Proof.
  intros N. unfold str_or. apply string_truthy_true in N. now rewrite N.
Qed.

Lemma str_or_default (s d : string) : d <> "" -> str_or s d <> "".
Proof.
  intros D. unfold str_or. destruct (string_truthy s) eqn:E; [|exact D].
  now apply string_truthy_true.
Qed.

Lemma trimStart_whitespace (s : string) :
  whitespace_only (trimStart s) = whitespace_only s.
Proof.
  induction s as [|c r IH]; simpl; [reflexivity|].
  destruct (is_space c) eqn:Hc; simpl; [exact IH|].
  now rewrite Hc.
Qed.

Lemma trimEnd_empty (s : string) : trimEnd s = "" <-> whitespace_only s = true.
Proof.
  induction s as [|c r IH]; simpl; [tauto|].
  destruct (is_space c) eqn:Hc; simpl.
  - destruct (String.eqb_spec (trimEnd r) "") as [E|E].
    + split; [intros _; now apply IH | reflexivity].
    + split; [discriminate|]. intros W. now apply IH in W.
  - split; discriminate.
Qed.

(** [input.trim()] is empty exactly on white space. *)
Lemma trim_empty (s : string) : trim s = "" <-> whitespace_only s = true.
Proof.
  unfold trim. rewrite trimEnd_empty. now rewrite trimStart_whitespace.
Qed.

(** What the two awaits of a request give is a response with its text, or
    an exception. *)
Lemma responds_or_fails (fetched : completion Response) :
  (exists r raw, responds fetched r raw) \/ (exists e, fails fetched e).
Proof.
  destruct fetched as [r|e].
  - destruct (text r) as [raw|e] eqn:T.
    + left. exists r, raw. now split.
    + right. exists e. right. exists r. now split.
  - right. exists e. now left.
Qed.

Lemma responds_text (fetched : completion Response) (r : Response) (raw : string) :
  responds fetched r raw -> (res ← fetched; text res) = Normal raw.
Proof. intros [-> T]. exact T. Qed.

Lemma fails_text (fetched : completion Response) (e : Thrown) :
  fails fetched e -> (res ← fetched; text res) = Throw e.
Proof. intros [->|[r [-> T]]]; [reflexivity|exact T]. Qed.

End JsFacts.


(** ** The rounding of binary64

    What the operations of [SpecFloat] return on positive normal doubles,
    away from underflow and overflow: the nearest double, within a
    relative error of 2^-53, and the exact result when that is a double. *)

Module FloatFacts.
Import Js Pie.


#[local] Open Scope Z_scope.

(** *** Digits *)

Lemma digits2_pos_spec (p : positive) :
  2 ^ (Z.pos (digits2_pos p) - 1) <= Z.pos p < 2 ^ Z.pos (digits2_pos p).
Proof.
  induction p as [p IH|p IH|]; simpl digits2_pos.
  - rewrite Pos2Z.inj_succ, (Pos2Z.inj_xI p).
    replace (Z.succ (Z.pos (digits2_pos p)) - 1) with (Z.succ (Z.pos (digits2_pos p) - 1)) by lia.
    rewrite !Z.pow_succ_r by lia.
    set (a := 2 ^ (Z.pos (digits2_pos p) - 1)) in *.
    set (b := 2 ^ Z.pos (digits2_pos p)) in *. clearbody a b. lia.
  - rewrite Pos2Z.inj_succ, (Pos2Z.inj_xO p).
    replace (Z.succ (Z.pos (digits2_pos p)) - 1) with (Z.succ (Z.pos (digits2_pos p) - 1)) by lia.
    rewrite !Z.pow_succ_r by lia.
    set (a := 2 ^ (Z.pos (digits2_pos p) - 1)) in *.
    set (b := 2 ^ Z.pos (digits2_pos p)) in *. clearbody a b. lia.
  - simpl. lia.
Qed.

Lemma digits_unique (p : positive) (k : Z) :
  2 ^ (k - 1) <= Z.pos p < 2 ^ k -> Z.pos (digits2_pos p) = k.
Proof.
  intros [L U]. pose proof (digits2_pos_spec p) as [L' U'].
  assert (K : 0 < k).
  { destruct (Z.lt_ge_cases 0 k) as [G|G]; [exact G|].
    destruct (Z.eq_dec k 0) as [->|N]; [simpl in U; lia|].
    rewrite (Z.pow_neg_r 2 k) in U by lia. lia. }
  set (d := Z.pos (digits2_pos p)) in *.
  assert (D : 0 < d) by (subst d; lia).
  assert (A : k - 1 < d).
  { apply (Z.pow_lt_mono_r_iff 2); [lia|lia|lia]. }
  assert (B : d - 1 < k).
  { apply (Z.pow_lt_mono_r_iff 2); [lia|lia|lia]. }
  lia.
Qed.

Lemma iter_xO (p k : positive) : Z.pos (Pos.iter xO p k) = Z.pos p * 2 ^ Z.pos k.
Proof.
  induction k as [|k IH] using Pos.peano_ind.
  - simpl. lia.
  - rewrite Pos.iter_succ, (Pos2Z.inj_xO (Pos.iter xO p k)), IH, Pos2Z.inj_succ, Z.pow_succ_r by lia. lia.
Qed.

(** *** Where a value lies: the round and sticky bits *)

#[local] Open Scope Q_scope.

(** Linear arithmetic over the rationals, with the injected integers
    taken as unknowns. *)
Ltac hide_inject :=
  repeat match goal with
         | |- context [inject_Z ?z] =>
             let q := fresh "q" in set (q := inject_Z z) in *; clearbody q
         | H : context [inject_Z ?z] |- _ =>
             let q := fresh "q" in set (q := inject_Z z) in *; clearbody q
         end.
Ltac qlra := hide_inject; lra.

Lemma locates_ext (mrs : shr_record) (x y : Q) : x == y -> locates mrs x -> locates mrs y.
Proof.
  intros E. unfold locates. destruct (shr_r mrs), (shr_s mrs); rewrite E; tauto.
Qed.

Lemma locates_floor (mrs : shr_record) (x : Q) :
  locates mrs x -> inject_Z (shr_m mrs) <= x /\ x < inject_Z (shr_m mrs) + 1.
Proof. unfold locates. destruct (shr_r mrs), (shr_s mrs); intros L; qlra. Qed.

Lemma inject_xO (p : positive) : inject_Z (Z.pos p~0) == 2 * inject_Z (Z.pos p).
Proof. rewrite (Pos2Z.inj_xO p), inject_Z_mult. reflexivity. Qed.

Lemma inject_xI (p : positive) : inject_Z (Z.pos p~1) == 2 * inject_Z (Z.pos p) + 1.
Proof. rewrite (Pos2Z.inj_xI p), inject_Z_plus, inject_Z_mult. reflexivity. Qed.

(** One shift to the right halves the value that is located. *)
Lemma shr_1_locates (mrs : shr_record) (x : Q) :
  (0 <= shr_m mrs)%Z -> locates mrs x ->
  locates (shr_1 mrs) (x * (1 # 2)) /\ (0 <= shr_m (shr_1 mrs))%Z.
Proof.
  destruct mrs as [m r s]. simpl. intros P L.
  destruct m as [|p|p]; [| |lia].
  - split; [|simpl; lia].
    unfold locates in *. simpl in *. change (inject_Z 0) with 0 in *.
    destruct r, s; simpl; qlra.
  - destruct p as [p|p|]; (split; [|simpl; lia]); unfold locates in *; simpl in *.
    + pose proof (inject_xI p) as E. destruct r, s; simpl; qlra.
    + pose proof (inject_xO p) as E. destruct r, s; simpl; qlra.
    + change (inject_Z 1) with 1 in *. change (inject_Z 0) with 0.
      destruct r, s; simpl; qlra.
Qed.

Lemma iter_pos_locates (p : positive) (mrs : shr_record) (x : Q) :
  (0 <= shr_m mrs)%Z -> locates mrs x ->
  locates (SpecFloat.iter_pos shr_1 p mrs) (x / inject_Z (2 ^ Z.pos p))
  /\ (0 <= shr_m (SpecFloat.iter_pos shr_1 p mrs))%Z.
Proof.
  revert mrs x. induction p as [p IH|p IH|]; intros mrs x P L.
  - simpl SpecFloat.iter_pos.
    destruct (shr_1_locates mrs x P L) as [L1 P1].
    destruct (IH _ _ P1 L1) as [L2 P2].
    destruct (IH _ _ P2 L2) as [L3 P3].
    split; [|exact P3]. eapply locates_ext; [|exact L3].
    replace (Z.pos p~1) with (Z.pos p + Z.pos p + 1)%Z by lia.
    rewrite !Z.pow_add_r by lia.
    rewrite !inject_Z_mult. change (inject_Z (2 ^ 1)) with 2.
    assert (N : ~ inject_Z (2 ^ Z.pos p) == 0).
    { change 0 with (inject_Z 0). rewrite inject_Z_injective.
      pose proof (Z.pow_pos_nonneg 2 (Z.pos p)). lia. }
    field. exact N.
  - simpl SpecFloat.iter_pos.
    destruct (IH _ _ P L) as [L2 P2].
    destruct (IH _ _ P2 L2) as [L3 P3].
    split; [|exact P3]. eapply locates_ext; [|exact L3].
    replace (Z.pos p~0) with (Z.pos p + Z.pos p)%Z by lia.
    rewrite !Z.pow_add_r by lia.
    rewrite !inject_Z_mult.
    assert (N : ~ inject_Z (2 ^ Z.pos p) == 0).
    { change 0 with (inject_Z 0). rewrite inject_Z_injective.
      pose proof (Z.pow_pos_nonneg 2 (Z.pos p)). lia. }
    field. exact N.
  - simpl SpecFloat.iter_pos. destruct (shr_1_locates mrs x P L) as [L1 P1].
    split; [|exact P1]. eapply locates_ext; [|exact L1].
    change (inject_Z (2 ^ 1)) with 2. field.
Qed.


Lemma inject_pow_pos (n : Z) : (0 <= n)%Z -> 0 < inject_Z (2 ^ n).
Proof.
  intros N. change 0 with (inject_Z 0). rewrite <- Zlt_Qlt.
  now apply Z.pow_pos_nonneg.
Qed.

Lemma shr_locates (mrs : shr_record) (e n : Z) (x : Q) :
  (0 <= shr_m mrs)%Z -> (0 <= n)%Z -> locates mrs x ->
  locates (fst (shr mrs e n)) (x / inject_Z (2 ^ n))
  /\ (0 <= shr_m (fst (shr mrs e n)))%Z
  /\ snd (shr mrs e n) = (e + n)%Z.
Proof.
  intros P N L. destruct n as [|q|q]; [| |lia]; simpl shr.
  - simpl fst. simpl snd. split; [|split; [exact P|lia]].
    eapply locates_ext; [|exact L]. change (inject_Z (2 ^ 0)) with 1. field.
  - simpl fst. simpl snd. destruct (iter_pos_locates q mrs x P L) as [L' P'].
    split; [exact L'|]. split; [exact P'|reflexivity].
Qed.

(** Rounding to nearest, ties to even, moves by at most one half, and not
    at all from a whole number. *)
Lemma round_locates (mrs : shr_record) (x : Q) :
  locates mrs x ->
  let M := round_nearest_even (shr_m mrs) (loc_of_shr_record mrs) in
  (shr_m mrs <= M <= shr_m mrs + 1)%Z
  /\ inject_Z M - x <= 1 # 2
  /\ x - inject_Z M <= 1 # 2
  /\ (forall k : Z, x == inject_Z k -> M = k).
Proof.
  destruct mrs as [m r s]. unfold locates. simpl.
  assert (I : forall k : Z, inject_Z m < inject_Z k -> inject_Z k < inject_Z m + 1 -> False).
  { intros k A B. change 1 with (inject_Z 1) in B. rewrite <- inject_Z_plus in B.
    rewrite <- Zlt_Qlt in A, B. lia. }
  destruct r, s; simpl; intros L.
  - rewrite inject_Z_plus. change (inject_Z 1) with 1.
    split; [lia|]. split; [qlra|]. split; [qlra|].
    intros k E. exfalso. apply (I k); rewrite <- E; lra.
  - assert (S : inject_Z (if Z.even m then m else (m + 1)%Z) == inject_Z m
                \/ inject_Z (if Z.even m then m else (m + 1)%Z) == inject_Z m + 1).
    { destruct (Z.even m); [now left|right]. rewrite inject_Z_plus. reflexivity. }
    split; [destruct (Z.even m); lia|].
    split; [destruct S as [S|S]; rewrite S; qlra|].
    split; [destruct S as [S|S]; rewrite S; qlra|].
    intros k E. exfalso. apply (I k); rewrite <- E; lra.
  - split; [lia|]. split; [qlra|]. split; [qlra|].
    intros k E. exfalso. apply (I k); rewrite <- E; lra.
  - split; [lia|]. split; [qlra|]. split; [qlra|].
    intros k E. rewrite E in L. apply (proj1 (inject_Z_injective _ _)) in L. now symmetry.
Qed.


(** *** Powers of two *)

Lemma Qpow2_pos (e : Z) : 0 < 2 ^ e.
Proof. apply Qpower_0_lt. reflexivity. Qed.

Lemma Qpow2_add (a b : Z) : 2 ^ (a + b) == 2 ^ a * 2 ^ b.
Proof. apply Qpower_plus. discriminate. Qed.

Lemma pow2_Q (n : Z) : (0 <= n)%Z -> inject_Z (2 ^ n) == 2 ^ n.
Proof. intros N. now rewrite (Zpower_Qpower 2 n N). Qed.

Lemma shr_m_of_loc (m : Z) (l : location) : shr_m (shr_record_of_loc m l) = m.
Proof. destruct l as [|[ | | ]]; reflexivity. Qed.

Lemma binary_round_aux_eq (m e : Z) (l : location) :
  binary_round_aux 53 1024 false m e l =
    let s1 := shr_fexp 53 1024 m e l in
    let s2 := shr_fexp 53 1024
                (round_nearest_even (shr_m (fst s1)) (loc_of_shr_record (fst s1)))
                (snd s1) loc_Exact in
    match shr_m (fst s2) with
    | Z0 => S754_zero false
    | Zpos m' => if (snd s2 <=? 1024 - 53)%Z then S754_finite false m' (snd s2)
                 else S754_infinity false
    | Zneg _ => S754_nan
    end.
Proof.
  unfold binary_round_aux. destruct (shr_fexp 53 1024 m e l) as [mrs1 e1]. simpl.
  destruct (shr_fexp 53 1024 _ e1 loc_Exact) as [mrs2 e2]. reflexivity.
Qed.

Lemma fexp_normal (k : Z) : (-1074 <= k - 53)%Z -> fexp 53 1024 k = (k - 53)%Z.
Proof. unfold fexp, emin. lia. Qed.

Lemma scale_bounds (a x1 B u : Q) :
  0 < B -> a - x1 <= u * x1 -> x1 - a <= u * x1 ->
  a * B - x1 * B <= u * (x1 * B) /\ x1 * B - a * B <= u * (x1 * B).
Proof.
  intros HB U1 U2. split.
  - setoid_replace (a * B - x1 * B) with ((a - x1) * B) using relation Qeq by ring.
    setoid_replace (u * (x1 * B)) with (u * x1 * B) using relation Qeq by ring.
    apply Qmult_le_compat_r; [exact U1|lra].
  - setoid_replace (x1 * B - a * B) with ((x1 - a) * B) using relation Qeq by ring.
    setoid_replace (u * (x1 * B)) with (u * x1 * B) using relation Qeq by ring.
    apply Qmult_le_compat_r; [exact U2|lra].
Qed.

(** What [binary_round_aux] returns for a mantissa of at least 53 bits
    that locates the value [x], away from underflow and overflow: the
    double nearest to [x * 2^e], within a relative error of 2^-53, and
    [x * 2^e] itself when that is a double. *)
Lemma round_aux_spec (m e : Z) (l : location) (x : Q) :
  (2 ^ 52 <= m)%Z ->
  locates (shr_record_of_loc m l) x ->
  (-1074 <= Zdigits2 m + e - 53 <= 970)%Z ->
  exists (m' : positive) (e' : Z),
    binary_round_aux 53 1024 false m e l = S754_finite false m' e'
    /\ (2 ^ 52 <= Z.pos m' < 2 ^ 53)%Z
    /\ (Zdigits2 m + e - 53 <= e' <= Zdigits2 m + e - 52)%Z
    /\ inject_Z (Z.pos m') * 2 ^ e' - x * 2 ^ e <= u53 * (x * 2 ^ e)
    /\ x * 2 ^ e - inject_Z (Z.pos m') * 2 ^ e' <= u53 * (x * 2 ^ e)
    /\ (forall k : Z, x == inject_Z k * inject_Z (2 ^ (Zdigits2 m - 53)) ->
        inject_Z (Z.pos m') * 2 ^ e' == x * 2 ^ e).
Proof.
  intros Hm L R.
  assert (C52 : (2 ^ 52 = 4503599627370496)%Z) by reflexivity.
  assert (C53 : (2 ^ 53 = 9007199254740992)%Z) by reflexivity.
  destruct m as [|p|p]; [lia| |lia].
  simpl Zdigits2 in *. set (d := Z.pos (digits2_pos p)) in *.
  pose proof (digits2_pos_spec p) as [D1 D2]. fold d in D1, D2.
  assert (Hd : (53 <= d)%Z).
  { assert (52 < d)%Z; [|lia]. apply (Z.pow_lt_mono_r_iff 2); [lia|subst d; lia|lia]. }
  set (n := (d - 53)%Z) in *.
  assert (Hn : (0 <= n)%Z) by (subst n; lia).
  rewrite binary_round_aux_eq.
  assert (S1eq : shr_fexp 53 1024 (Z.pos p) e l = shr (shr_record_of_loc (Z.pos p) l) e n).
  { unfold shr_fexp. simpl Zdigits2. fold d. rewrite (fexp_normal (d + e)) by lia.
    f_equal. subst n. lia. }
  rewrite S1eq. clear S1eq. cbv zeta.
  pose proof (shr_locates (shr_record_of_loc (Z.pos p) l) e n x) as S1.
  rewrite shr_m_of_loc in S1. specialize (S1 ltac:(lia) Hn L).
  destruct S1 as (L1 & P1 & E1).
  set (s1 := shr (shr_record_of_loc (Z.pos p) l) e n) in *.
  rewrite E1. set (mrs1 := fst s1) in *. clearbody mrs1. clear s1 E1.
  set (A := inject_Z (2 ^ n)) in *.
  assert (HA : 0 < A) by (apply inject_pow_pos; exact Hn).
  set (x1 := x / A) in *.
  assert (Hx : x == x1 * A) by (unfold x1; field; lra).
  (* the bounds of x and of x1 *)
  pose proof (locates_floor _ _ L) as [X1 X2]. rewrite shr_m_of_loc in X1, X2.
  assert (B1 : inject_Z (2 ^ 52) * A <= x).
  { unfold A. rewrite <- inject_Z_mult, <- Z.pow_add_r by lia.
    replace (52 + n)%Z with (d - 1)%Z by (subst n; lia).
    rewrite Zle_Qle in D1. lra. }
  assert (B2 : x < inject_Z (2 ^ 53) * A).
  { unfold A. rewrite <- inject_Z_mult, <- Z.pow_add_r by lia.
    replace (53 + n)%Z with d by (subst n; lia).
    assert (D3 : (Z.pos p + 1 <= 2 ^ d)%Z) by lia.
    rewrite Zle_Qle, inject_Z_plus in D3. change (inject_Z 1) with 1 in D3. lra. }
  assert (B3 : inject_Z (2 ^ 52) <= x1).
  { unfold x1. apply Qle_shift_div_l; [exact HA|exact B1]. }
  assert (B4 : x1 < inject_Z (2 ^ 53)).
  { unfold x1. apply Qlt_shift_div_r; [exact HA|exact B2]. }
  pose proof (locates_floor _ _ L1) as [Y1 Y2].
  pose proof (round_locates _ _ L1) as (M1 & M2 & M3 & M4). cbv zeta in M1, M2, M3, M4.
  set (M := round_nearest_even (shr_m mrs1) (loc_of_shr_record mrs1)) in *.
  set (m1 := shr_m mrs1) in *.
  assert (N1 : (2 ^ 52 <= m1 < 2 ^ 53)%Z).
  { split.
    - assert (T : inject_Z (2 ^ 52) < inject_Z (m1 + 1)).
      { rewrite inject_Z_plus. change (inject_Z 1) with 1. lra. }
      rewrite <- Zlt_Qlt in T. lia.
    - assert (T : inject_Z m1 < inject_Z (2 ^ 53)) by lra.
      rewrite <- Zlt_Qlt in T. exact T. }
  rewrite C52, C53 in *.
  (* the value, whichever way the carry goes *)
  assert (W : x * 2 ^ e == x1 * 2 ^ (e + n)).
  { rewrite Hx, Qpow2_add. unfold A. rewrite (pow2_Q n Hn). ring. }
  assert (G : inject_Z M - x1 <= u53 * x1 /\ x1 - inject_Z M <= u53 * x1).
  { unfold u53. change (inject_Z 4503599627370496) with (4503599627370496 # 1) in B3.
    split; lra. }
  assert (K : forall k : Z, x == inject_Z k * A -> M = k).
  { intros k E. apply M4. unfold x1. rewrite E. field. lra. }
  destruct M as [|q|q] eqn:EM; [lia| |lia].
  set (B := 2 ^ (e + n)) in *.
  assert (HB : 0 < B) by apply Qpow2_pos.
  destruct (scale_bounds (inject_Z (Z.pos q)) x1 B u53 HB (proj1 G) (proj2 G)) as [G1 G2].
  assert (Ex : forall k : Z, x == inject_Z k * A -> inject_Z (Z.pos q) * B == x * 2 ^ e).
  { intros k E. rewrite W. rewrite (K k E). unfold x1. rewrite E. field. lra. }
  destruct (Z.eq_dec (Z.pos q) 9007199254740992%Z) as [Top|Low].
  - (* the carry: 2^53 is renormalised to 2^52 *)
    assert (S2 : shr_fexp 53 1024 (Z.pos q) (e + n) loc_Exact
                 = ({| shr_m := 4503599627370496; shr_r := false; shr_s := false |},
                    (e + n + 1)%Z)).
    { rewrite Top. unfold shr_fexp.
      change (Zdigits2 9007199254740992) with 54%Z.
      rewrite (fexp_normal (54 + (e + n))) by (subst n; lia).
      replace (54 + (e + n) - 53 - (e + n))%Z with 1%Z by lia. reflexivity. }
    rewrite S2. simpl fst. simpl snd. simpl shr_m.
    assert (Le : (e + n + 1 <=? 1024 - 53)%Z = true) by (apply Z.leb_le; subst n; lia).
    rewrite Le.
    exists 4503599627370496%positive, (e + n + 1)%Z.
    assert (V : inject_Z 4503599627370496 * 2 ^ (e + n + 1) == inject_Z (Z.pos q) * B).
    { rewrite Top, Qpow2_add. fold B. change (2 ^ 1) with 2.
      change (inject_Z 9007199254740992) with (2 * inject_Z 4503599627370496). ring. }
    split; [reflexivity|]. split; [lia|]. split; [subst n; lia|].
    rewrite V, W. fold B. split; [exact G1|]. split; [exact G2|].
    intros k E. rewrite V. exact (Ex k E).
  - assert (S2 : shr_fexp 53 1024 (Z.pos q) (e + n) loc_Exact
                 = ({| shr_m := Z.pos q; shr_r := false; shr_s := false |}, (e + n)%Z)).
    { unfold shr_fexp. simpl Zdigits2.
      rewrite (digits_unique q 53) by (rewrite C53; change (2 ^ (53 - 1))%Z with 4503599627370496%Z; lia).
      rewrite (fexp_normal (53 + (e + n))) by (subst n; lia).
      replace (53 + (e + n) - 53 - (e + n))%Z with 0%Z by lia. reflexivity. }
    rewrite S2. simpl fst. simpl snd. simpl shr_m.
    assert (Le : (e + n <=? 1024 - 53)%Z = true) by (apply Z.leb_le; subst n; lia).
    rewrite Le.
    exists q, (e + n)%Z.
    split; [reflexivity|]. split; [lia|]. split; [subst n; lia|].
    rewrite W. fold B. split; [exact G1|]. split; [exact G2|].
    intros k E. exact (Ex k E).
Qed.


(** *** Normalisation *)

(** [binary_round] on any positive mantissa: a mantissa of fewer than 53
    bits is shifted left, which loses nothing, and a longer one is rounded. *)
Lemma round_spec (p : positive) (e : Z) :
  let d := Z.pos (digits2_pos p) in
  (-1074 <= d + e - 53 <= 970)%Z ->
  exists (m' : positive) (e' : Z),
    binary_round 53 1024 false p e = S754_finite false m' e'
    /\ (2 ^ 52 <= Z.pos m' < 2 ^ 53)%Z
    /\ (d + e - 53 <= e' <= d + e - 52)%Z
    /\ inject_Z (Z.pos m') * 2 ^ e' - inject_Z (Z.pos p) * 2 ^ e
        <= u53 * (inject_Z (Z.pos p) * 2 ^ e)
    /\ inject_Z (Z.pos p) * 2 ^ e - inject_Z (Z.pos m') * 2 ^ e'
        <= u53 * (inject_Z (Z.pos p) * 2 ^ e)
    /\ ((d <= 53)%Z \/ (exists k : Z, Z.pos p = k * 2 ^ (d - 53))%Z ->
        inject_Z (Z.pos m') * 2 ^ e' == inject_Z (Z.pos p) * 2 ^ e).
Proof.
  intros d R. pose proof (digits2_pos_spec p) as [D1 D2]. fold d in D1, D2.
  assert (Dp : (0 < d)%Z) by (subst d; lia).
  unfold binary_round. fold d. rewrite (fexp_normal (d + e)) by lia.
  unfold shl_align. replace (d + e - 53 - e)%Z with (d - 53)%Z by lia.
  destruct (d - 53)%Z as [|k|k] eqn:Ek.
  - (* exactly 53 bits *)
    destruct (round_aux_spec (Z.pos p) e loc_Exact (inject_Z (Z.pos p)))
      as (m' & e' & E & N & X & U1 & U2 & Ex).
    + replace 52%Z with (d - 1)%Z by lia. exact D1.
    + simpl. reflexivity.
    + simpl Zdigits2. fold d. lia.
    + simpl Zdigits2 in X, Ex. fold d in X, Ex.
      exists m', e'. split; [exact E|]. split; [exact N|]. split; [exact X|].
      split; [exact U1|]. split; [exact U2|]. intros _.
      apply (Ex (Z.pos p)). rewrite Ek. change (inject_Z (2 ^ 0)) with 1. ring.
  - (* more than 53 bits: rounded *)
    destruct (round_aux_spec (Z.pos p) e loc_Exact (inject_Z (Z.pos p)))
      as (m' & e' & E & N & X & U1 & U2 & Ex).
    + apply Z.le_trans with (2 ^ (d - 1))%Z; [|exact D1].
      apply Z.pow_le_mono_r; lia.
    + simpl. reflexivity.
    + simpl Zdigits2. fold d. lia.
    + simpl Zdigits2 in X, Ex. fold d in X, Ex.
      exists m', e'. split; [exact E|]. split; [exact N|]. split; [exact X|].
      split; [exact U1|]. split; [exact U2|]. intros [Le|[c Hc]]; [lia|].
      apply (Ex c). rewrite Hc, Ek, inject_Z_mult. reflexivity.
  - (* fewer than 53 bits: shifted left, exact *)
    set (mz := Pos.iter xO p k).
    assert (Mz : Z.pos mz = (Z.pos p * 2 ^ Z.pos k)%Z) by apply iter_xO.
    assert (Pk : (2 ^ (d - 1) * 2 ^ Z.pos k = 2 ^ 52)%Z).
    { rewrite <- Z.pow_add_r by lia. f_equal. lia. }
    assert (Qk : (2 ^ d * 2 ^ Z.pos k = 2 ^ 53)%Z).
    { rewrite <- Z.pow_add_r by lia. f_equal. lia. }
    assert (K0 : (0 < 2 ^ Z.pos k)%Z) by (apply Z.pow_pos_nonneg; lia).
    assert (Nz : (2 ^ 52 <= Z.pos mz < 2 ^ 53)%Z).
    { rewrite Mz, <- Pk, <- Qk. split.
      - apply Z.mul_le_mono_nonneg_r; lia.
      - apply Z.mul_lt_mono_pos_r; lia. }
    assert (Dz : Z.pos (digits2_pos mz) = 53%Z) by (apply digits_unique; exact Nz).
    destruct (round_aux_spec (Z.pos mz) (d + e - 53) loc_Exact (inject_Z (Z.pos mz)))
      as (m' & e' & E & N & X & U1 & U2 & Ex).
    + lia.
    + simpl. reflexivity.
    + simpl Zdigits2. rewrite Dz. lia.
    + simpl Zdigits2 in X, Ex. rewrite Dz in X, Ex.
      assert (V : inject_Z (Z.pos mz) * 2 ^ (d + e - 53) == inject_Z (Z.pos p) * 2 ^ e).
      { rewrite Mz, inject_Z_mult, (pow2_Q (Z.pos k)) by lia.
        replace (d + e - 53)%Z with (e + - Z.pos k)%Z by lia.
        rewrite Qpow2_add, Qpower_opp.
        pose proof (Qpow2_pos (Z.pos k)). field. lra. }
      rewrite V in U1, U2.
      exists m', e'. split; [exact E|]. split; [exact N|]. split; [lia|].
      split; [exact U1|]. split; [exact U2|]. intros _.
      rewrite <- V. apply (Ex (Z.pos mz)). change (inject_Z (2 ^ (53 - 53))) with 1. ring.
Qed.


(** *** Addition *)

Lemma shl_align_fst (m : positive) (ex ez : Z) :
  (ez <= ex)%Z -> Z.pos (fst (shl_align m ex ez)) = (Z.pos m * 2 ^ (ex - ez))%Z.
Proof.
  intros L. unfold shl_align. destruct (ez - ex)%Z as [|k|k] eqn:E; simpl fst.
  - replace (ex - ez)%Z with 0%Z by lia. simpl. lia.
  - lia.
  - rewrite iter_xO. f_equal. f_equal. lia.
Qed.

Lemma digits_between (p : positive) (a b : Z) :
  (0 <= a)%Z -> (2 ^ a <= Z.pos p < 2 ^ b)%Z ->
  (a < Z.pos (digits2_pos p) <= b)%Z.
Proof.
  intros A [L U]. pose proof (digits2_pos_spec p) as [D1 D2].
  set (d := Z.pos (digits2_pos p)) in *.
  assert (Dp : (0 < d)%Z) by (subst d; lia).
  assert (Bp : (0 < b)%Z).
  { destruct (Z.lt_ge_cases 0%Z b) as [G|G]; [exact G|].
    destruct (Z.eq_dec b 0%Z) as [->|N]; [simpl in U; lia|].
    rewrite (Z.pow_neg_r 2%Z b) in U by lia. lia. }
  split.
  - apply (Z.pow_lt_mono_r_iff 2%Z); [lia|lia|lia].
  - assert (d - 1 < b)%Z; [|lia]. apply (Z.pow_lt_mono_r_iff 2%Z); [lia|lia|lia].
Qed.

(** A mantissa that stands for a whole number up to 2^53 loses nothing
    when it is rounded to 53 bits. *)
Lemma exact_shift (s K a d : Z) :
  s = (K * 2 ^ a)%Z -> (0 <= a)%Z -> (0 < K <= 2 ^ 53)%Z ->
  (2 ^ (d - 1) <= s < 2 ^ d)%Z -> (53 <= d)%Z ->
  exists k : Z, s = (k * 2 ^ (d - 53))%Z.
Proof.
  intros -> A [K0 K1] [D1 D2] D.
  assert (P : (0 < 2 ^ a)%Z) by (apply Z.pow_pos_nonneg; lia).
  destruct (Z.eq_dec K (2 ^ 53)%Z) as [->|N].
  - rewrite <- Z.pow_add_r in D1, D2 by lia.
    assert (d - 1 <= 53 + a)%Z by (apply (Z.pow_le_mono_r_iff 2%Z); lia).
    assert (53 + a < d)%Z by (apply (Z.pow_lt_mono_r_iff 2%Z); lia).
    exists (2 ^ 52)%Z. rewrite <- !Z.pow_add_r by lia. f_equal. lia.
  - assert (U : (K * 2 ^ a < 2 ^ (53 + a))%Z).
    { rewrite Z.pow_add_r by lia. apply Z.mul_lt_mono_pos_r; lia. }
    assert (d - 1 < 53 + a)%Z by (apply (Z.pow_lt_mono_r_iff 2%Z); lia).
    exists (K * 2 ^ (a - (d - 53)))%Z.
    rewrite <- Z.mul_assoc, <- Z.pow_add_r by lia. f_equal. f_equal. lia.
Qed.

(** The sum of two positive normal doubles is their exact sum rounded,
    and their exact sum when that is a whole number up to 2^53. *)
Lemma add_spec (mx my : positive) (ex ey : Z) :
  (2 ^ 52 <= Z.pos mx < 2 ^ 53)%Z -> (2 ^ 52 <= Z.pos my < 2 ^ 53)%Z ->
  (-1074 <= ex <= 968)%Z -> (-1074 <= ey <= 968)%Z ->
  let v := inject_Z (Z.pos mx) * 2 ^ ex + inject_Z (Z.pos my) * 2 ^ ey in
  exists (m : positive) (e : Z),
    SFadd 53 1024 (S754_finite false mx ex) (S754_finite false my ey)
      = S754_finite false m e
    /\ (2 ^ 52 <= Z.pos m < 2 ^ 53)%Z
    /\ (Z.max ex ey <= e <= Z.max ex ey + 2)%Z
    /\ inject_Z (Z.pos m) * 2 ^ e - v <= u53 * v
    /\ v - inject_Z (Z.pos m) * 2 ^ e <= u53 * v
    /\ (forall K : Z, v == inject_Z K -> (K <= 2 ^ 53)%Z ->
        inject_Z (Z.pos m) * 2 ^ e == v).
Proof.
  intros Nx Ny Rx Ry v.
  set (ez := Z.min ex ey). set (eM := Z.max ex ey).
  assert (Zx : (ez <= ex)%Z) by (subst ez; lia).
  assert (Zy : (ez <= ey)%Z) by (subst ez; lia).
  pose proof (shl_align_fst mx ex ez Zx) as Ax.
  pose proof (shl_align_fst my ey ez Zy) as Ay.
  set (a := fst (shl_align mx ex ez)) in *. set (b := fst (shl_align my ey ez)) in *.
  assert (E : SFadd 53 1024 (S754_finite false mx ex) (S754_finite false my ey)
              = binary_round 53 1024 false (a + b) ez) by reflexivity.
  rewrite E. clear E.
  set (hx := (ex - ez)%Z) in *. set (hy := (ey - ez)%Z) in *.
  set (hM := (eM - ez)%Z).
  assert (Px : (0 < 2 ^ hx)%Z) by (apply Z.pow_pos_nonneg; subst hx; lia).
  assert (Py : (0 < 2 ^ hy)%Z) by (apply Z.pow_pos_nonneg; subst hy; lia).
  assert (HM : (0 <= hM)%Z) by (subst hM eM ez; lia).
  assert (Mx : (2 ^ hx <= 2 ^ hM)%Z) by (apply Z.pow_le_mono_r; subst hx hM eM; lia).
  assert (My : (2 ^ hy <= 2 ^ hM)%Z) by (apply Z.pow_le_mono_r; subst hy hM eM; lia).
  assert (Mo : (2 ^ hx = 2 ^ hM \/ 2 ^ hy = 2 ^ hM)%Z).
  { destruct (Z.le_ge_cases ex ey); [right|left]; f_equal; subst hx hy hM eM; lia. }
  assert (C52 : (2 ^ 52 = 4503599627370496)%Z) by reflexivity.
  assert (C53 : (2 ^ 53 = 9007199254740992)%Z) by reflexivity.
  assert (S : (Z.pos (a + b) = Z.pos mx * 2 ^ hx + Z.pos my * 2 ^ hy)%Z).
  { rewrite Pos2Z.inj_add, Ax, Ay. reflexivity. }
  assert (Lo : (2 ^ (52 + hM) <= Z.pos (a + b))%Z).
  { rewrite S, Z.pow_add_r, C52 by lia. rewrite C52 in Nx, Ny. nia. }
  assert (Hi : (Z.pos (a + b) < 2 ^ (54 + hM))%Z).
  { rewrite S, Z.pow_add_r by lia. change (2 ^ 54)%Z with 18014398509481984%Z.
    rewrite C53 in Nx, Ny. nia. }
  pose proof (digits_between (a + b) (52 + hM) (54 + hM) ltac:(lia) (conj Lo Hi)) as Ds.
  destruct (round_spec (a + b) ez) as (m & e & E & N & X & U1 & U2 & Ex).
  { cbv zeta. subst hM eM ez. lia. }
  cbv zeta in X, Ex.
  assert (V : inject_Z (Z.pos (a + b)) * 2 ^ ez == v).
  { assert (Bx : 2 ^ ex == inject_Z (2 ^ hx) * 2 ^ ez).
    { rewrite (pow2_Q hx), <- Qpow2_add by (subst hx; lia).
      replace (hx + ez)%Z with ex by (subst hx; lia). reflexivity. }
    assert (By : 2 ^ ey == inject_Z (2 ^ hy) * 2 ^ ez).
    { rewrite (pow2_Q hy), <- Qpow2_add by (subst hy; lia).
      replace (hy + ez)%Z with ey by (subst hy; lia). reflexivity. }
    unfold v. rewrite S, inject_Z_plus, !inject_Z_mult, Bx, By. ring. }
  rewrite V in U1, U2.
  exists m, e. split; [exact E|]. split; [exact N|].
  split; [subst hM eM ez; lia|]. split; [exact U1|]. split; [exact U2|].
  intros K EK LK. rewrite <- V. apply Ex.
  destruct (Z.le_gt_cases (Z.pos (digits2_pos (a + b))) 53%Z) as [Le|Gt]; [now left|right].
  (* the exponent of the sum is not positive, as the sum is at most 2^53 *)
  assert (VK : inject_Z (Z.pos (a + b)) * 2 ^ ez == inject_Z K) by (rewrite V; exact EK).
  assert (Neg : (ez <= 0)%Z).
  { destruct (Z.le_gt_cases ez 0%Z) as [L|G]; [exact L|exfalso].
    rewrite <- (pow2_Q ez), <- inject_Z_mult in VK by lia.
    apply (proj1 (inject_Z_injective _ _)) in VK.
    assert (2 ^ 1 <= 2 ^ ez)%Z by (apply Z.pow_le_mono_r; lia).
    assert (2 ^ 52 <= Z.pos (a + b))%Z.
    { apply Z.le_trans with (2 ^ (52 + hM))%Z; [apply Z.pow_le_mono_r; lia|exact Lo]. }
    change (2 ^ 1)%Z with 2%Z in *. rewrite C52, C53 in *. nia. }
  assert (SK : Z.pos (a + b) = (K * 2 ^ (- ez))%Z).
  { apply (proj1 (inject_Z_injective _ _)).
    rewrite inject_Z_mult, (pow2_Q (- ez)) by lia. rewrite <- VK, Qpower_opp.
    pose proof (Qpow2_pos ez). field. lra. }
  apply (exact_shift _ K (- ez)%Z); [exact SK|lia| |apply digits2_pos_spec|lia].
  split; [|exact LK].
  assert (0 < 2 ^ (- ez))%Z by (apply Z.pow_pos_nonneg; lia). nia.
Qed.


(** *** Division *)

(** The remainder of the division tells where the quotient lies. *)
Lemma new_location_locates (q r b : Z) :
  (0 <= r < b)%Z ->
  locates (shr_record_of_loc q (new_location b r)) (inject_Z q + inject_Z r / inject_Z b).
Proof.
  intros [R0 Rb].
  assert (B : 0 < inject_Z b).
  { change 0 with (inject_Z 0). rewrite <- Zlt_Qlt. lia. }
  set (rho := inject_Z r / inject_Z b).
  assert (Hr : inject_Z r == rho * inject_Z b) by (unfold rho; field; lra).
  assert (Lt : (2 * r < b)%Z -> rho < 1 # 2).
  { intros H. unfold rho. apply Qlt_shift_div_r; [exact B|].
    rewrite Zlt_Qlt, inject_Z_mult in H. change (inject_Z 2) with 2 in H. lra. }
  assert (Gt : (b < 2 * r)%Z -> 1 # 2 < rho).
  { intros H. unfold rho. apply Qlt_shift_div_l; [exact B|].
    rewrite Zlt_Qlt, inject_Z_mult in H. change (inject_Z 2) with 2 in H. lra. }
  assert (Eq : (2 * r = b)%Z -> rho == 1 # 2).
  { intros H. unfold rho. rewrite <- H, inject_Z_mult. change (inject_Z 2) with 2.
    field. intros Z. rewrite <- H, inject_Z_mult in B. change (inject_Z 2) with 2 in B. lra. }
  assert (Pos : (0 < r)%Z -> 0 < rho).
  { intros H. unfold rho. apply Qlt_shift_div_l; [exact B|].
    rewrite Zlt_Qlt in H. change (inject_Z 0) with 0 in H. lra. }
  assert (One : rho < 1).
  { unfold rho. apply Qlt_shift_div_r; [exact B|]. rewrite Zlt_Qlt in Rb. lra. }
  assert (Od : Z.even b = false -> exists k : Z, b = (2 * k + 1)%Z).
  { intros Ev. apply Z.odd_spec. rewrite <- Z.negb_even, Ev. reflexivity. }
  unfold new_location, new_location_even, new_location_odd.
  destruct (Z.even b); cbv beta; destruct (Z.eqb_spec r 0) as [Ez|Nz].
  - subst r. unfold locates. simpl. unfold rho. change (inject_Z 0) with 0. field. lra.
  - assert (Rp : (0 < r)%Z) by lia. specialize (Pos Rp).
    destruct (Z.compare_spec (2 * r) b) as [C|C|C]; unfold locates; simpl.
    + specialize (Eq C). rewrite Eq. reflexivity.
    + specialize (Lt C). lra.
    + specialize (Gt C). lra.
  - subst r. unfold locates. simpl. unfold rho. change (inject_Z 0) with 0. field. lra.
  - assert (Rp : (0 < r)%Z) by lia. specialize (Pos Rp).
    destruct (Od eq_refl) as [k Hk].
    destruct (Z.compare_spec (2 * r + 1) b) as [C|C|C]; unfold locates; simpl.
    + assert (T : (2 * r < b)%Z) by lia. specialize (Lt T). lra.
    + assert (T : (2 * r < b)%Z) by lia. specialize (Lt T). lra.
    + assert (T : (b < 2 * r)%Z) by lia. specialize (Gt T). lra.
Qed.

(** The quotient of two positive normal doubles is their exact quotient
    rounded. *)
Lemma div_spec (mx my : positive) (ex ey : Z) :
  (2 ^ 52 <= Z.pos mx < 2 ^ 53)%Z -> (2 ^ 52 <= Z.pos my < 2 ^ 53)%Z ->
  (-1000 <= ex - ey <= 900)%Z ->
  let v := (inject_Z (Z.pos mx) * 2 ^ ex) / (inject_Z (Z.pos my) * 2 ^ ey) in
  exists (m : positive) (e : Z),
    SFdiv 53 1024 (S754_finite false mx ex) (S754_finite false my ey)
      = S754_finite false m e
    /\ (2 ^ 52 <= Z.pos m < 2 ^ 53)%Z
    /\ (ex - ey - 53 <= e <= ex - ey - 51)%Z
    /\ inject_Z (Z.pos m) * 2 ^ e - v <= u53 * v
    /\ v - inject_Z (Z.pos m) * 2 ^ e <= u53 * v.
Proof.
  intros Nx Ny R v.
  assert (C52 : (2 ^ 52 = 4503599627370496)%Z) by reflexivity.
  assert (C53 : (2 ^ 53 = 9007199254740992)%Z) by reflexivity.
  assert (Dx : Z.pos (digits2_pos mx) = 53%Z) by (apply digits_unique; exact Nx).
  assert (Dy : Z.pos (digits2_pos my) = 53%Z) by (apply digits_unique; exact Ny).
  set (e' := (ex - ey - 53)%Z).
  pose proof (Z_div_mod (Z.pos mx * 2 ^ 53) (Z.pos my) ltac:(lia)) as DM.
  destruct (Z.div_eucl (Z.pos mx * 2 ^ 53) (Z.pos my)) as [q r] eqn:Eq.
  destruct DM as [Hq Hr].
  assert (Core : SFdiv_core_binary 53 1024 (Z.pos mx) ex (Z.pos my) ey
                 = (q, e', new_location (Z.pos my) r)).
  { unfold SFdiv_core_binary. simpl Zdigits2. rewrite Dx, Dy.
    replace (53 + ex - (53 + ey))%Z with (ex - ey)%Z by lia.
    rewrite (fexp_normal (ex - ey)) by lia.
    replace (Z.min (ex - ey - 53) (ex - ey)) with e' by (subst e'; lia).
    replace (ex - ey - e')%Z with 53%Z by (subst e'; lia).
    rewrite Z.shiftl_mul_pow2 by lia. rewrite Eq. reflexivity. }
  assert (E : SFdiv 53 1024 (S754_finite false mx ex) (S754_finite false my ey)
              = binary_round_aux 53 1024 false q e' (new_location (Z.pos my) r)).
  { unfold SFdiv. rewrite Core. reflexivity. }
  rewrite E. clear E Core.
  (* the quotient has 53 or 54 bits *)
  assert (Q1 : (2 ^ 52 <= q)%Z).
  { rewrite C52, C53 in *. nia. }
  assert (Q2 : (q < 2 ^ 54)%Z).
  { change (2 ^ 54)%Z with 18014398509481984%Z. rewrite C52, C53 in *. nia. }
  destruct q as [|pq|pq]; [rewrite C52 in Q1; lia| |lia].
  pose proof (digits_between pq 52 54 ltac:(lia) (conj Q1 Q2)) as Dq.
  set (x := inject_Z (Z.pos pq) + inject_Z r / inject_Z (Z.pos my)).
  destruct (round_aux_spec (Z.pos pq) e' (new_location (Z.pos my) r) x)
    as (m & e & E & N & X & U1 & U2 & _).
  { exact Q1. }
  { apply new_location_locates. exact Hr. }
  { simpl Zdigits2. subst e'. lia. }
  simpl Zdigits2 in X.
  assert (V : x * 2 ^ e' == v).
  { assert (Yp : 0 < inject_Z (Z.pos my)).
    { change 0 with (inject_Z 0). rewrite <- Zlt_Qlt. lia. }
    assert (Xq : x == inject_Z (Z.pos mx) * inject_Z (2 ^ 53) / inject_Z (Z.pos my)).
    { unfold x. rewrite <- inject_Z_mult, Hq, inject_Z_plus, inject_Z_mult. field. lra. }
    unfold v. rewrite Xq, (pow2_Q 53) by lia.
    assert (P : 2 ^ ex == 2 ^ 53 * 2 ^ e' * 2 ^ ey).
    { rewrite <- !Qpow2_add. replace (53 + e' + ey)%Z with ex by (subst e'; lia).
      reflexivity. }
    rewrite P. pose proof (Qpow2_pos ey). field. split; lra. }
  rewrite V in U1, U2.
  exists m, e. split; [exact E|]. split; [exact N|]. split; [subst e'; lia|].
  split; [exact U1|exact U2].
Qed.


(** *** Doubles and the rationals they stand for *)


Lemma rep_ext (lo hi : Z) (f : number) (v w : Q) : v == w -> rep lo hi f v -> rep lo hi f w.
Proof.
  intros E [[F Z]|(m & e & F & N & R & V)].
  - left. split; [exact F|]. now rewrite <- E.
  - right. exists m, e. split; [exact F|]. split; [exact N|]. split; [exact R|].
    now rewrite <- E.
Qed.

Lemma rep_weaken (lo hi lo' hi' : Z) (f : number) (v : Q) :
  (lo' <= lo)%Z -> (hi <= hi')%Z -> rep lo hi f v -> rep lo' hi' f v.
Proof.
  intros A B [[F Z]|(m & e & F & N & R & V)].
  - left. now split.
  - right. exists m, e. split; [exact F|]. split; [exact N|]. split; [lia|exact V].
Qed.

Lemma finite_pos (m : positive) (e : Z) : 0 < inject_Z (Z.pos m) * 2 ^ e.
Proof.
  apply Qmult_lt_0_compat; [|apply Qpow2_pos].
  change 0 with (inject_Z 0). rewrite <- Zlt_Qlt. lia.
Qed.

Lemma rep_stands (lo hi : Z) (f : number) (v : Q) : rep lo hi f v -> stands_for f v.
Proof.
  intros [[F Z]|(m & e & F & N & R & V)]; subst f.
  - exists 0. split; [reflexivity|now symmetry].
  - exists (inject_Z (Z.pos m) * 2 ^ e). split; [reflexivity|now symmetry].
Qed.

Lemma rep_nonneg (lo hi : Z) (f : number) (v : Q) : rep lo hi f v -> 0 <= v.
Proof.
  intros [[F Z]|(m & e & F & N & R & V)].
  - rewrite Z. lra.
  - rewrite V. pose proof (finite_pos m e). lra.
Qed.

(** A whole number from 0 to 2^53 is a double. *)
Lemma rep_ofZ (z : Z) :
  (0 <= z <= 2 ^ 53)%Z -> rep (-52) 2 (number_of_Z z) (inject_Z z).
Proof.
  intros [Z0 Z1]. destruct z as [|p|p]; [left; now split| |lia].
  right. unfold number_of_Z, prec, emax. simpl binary_normalize.
  assert (C53 : (2 ^ 53 = 9007199254740992)%Z) by reflexivity.
  pose proof (digits2_pos_spec p) as [D1 D2].
  assert (Dp : (0 < Z.pos (digits2_pos p) <= 54)%Z).
  { apply (digits_between p 0 54); [lia|].
    change (2 ^ 0)%Z with 1%Z. change (2 ^ 54)%Z with 18014398509481984%Z. lia. }
  destruct (round_spec p 0) as (m & e & E & N & X & _ & _ & Ex); [cbv zeta; lia|].
  cbv zeta in X, Ex.
  exists m, e. split; [exact E|]. split; [exact N|]. split; [lia|].
  rewrite Ex; [change (2 ^ 0) with 1; ring|].
  destruct (Z.le_gt_cases (Z.pos (digits2_pos p)) 53%Z) as [L|G]; [now left|right].
  assert (D : Z.pos (digits2_pos p) = 54%Z) by lia. rewrite D in *.
  change (2 ^ (54 - 1))%Z with 9007199254740992%Z in D1.
  exists 4503599627370496%Z. change (2 ^ (54 - 53))%Z with 2%Z. lia.
Qed.

(** [+] on doubles that are +0 or positive and normal. *)
Lemma rep_add (lo hi : Z) (a b : number) (va vb : Q) :
  rep lo hi a va -> rep lo hi b vb -> (-1074 <= lo)%Z -> (hi <= 968)%Z ->
  exists v : Q,
    rep lo (hi + 2) (SFadd 53 1024 a b) v
    /\ v - (va + vb) <= u53 * (va + vb)
    /\ (va + vb) - v <= u53 * (va + vb)
    /\ (va == 0 -> v == vb)
    /\ (vb == 0 -> v == va)
    /\ (forall K : Z, va + vb == inject_Z K -> (K <= 2 ^ 53)%Z -> v == va + vb).
Proof.
  intros Ra Rb Lo Hi.
  pose proof (rep_nonneg _ _ _ _ Ra) as Pa. pose proof (rep_nonneg _ _ _ _ Rb) as Pb.
  assert (U : 0 <= u53 * (va + vb)).
  { apply Qmult_le_0_compat; [unfold u53|]; lra. }
  destruct Ra as [[Fa Za]|(ma & ea & Fa & Na & Ea & Va)];
    destruct Rb as [[Fb Zb]|(mb & eb & Fb & Nb & Eb & Vb)]; subst a b.
  - exists 0. split; [left; now split|].
    unfold u53 in *. split; [lra|]. split; [lra|]. split; [intros; lra|].
    split; [intros; lra|]. intros; lra.
  - exists vb. split.
    { right. exists mb, eb. split; [reflexivity|]. split; [exact Nb|]. split; [lia|exact Vb]. }
    unfold u53 in *. split; [lra|]. split; [lra|]. split; [intros; lra|].
    split; [intros; lra|]. intros; lra.
  - exists va. split.
    { right. exists ma, ea. split; [reflexivity|]. split; [exact Na|]. split; [lia|exact Va]. }
    unfold u53 in *. split; [lra|]. split; [lra|]. split; [intros; lra|].
    split; [intros; lra|]. intros; lra.
  - destruct (add_spec ma mb ea eb Na Nb ltac:(lia) ltac:(lia))
      as (m & e & E & N & X & U1 & U2 & Ex).
    cbv zeta in U1, U2, Ex.
    exists (inject_Z (Z.pos m) * 2 ^ e). split.
    { right. exists m, e. split; [exact E|]. split; [exact N|]. split; [lia|reflexivity]. }
    rewrite Va, Vb. split; [exact U1|]. split; [exact U2|].
    pose proof (finite_pos ma ea). pose proof (finite_pos mb eb).
    split; [intros Z; rewrite <- Va in *; lra|].
    split; [intros Z; rewrite <- Vb in *; lra|].
    intros K EK LK. rewrite Va, Vb in EK |- *. exact (Ex K EK LK).
Qed.


(** [/] on such doubles, by one that is not zero. *)
Lemma rep_div (lo hi lo' hi' : Z) (a b : number) (va vb : Q) :
  rep lo hi a va -> rep lo' hi' b vb -> 0 < vb ->
  (-1000 <= lo - hi')%Z -> (hi - lo' <= 900)%Z ->
  exists v : Q,
    rep (lo - hi' - 53) (hi - lo' - 51) (SFdiv 53 1024 a b) v
    /\ v - va / vb <= u53 * (va / vb)
    /\ va / vb - v <= u53 * (va / vb).
Proof.
  intros Ra Rb Pb Lo Hi.
  destruct Rb as [[Fb Zb]|(mb & eb & Fb & Nb & Eb & Vb)]; [lra|]. subst b.
  destruct Ra as [[Fa Za]|(ma & ea & Fa & Na & Ea & Va)]; subst a.
  - exists 0. split; [left; now split|].
    assert (Z : va / vb == 0) by (rewrite Za; field; lra).
    rewrite Z. unfold u53. lra.
  - destruct (div_spec ma mb ea eb Na Nb ltac:(lia)) as (m & e & E & N & X & U1 & U2).
    cbv zeta in U1, U2.
    exists (inject_Z (Z.pos m) * 2 ^ e). split.
    { right. exists m, e. split; [exact E|]. split; [exact N|]. split; [lia|reflexivity]. }
    rewrite Va, Vb. split; [exact U1|exact U2].
Qed.

(** [Math.max(1, t)] is [t] from 1 on. *)
Lemma max_one (lo hi : Z) (t : number) (v : Q) :
  rep lo hi t v -> 1 <= v -> SFmax (number_of_Z 1) t = t.
Proof.
  intros [[F Z]|(m & e & F & N & R & V)] L; [lra|]. subst t.
  assert (One : number_of_Z 1 = S754_finite false 4503599627370496 (-52)) by (vm_compute; reflexivity).
  rewrite One.
  unfold SFmax, SFcompare.
  assert (C53 : (2 ^ 53 = 9007199254740992)%Z) by reflexivity.
  assert (C52 : (2 ^ 52 = 4503599627370496)%Z) by reflexivity.
  destruct (Z.compare_spec (-52) e) as [Eq|Lt|Gt].
  - subst e. rewrite Pos.compare_cont_spec. simpl Pos.switch_Eq.
    destruct (Pos.compare_spec 4503599627370496 m) as [Em|Lm|Gm].
    + subst m. reflexivity.
    + reflexivity.
    + exfalso. rewrite C52, C53 in N. apply Pos.lt_nle in Gm. lia.
  - reflexivity.
  - exfalso.
    assert (P : 2 ^ e <= 2 ^ (-53)) by (apply Qpower_le_compat_l; [lia|lra]).
    assert (M : inject_Z (Z.pos m) < inject_Z 9007199254740992).
    { rewrite <- Zlt_Qlt. rewrite C52, C53 in N. lia. }
    assert (T : inject_Z (Z.pos m) * 2 ^ e < 1).
    { apply Qlt_le_trans with (inject_Z 9007199254740992 * 2 ^ e).
      - apply Qmult_lt_compat_r; [apply Qpow2_pos|exact M].
      - setoid_replace 1 with (inject_Z 9007199254740992 * 2 ^ (-53))
          using relation Qeq by reflexivity.
        apply Qmult_le_l; [reflexivity|exact P]. }
    lra.
Qed.

(** Three whole counts with a sum between 1 and 2^53: the sum is exact,
    and the three quotients by it add up, in doubles, to within 2^-51 of
    1. *)
Lemma fractions_core (e p f : Z) :
  (0 <= e)%Z -> (0 <= p)%Z -> (0 <= f)%Z -> (1 <= e + p + f <= 2 ^ 53)%Z ->
  let E := number_of_Z e in
  let P := number_of_Z p in
  let F := number_of_Z f in
  let t := SFmax (number_of_Z 1) (SFadd 53 1024 (SFadd 53 1024 E P) F) in
  let s := SFadd 53 1024
             (SFadd 53 1024 (SFadd 53 1024 (number_of_Z 0) (SFdiv 53 1024 E t))
                (SFdiv 53 1024 P t))
             (SFdiv 53 1024 F t) in
  let T := inject_Z (e + p + f) in
  rep (-52) 6 t T
  /\ exists q1 q2 q3 vs : Q,
       rep (-111) 3 (SFdiv 53 1024 E t) q1
       /\ rep (-111) 3 (SFdiv 53 1024 P t) q2
       /\ rep (-111) 3 (SFdiv 53 1024 F t) q3
       /\ - (u53 * (inject_Z e / T)) <= q1 - inject_Z e / T <= u53 * (inject_Z e / T)
       /\ - (u53 * (inject_Z p / T)) <= q2 - inject_Z p / T <= u53 * (inject_Z p / T)
       /\ - (u53 * (inject_Z f / T)) <= q3 - inject_Z f / T <= u53 * (inject_Z f / T)
       /\ rep (-111) 9 s vs
       /\ - (1 # 2251799813685248) <= vs - 1 <= 1 # 2251799813685248.
Proof.
  intros He Hp Hf [S1 S2] E P F t s T.
  assert (C53 : (2 ^ 53 = 9007199254740992)%Z) by reflexivity.
  rewrite C53 in S2.
  assert (RE : rep (-52) 2 E (inject_Z e)) by (apply rep_ofZ; rewrite C53; clear - He Hp Hf S1 S2; lia).
  assert (RP : rep (-52) 2 P (inject_Z p)) by (apply rep_ofZ; rewrite C53; clear - He Hp Hf S1 S2; lia).
  assert (RF : rep (-52) 2 F (inject_Z f)) by (apply rep_ofZ; rewrite C53; clear - He Hp Hf S1 S2; lia).
  (* the sum of the counts is exact *)
  destruct (rep_add (-52) 2 E P _ _ RE RP ltac:(lia) ltac:(lia))
    as (v1 & R1 & _ & _ & _ & _ & X1).
  assert (V1 : v1 == inject_Z (e + p)).
  { rewrite inject_Z_plus. apply (X1 (e + p)%Z); [now rewrite inject_Z_plus|rewrite C53; lia]. }
  destruct (rep_add (-52) 4 _ F _ _ R1 (rep_weaken (-52) 2 (-52) 4 _ _ ltac:(lia) ltac:(lia) RF)
              ltac:(lia) ltac:(lia))
    as (v2 & R2 & _ & _ & _ & _ & X2).
  assert (V2 : v2 == inject_Z (e + p + f)).
  { rewrite (X2 (e + p + f)%Z); [rewrite V1, <- inject_Z_plus; reflexivity| |rewrite C53; lia].
    rewrite V1, <- inject_Z_plus. reflexivity. }
  simpl Z.add in R2.
  assert (T1 : 1 <= v2).
  { rewrite V2. change 1 with (inject_Z 1). rewrite <- Zle_Qle. lia. }
  assert (Et : t = SFadd 53 1024 (SFadd 53 1024 E P) F) by (apply (max_one _ _ _ _ R2 T1)).
  assert (Rt : rep (-52) 6 t v2) by (rewrite Et; exact R2).
  clearbody t. clear Et.
  split; [apply (rep_ext _ _ _ _ _ V2 Rt)|].
  (* the three fractions *)
  assert (Pt : 0 < v2) by lra.
  destruct (rep_div (-52) 2 (-52) 6 E t _ _ RE Rt Pt ltac:(lia) ltac:(lia))
    as (q1 & Q1 & A1 & B1).
  destruct (rep_div (-52) 2 (-52) 6 P t _ _ RP Rt Pt ltac:(lia) ltac:(lia))
    as (q2 & Q2 & A2 & B2).
  destruct (rep_div (-52) 2 (-52) 6 F t _ _ RF Rt Pt ltac:(lia) ltac:(lia))
    as (q3 & Q3 & A3 & B3).
  simpl Z.sub in Q1, Q2, Q3.
  (* the running sum *)
  assert (R0 : rep (-111) 3 (number_of_Z 0) 0) by (left; split; reflexivity).
  destruct (rep_add (-111) 3 _ _ _ _ R0 Q1 ltac:(lia) ltac:(lia))
    as (a1 & Ra1 & _ & _ & Z1 & _ & _).
  specialize (Z1 ltac:(reflexivity)).
  destruct (rep_add (-111) 5 _ _ _ _ Ra1
              (rep_weaken (-111) 3 (-111) 5 _ _ ltac:(lia) ltac:(lia) Q2) ltac:(lia) ltac:(lia))
    as (a2 & Ra2 & A4 & B4 & _ & _ & _).
  destruct (rep_add (-111) 7 _ _ _ _ Ra2
              (rep_weaken (-111) 3 (-111) 7 _ _ ltac:(lia) ltac:(lia) Q3) ltac:(lia) ltac:(lia))
    as (a3 & Ra3 & A5 & B5 & _ & _ & _).
  simpl Z.add in Ra1, Ra2, Ra3.
  exists q1, q2, q3, a3.
  split; [exact Q1|]. split; [exact Q2|]. split; [exact Q3|].
  assert (D1 : inject_Z e / T == inject_Z e / v2) by (unfold T; now rewrite V2).
  assert (D2 : inject_Z p / T == inject_Z p / v2) by (unfold T; now rewrite V2).
  assert (D3 : inject_Z f / T == inject_Z f / v2) by (unfold T; now rewrite V2).
  rewrite D1, D2, D3. clear D1 D2 D3.
  (* the error analysis: linear, as the unit roundoff is a constant *)
  set (r1 := inject_Z e / v2) in *. set (r2 := inject_Z p / v2) in *.
  set (r3 := inject_Z f / v2) in *.
  assert (Sum : r1 + r2 + r3 == 1).
  { unfold r1, r2, r3. rewrite V2, !inject_Z_plus.
    rewrite V2, !inject_Z_plus in Pt. field. lra. }
  assert (N1 : 0 <= r1).
  { unfold r1. apply Qle_shift_div_l; [exact Pt|].
    rewrite Qmult_0_l. change 0 with (inject_Z 0). rewrite <- Zle_Qle. exact He. }
  assert (N2 : 0 <= r2).
  { unfold r2. apply Qle_shift_div_l; [exact Pt|].
    rewrite Qmult_0_l. change 0 with (inject_Z 0). rewrite <- Zle_Qle. exact Hp. }
  assert (N3 : 0 <= r3).
  { unfold r3. apply Qle_shift_div_l; [exact Pt|].
    rewrite Qmult_0_l. change 0 with (inject_Z 0). rewrite <- Zle_Qle. exact Hf. }
  clearbody r1 r2 r3. unfold u53 in *.
  clear - Sum N1 N2 N3 A1 B1 A2 B2 A3 B3 Z1 A4 B4 A5 B5 Ra3.
  split; [lra|]. split; [lra|]. split; [lra|]. split; [exact Ra3|]. split; lra.
Qed.


End FloatFacts.
(** ** The chat terminal *)

Module ChatFacts.
Import Js Chat JsFacts.

Section Component.
Context `{Host} (apiUrl : string).

Abbreviation send := (Chat.send apiUrl).
Abbreviation resume := (Chat.resume apiUrl).
Abbreviation step := (Chat.step apiUrl).
Abbreviation run := (Chat.run apiUrl).
Abbreviation origin := (Chat.origin apiUrl).
Abbreviation post := (Chat.post apiUrl).

(** Evaluates a [??] chain, one nullish test at a time. *)
Ltac eval_chain :=
  unfold coalesce;
  repeat (cbn [mbind completion_bind];
          match goal with
          | E : nullish ?v = _ |- context [nullish ?v] => rewrite E
          | |- context [if nullish ?v then _ else _] => destruct (nullish v) eqn:?
          end);
  cbn [mbind completion_bind].

(** *** Reply extraction *)

Lemma get_not_nullish (v : JsValue) (k : string) :
  nullish v = false -> get v k = Normal (get_opt v k).
Proof. unfold get, get_opt. now intros ->. Qed.

Lemma get_nullish (v : JsValue) (k : string) :
  nullish v = true -> exists e, get v k = Throw e.
Proof. unfold get. intros ->. eauto. Qed.

Lemma get_opt_nullish (v : JsValue) (k : string) :
  nullish v = true -> get_opt v k = JUndefined.
Proof. unfold get_opt. now intros ->. Qed.

Lemma parse_body_throw (raw : string) (e : Thrown) :
  parse_body raw = Throw e -> raw <> "".
Proof.
  unfold parse_body. intros P ->. discriminate.
Qed.

Lemma parse_body_empty : parse_body "" = Normal (JObj []).
Proof. reflexivity. Qed.

(** On a body that parses to [json], [probe] is the precedence chain. *)
Lemma probe_parsed (raw : string) (json : JsValue) :
  parse_body raw = Normal json ->
  nullish json = false ->
  probe raw =
    Normal (first_present
              [get_opt json "reply"; get_opt json "content"; get_opt json "message";
               nested_content json] (JStr raw)).
Proof.
  intros P N. unfold probe. rewrite P. simpl.
  unfold first_choice, nested_content, first_present.
  rewrite !(get_not_nullish json) by exact N.
  eval_chain; reflexivity.
Qed.

Lemma probe_null (raw : string) (json : JsValue) :
  parse_body raw = Normal json ->
  nullish json = true ->
  exists e, probe raw = Throw e.
Proof.
  intros P N. unfold probe. rewrite P. simpl.
  destruct (get_nullish json "reply" N) as [e E].
  exists e. unfold coalesce. rewrite E. reflexivity.
Qed.

Lemma resolve_reply_spec (raw : string) : resolve_reply raw = spec_reply raw.
Proof.
  unfold resolve_reply, spec_reply.
  destruct (parse_body raw) as [json|e] eqn:P.
  - destruct (nullish json) eqn:N.
    + destruct (probe_null raw json P N) as [e ->].
      assert (R : raw <> "").
      { intros ->. rewrite parse_body_empty in P.
        injection P as <-. discriminate. }
      rewrite (str_or_nonempty _ _ R).
      rewrite !(get_opt_nullish json) by exact N.
      unfold nested_content. rewrite (get_opt_nullish json) by exact N.
      reflexivity.
    + now rewrite (probe_parsed raw json P N).
  - unfold probe. rewrite P. simpl.
    pose proof (parse_body_throw raw e P) as R.
    rewrite (str_or_nonempty _ _ R).
    destruct (String.eqb_spec raw ""); [contradiction|reflexivity].
Qed.

Lemma resolve_reply_parsed (raw : string) (json : JsValue) :
  parse_body raw = Normal json ->
  resolve_reply raw =
    first_present
      [get_opt json "reply"; get_opt json "content"; get_opt json "message";
       nested_content json] (JStr raw).
Proof.
  intros P. rewrite resolve_reply_spec. unfold spec_reply. now rewrite P.
Qed.

(** C1. Reply extraction follows a fixed precedence over the parsed
    body. For every response text, the resolved reply is the reply field
    if it is present (holds a value that is neither null nor undefined),
    else the content field, else the message field, else the nested
    first-choice message content field, else the raw text. In particular
    a body with a reply "a" and a content "b" resolves to "a", one with a
    content "b" and a message "c" to "b", one with only the nested
    content "d" to "d"; a body that does not parse resolves to its raw
    text, which is then not empty; and on an empty text the reply is the
    empty raw text, in whose place the assistant message gets the
    placeholder "(no content)". *)
Theorem reply_precedence (raw : string) :
  resolve_reply raw = spec_reply raw
  /\ (forall a b,
        parse_body raw = Normal (JObj [("reply", JStr a); ("content", JStr b)]) ->
        resolve_reply raw = JStr a)
  /\ (forall b c,
        parse_body raw = Normal (JObj [("content", JStr b); ("message", JStr c)]) ->
        resolve_reply raw = JStr b)
  /\ (forall d,
        parse_body raw =
          Normal (JObj [("choices",
                         JArr [JObj [("message", JObj [("content", JStr d)])]])]) ->
        resolve_reply raw = JStr d)
  /\ (forall e, parse_body raw = Throw e -> resolve_reply raw = JStr raw /\ raw <> "")
  /\ (raw = "" ->
      resolve_reply raw = JStr raw
      /\ or_else (resolve_reply raw) (JStr "(no content)") = JStr "(no content)").
Proof.
  split; [apply resolve_reply_spec|].
  split; [intros a b P; now rewrite (resolve_reply_parsed raw _ P)|].
  split; [intros b c P; now rewrite (resolve_reply_parsed raw _ P)|].
  split; [intros d P; now rewrite (resolve_reply_parsed raw _ P)|].
  split.
  - intros e P. pose proof (parse_body_throw raw e P) as R. split; [|exact R].
    rewrite resolve_reply_spec. unfold spec_reply. rewrite P.
    destruct (String.eqb_spec raw ""); [contradiction|reflexivity].
  - intros ->. split; reflexivity.
Qed.

(** *** One submission *)

Lemma send_rejected (now : Q) (t : Terminal) :
  busy (state t) = true \/ whitespace_only (input (state t)) = true ->
  send now t = t.
Proof.
  intros [B|W]; unfold Chat.send.
  - rewrite B. now rewrite orb_true_r.
  - apply trim_empty in W. rewrite W. reflexivity.
Qed.

Lemma send_accepted (now : Q) (t : Terminal) :
  busy (state t) = false ->
  trim (input (state t)) <> "" ->
  send now t =
    {| state := {| messages := messages (state t) ++
                     [{| role := user; content := JStr (trim (input (state t))) |}];
                   input := "";
                   busy := true;
                   err := None |};
       awaiting := awaiting t ++ [now];
       network := network t ++ [post (messages (state t)) (trim (input (state t)))] |}.
Proof.
  intros B T. unfold Chat.send. rewrite B.
  apply string_truthy_true in T. rewrite T. reflexivity.
Qed.

Lemma resume_responded (now : Q) (fetched : completion Response) (r : Response)
    (raw : string) (t : Terminal) (t0 : Q) (rest : list Q) :
  responds fetched r raw ->
  awaiting t = t0 :: rest ->
  resume now fetched t =
    {| state := {| messages := messages (state t) ++
                     [{| role := assistant;
                         content := or_else (resolve_reply raw) (JStr "(no content)") |};
                      {| role := system;
                         content := JStr ("✓ responded in "
                                          ++ Z_to_string (Z.max 0 (Math_round (now - t0)))
                                          ++ "ms from " ++ origin) |}];
                   input := input (state t);
                   busy := false;
                   err := err (state t) |};
       awaiting := rest;
       network := network t |}.
Proof.
  intros R A. unfold Chat.resume. rewrite A, (responds_text _ _ _ R).
  unfold setBusy, setMessages. simpl. now rewrite <- app_assoc.
Qed.

Lemma resume_failed (now : Q) (fetched : completion Response) (e : Thrown)
    (t : Terminal) (t0 : Q) (rest : list Q) :
  fails fetched e ->
  awaiting t = t0 :: rest ->
  resume now fetched t =
    {| state := {| messages := messages (state t) ++
                     [{| role := system; content := JStr "× request failed" |}];
                   input := input (state t);
                   busy := false;
                   err := Some (str_or (default "" (message e)) "Network error") |};
       awaiting := rest;
       network := network t |}.
Proof.
  intros F A. unfold Chat.resume. rewrite A, (fails_text _ _ F). reflexivity.
Qed.

Lemma run_snoc (evs : list (Q * Event)) (ev : Q * Event) (t : Terminal) :
  run (evs ++ [ev]) t = step (run evs t) ev.
Proof. unfold Chat.run. now rewrite fold_left_app. Qed.


(** *** Coherence of [busy] with the suspended calls *)

Lemma coherent_initial : coherent initial.
Proof. left. now split. Qed.

Lemma coherent_send (now : Q) (t : Terminal) : coherent t -> coherent (send now t).
Proof.
  intros C.
  destruct (busy (state t)) eqn:B.
  - now rewrite send_rejected by (now left).
  - destruct (whitespace_only (input (state t))) eqn:W.
    + now rewrite send_rejected by (now right).
    + assert (T : trim (input (state t)) <> "").
      { intros E. apply trim_empty in E. congruence. }
      rewrite (send_accepted now t B T).
      destruct C as [[_ A]|[B' _]]; [|congruence].
      right. simpl. split; [reflexivity|]. rewrite A. now exists now.
Qed.

Lemma coherent_resume (now : Q) (fetched : completion Response) (t : Terminal) :
  coherent t -> coherent (resume now fetched t).
Proof.
  intros C. destruct C as [[B A]|[B [t0 A]]].
  - unfold Chat.resume. rewrite A. left. now split.
  - destruct (responds_or_fails fetched) as [[r [raw R]]|[e F]].
    + rewrite (resume_responded now fetched r raw t t0 [] R A). left. now split.
    + rewrite (resume_failed now fetched e t t0 [] F A). left. now split.
Qed.

Lemma coherent_step (t : Terminal) (ev : Q * Event) : coherent t -> coherent (step t ev).
Proof.
  intros C. destruct ev as [now [value|key shiftKey| |fetched]]; simpl.
  - exact C.
  - unfold onKeyDown. destruct ((key =? "Enter") && negb shiftKey).
    + now apply coherent_send.
    + exact C.
  - now apply coherent_send.
  - now apply coherent_resume.
Qed.

Lemma coherent_run (evs : list (Q * Event)) (t : Terminal) :
  coherent t -> coherent (run evs t).
Proof.
  revert t. induction evs as [|ev evs IH]; intros t C; [exact C|].
  simpl. apply IH. now apply coherent_step.
Qed.

(** While a request is out, an event that settles nothing changes the
    input box at most. *)
Lemma quiet_step_busy (t : Terminal) (ev : Q * Event) :
  busy (state t) = true ->
  quiet ev = true ->
  messages (state (step t ev)) = messages (state t)
  /\ busy (state (step t ev)) = true
  /\ err (state (step t ev)) = err (state t)
  /\ awaiting (step t ev) = awaiting t
  /\ network (step t ev) = network t.
Proof.
  intros B Q. destruct ev as [now [value|key shiftKey| |fetched]]; simpl.
  - now repeat split.
  - unfold onKeyDown. destruct ((key =? "Enter") && negb shiftKey).
    + rewrite send_rejected by (now left). now repeat split.
    + now repeat split.
  - rewrite send_rejected by (now left). now repeat split.
  - discriminate.
Qed.

Lemma quiet_run_busy (evs : list (Q * Event)) (t : Terminal) :
  busy (state t) = true ->
  forallb quiet evs = true ->
  messages (state (run evs t)) = messages (state t)
  /\ busy (state (run evs t)) = true
  /\ err (state (run evs t)) = err (state t)
  /\ awaiting (run evs t) = awaiting t
  /\ network (run evs t) = network t.
Proof.
  revert t. induction evs as [|ev evs IH]; intros t B Q; [now repeat split|].
  simpl in Q. apply andb_true_iff in Q as [Qe Qs].
  destruct (quiet_step_busy t ev B Qe) as (M & B' & E & A & N).
  destruct (IH (step t ev) B' Qs) as (M' & B'' & E' & A' & N').
  simpl. repeat split; congruence.
Qed.

(** From an accepted submission to the settling of its request. *)
Lemma submission_settled (t : Terminal) (now now' : Q) (mid : list (Q * Event))
    (fetched : completion Response) :
  coherent t ->
  busy (state t) = false ->
  trim (input (state t)) <> "" ->
  forallb quiet mid = true ->
  exists t1,
    run (mid ++ [(now', Settled fetched)]) (send now t) = resume now' fetched t1
    /\ messages (state t1) = messages (state t) ++
         [{| role := user; content := JStr (trim (input (state t))) |}]
    /\ awaiting t1 = [now]
    /\ err (state t1) = None
    /\ network t1 = network t ++ [post (messages (state t)) (trim (input (state t)))].
Proof.
  intros C B T Q.
  exists (run mid (send now t)). rewrite run_snoc. split; [reflexivity|].
  assert (A : awaiting t = []) by (destruct C as [[_ A]|[B' _]]; congruence).
  assert (B1 : busy (state (send now t)) = true)
    by now rewrite (send_accepted now t B T).
  destruct (quiet_run_busy mid (send now t) B1 Q) as (M & _ & E & A' & N).
  rewrite M, A', E, N, (send_accepted now t B T). simpl. rewrite A.
  now repeat split.
Qed.

(** C2. For every non-empty trimmed input submitted while the busy flag
    is false, exactly one user message is appended, and when the request
    then completes with a response, exactly one assistant message and
    exactly one system status message follow, in that order, whatever
    else happens in between. Submitting while busy, or submitting empty
    or white-space-only input, changes nothing: no message is appended
    and no request is issued. *)
Theorem submit_appends (evs : list (Q * Event)) (now : Q) :
  let t := run evs initial in
  let text := trim (input (state t)) in
  (busy (state t) = false -> text <> "" ->
     messages (state (send now t)) =
       messages (state t) ++ [{| role := user; content := JStr text |}]
     /\ forall mid now' fetched r raw,
          forallb quiet mid = true ->
          responds fetched r raw ->
          messages (state (run (mid ++ [(now', Settled fetched)]) (send now t))) =
            messages (state t) ++
              [{| role := user; content := JStr text |};
               {| role := assistant;
                  content := or_else (resolve_reply raw) (JStr "(no content)") |};
               {| role := system;
                  content := JStr ("✓ responded in "
                                   ++ Z_to_string (Z.max 0 (Math_round (now' - now)))
                                   ++ "ms from " ++ origin) |}])
  /\ (busy (state t) = true \/ whitespace_only (input (state t)) = true ->
      send now t = t
      /\ messages (state (send now t)) = messages (state t)
      /\ network (send now t) = network t).
Proof.
  intros t text. split.
  - intros B T. split; [now rewrite (send_accepted now t B T)|].
    intros mid now' fetched r raw Q R.
    pose proof (coherent_run evs initial coherent_initial) as C.
    destruct (submission_settled t now now' mid fetched C B T Q)
      as (t1 & -> & M & A & _ & _).
    rewrite (resume_responded now' fetched r raw t1 now [] R A). simpl.
    rewrite M, <- app_assoc. reflexivity.
  - intros R. rewrite (send_rejected now t R). now repeat split.
Qed.

(** C6. For every chat submission, a transport failure (the fetch or the
    reading of its body throws) appends exactly one system failure
    message and no assistant message, and records a non-empty error
    string; and the busy flag is cleared at the end of the submission,
    whether the request failed or not. *)
Theorem transport_failure (evs : list (Q * Event)) (now : Q) :
  let t := run evs initial in
  let text := trim (input (state t)) in
  busy (state t) = false -> text <> "" ->
  forall mid now' fetched,
    forallb quiet mid = true ->
    let t' := run (mid ++ [(now', Settled fetched)]) (send now t) in
    busy (state t') = false
    /\ forall e, fails fetched e ->
         messages (state t') =
           messages (state t) ++
             [{| role := user; content := JStr text |};
              {| role := system; content := JStr "× request failed" |}]
         /\ exists s, err (state t') = Some s /\ s <> "".
Proof.
  intros t text B T mid now' fetched Q t'.
  pose proof (coherent_run evs initial coherent_initial) as C.
  destruct (submission_settled t now now' mid fetched C B T Q)
    as (t1 & E & M & A & _ & _).
  subst t'. rewrite E. split.
  - destruct (responds_or_fails fetched) as [[r [raw R]]|[e F]].
    + now rewrite (resume_responded now' fetched r raw t1 now [] R A).
    + now rewrite (resume_failed now' fetched e t1 now [] F A).
  - intros e F. rewrite (resume_failed now' fetched e t1 now [] F A). simpl.
    split.
    + rewrite M, <- app_assoc. reflexivity.
    + eexists. split; [reflexivity|]. now apply str_or_default.
Qed.




(** C10. The reply probe skips only what is absent, undefined or null. On
    a parsed body, a reply field that is null (or missing) resolves to
    the next field in precedence order; a reply field with any other
    value, be it a number, an object or the empty string, is selected as
    it is; and for the empty string the appended assistant message then
    carries the placeholder "(no content)" in its place. *)
Theorem reply_nullish_only (raw : string) (json : JsValue) :
  parse_body raw = Normal json ->
  (get_opt json "reply" = JNull \/ get_opt json "reply" = JUndefined ->
   resolve_reply raw =
     first_present [get_opt json "content"; get_opt json "message"; nested_content json]
       (JStr raw))
  /\ (forall v, get_opt json "reply" = v -> nullish v = false -> resolve_reply raw = v)
  /\ (get_opt json "reply" = JStr "" ->
      resolve_reply raw = JStr ""
      /\ forall now fetched r t t0 rest,
           responds fetched r raw ->
           awaiting t = t0 :: rest ->
           exists status,
             messages (state (resume now fetched t)) =
               messages (state t) ++
                 [{| role := assistant; content := JStr "(no content)" |};
                  {| role := system; content := status |}]).
Proof.
  intros P. rewrite (resolve_reply_parsed raw json P).
  split; [|split].
  - intros [E|E]; simpl; now rewrite E.
  - intros v E N. simpl. now rewrite E, N.
  - intros E. split; [simpl; now rewrite E|].
    intros now fetched r t t0 rest R A.
    rewrite (resume_responded now fetched r raw t t0 rest R A). simpl.
    rewrite (resolve_reply_parsed raw json P). simpl. rewrite E. simpl.
    eexists. reflexivity.
Qed.

End Component.

End ChatFacts.

(** ** The rollout pie *)

Module PieFacts.
Import Js Pie.

Section Render.
Context {num : Type} `{Arith num}.

Lemma current_inside (days : list (Day num)) (i : nat) (d : Day num) :
  days !! i = Some d -> current days i = Normal d.
Proof. unfold current. now intros ->. Qed.

Lemma current_outside (days : list (Day num)) (i : nat) :
  days !! i = None -> exists e, current days i = Throw e.
Proof. unfold current. intros ->. eauto. Qed.

Lemma render_inside (days : list (Day num)) (i : nat) (d : Day num) :
  days !! i = Some d -> exists v, render days i = Normal v.
Proof.
  intros L. unfold render, total, segs. rewrite (current_inside days i d L).
  simpl. eauto.
Qed.

Lemma render_outside (days : list (Day num)) (i : nat) :
  days !! i = None -> exists e, render days i = Throw e.
Proof.
  intros L. unfold render, total.
  destruct (current_outside days i L) as [e ->]. simpl. eauto.
Qed.

Lemma fractions_at (days : list (Day num)) (i : nat) (d : Day num) :
  days !! i = Some d ->
  (t ← total days i; segs days i t) = fractions d.
Proof.
  intros L. unfold fractions, total, segs.
  now rewrite (current_inside days i d L).
Qed.

End Render.

Section Playback.
Context {num : Type} `{Arith num} (days : list (Day num)).

Abbreviation fire := (Pie.fire days).
Abbreviation after := (Pie.after days).
Abbreviation run := (Pie.run days).

Lemma start_while_playing (w : Widget) : playing w = true -> start w = w.
Proof. unfold Pie.start. now intros ->. Qed.

Lemma start_idle (w : Widget) :
  idle w -> playing_at (clock w) 0 (start w).
Proof.
  intros (P & T & M). unfold Pie.start, playing_at. rewrite P.
  unfold schedule_tick, setI, setPlaying. simpl. rewrite M, T.
  split; [reflexivity|]. split; [reflexivity|]. split; [reflexivity|].
  split; [lia|].
  eexists. split; [reflexivity|]. simpl. do 2 f_equal.
Qed.

Lemma fire_next (T : Z) (k : nat) (w : Widget) :
  playing_at T k w -> S k < length days -> playing_at T (S k) (fire w).
Proof.
  intros (I & P & M & C & h & R & Ts) L.
  unfold Pie.fire. rewrite Ts. unfold tick. simpl.
  destruct (Nat.leb_spec (length days) (S k)) as [G|_]; [lia|].
  unfold playing_at, schedule_tick, setI. simpl. rewrite M, P, C.
  split; [reflexivity|]. split; [reflexivity|]. split; [reflexivity|].
  split; [lia|].
  eexists. split; [reflexivity|]. do 2 f_equal. lia.
Qed.

Lemma fire_last (T : Z) (k : nat) (w : Widget) :
  playing_at T k w -> length days <= S k ->
  stopped_at (T + 1200 * Z.of_nat (S k)) k (fire w).
Proof.
  intros (I & P & M & C & h & R & Ts) L.
  unfold Pie.fire. rewrite Ts. unfold tick. simpl.
  destruct (Nat.leb_spec (length days) (S k)) as [_|G]; [|lia].
  unfold stopped_at, set_tRef, setPlaying. simpl. rewrite M, C.
  split; [exact I|]. split; [reflexivity|]. split; [reflexivity|].
  split; [lia|]. now split.
Qed.

Lemma after_succ (k : nat) (w : Widget) : after (S k) w = fire (after k w).
Proof. reflexivity. Qed.

Lemma playing_steps (w : Widget) (k : nat) :
  idle w -> k < Nat.max 1 (length days) ->
  playing_at (clock w) k (after k (start w)).
Proof.
  intros I. induction k as [|k IH]; intros L.
  - now apply start_idle.
  - rewrite after_succ. apply fire_next; [apply IH|]; lia.
Qed.

(** *** Reachable states are steady *)

Lemma mounted_start (w : Widget) : mounted (start w) = mounted w.
Proof. unfold Pie.start. now destruct (playing w). Qed.

Lemma mounted_fire (w : Widget) : mounted (fire w) = mounted w.
Proof.
  unfold Pie.fire. destruct (timers w) as [|t rest]; [reflexivity|].
  unfold tick. now destruct (length days <=? S (step t))%nat.
Qed.

Lemma steady_initial : steady initial.
Proof. intros _. left. now split. Qed.

Lemma steady_start (w : Widget) : steady w -> mounted w = true -> steady (start w).
Proof.
  intros S M _. unfold Pie.start.
  destruct (S M) as [[P T]|[P X]]; rewrite P; [|now right].
  right. unfold schedule_tick, setI, setPlaying. simpl. rewrite M, T.
  split; [reflexivity|]. eexists. split; reflexivity.
Qed.

Lemma steady_fire (w : Widget) : steady w -> steady (fire w).
Proof.
  intros St M. rewrite mounted_fire in M.
  unfold Pie.fire.
  destruct (St M) as [[P T]|[P [t [T R]]]]; rewrite T; [now left|].
  unfold tick.
  destruct (length days <=? S (step t))%nat; simpl.
  - left. rewrite M. now split.
  - right. rewrite P. split; [reflexivity|]. eexists. split; reflexivity.
Qed.

Lemma steady_step (w : Widget) (e : Event) : steady w -> steady (step_event days w e).
Proof.
  intros S. destruct e; unfold step_event.
  - destruct (mounted w) eqn:M; [now apply steady_start|exact S].
  - now apply steady_fire.
  - intros M. unfold unmount in M. discriminate M.
Qed.

Lemma steady_run (evs : list Event) (w : Widget) : steady w -> steady (run evs w).
Proof.
  revert w. induction evs as [|e evs IH]; intros w S; [exact S|].
  simpl. apply IH. now apply steady_step.
Qed.

(** Playback from an idle widget. *)
Lemma playback_from_idle (w : Widget) :
  idle w ->
  let n := Nat.max 1 (length days) in
  (playing (start w) = true /\ i (start w) = 0 /\ start (start w) = start w)
  /\ (forall k, k < n -> playing_at (clock w) k (after k (start w)))
  /\ stopped_at (clock w + 1200 * Z.of_nat n) (n - 1) (after n (start w)).
Proof.
  intros I n. split; [|split].
  - destruct (start_idle w I) as (Hi & Hp & _).
    split; [exact Hp|]. split; [exact Hi|]. now apply start_while_playing.
  - intros k L. now apply playing_steps.
  - assert (E : n = S (n - 1)) by (subst n; lia).
    rewrite E at 3. rewrite after_succ. rewrite E at 1.
    apply fire_last; [apply playing_steps; [exact I|]|]; subst n; lia.
Qed.

(** C3. In every state a mounted widget can reach, starting playback
    does nothing when the playing flag is already set. Otherwise it sets
    the flag and resets the day index to zero (so that a second start in
    immediate succession does nothing); each step fires one fixed
    delay (1200 ms) after the previous one and advances the index by
    one; and when the step counter reaches the length of the snapshot
    array, playback stops by itself: the playing flag is false again,
    nothing remains scheduled, and the index rests on the last day. *)
Theorem playback (evs : list Event) :
  let w := run evs initial in
  mounted w = true ->
  (playing w = true -> start w = w)
  /\ (playing w = false ->
      let n := Nat.max 1 (length days) in
      (playing (start w) = true /\ i (start w) = 0 /\ start (start w) = start w)
      /\ (forall k, k < n -> playing_at (clock w) k (after k (start w)))
      /\ stopped_at (clock w + 1200 * Z.of_nat n) (n - 1) (after n (start w))).
Proof.
  intros w M. split; [apply start_while_playing|].
  intros P. apply playback_from_idle.
  destruct (steady_run evs initial steady_initial M) as [[_ T]|[P' _]].
  - now repeat split.
  - subst w. congruence.
Qed.

(** *** The index stays inside the array *)

Lemma start_index (w : Widget) :
  days <> [] -> i w < length days -> i (start w) < length days.
Proof.
  intros N L. unfold Pie.start. destruct (playing w); [exact L|].
  unfold schedule_tick, setI, setPlaying. simpl.
  destruct (mounted w); [|exact L].
  destruct days; [contradiction|simpl; lia].
Qed.

Lemma fire_index (w : Widget) : i w < length days -> i (fire w) < length days.
Proof.
  intros L. unfold Pie.fire. destruct (timers w) as [|t rest]; [exact L|].
  unfold tick.
  destruct (Nat.leb_spec (length days) (S (step t))) as [G|G]; simpl; [exact L|].
  destruct (mounted w); [exact G|exact L].
Qed.

Lemma unmount_index (w : Widget) : i (unmount w) = i w.
Proof.
  unfold unmount. destruct (tRef w) as [h|]; [|reflexivity].
  now destruct (h =? 0)%nat.
Qed.

Lemma step_index (w : Widget) (e : Event) :
  days <> [] -> i w < length days -> i (step_event days w e) < length days.
Proof.
  intros N L. destruct e; unfold step_event.
  - destruct (mounted w); [now apply start_index|exact L].
  - now apply fire_index.
  - now rewrite unmount_index.
Qed.

Lemma run_index (evs : list Event) (w : Widget) :
  days <> [] -> i w < length days -> i (run evs w) < length days.
Proof.
  intros N. revert w. induction evs as [|e evs IH]; intros w L; [exact L|].
  simpl. apply IH. now apply step_index.
Qed.

End Playback.

Section Bounds.
Context {num : Type} `{Arith num}.

(** C9. The component needs a non-empty array of days. Every render
    reads [days[i]] (for the total, for the fractions and for the centre
    labels), so on the empty array every render faults, whatever the
    index. For a non-empty array the index is always inside it: it
    starts at 0, and after any sequence of starts, timeouts and the
    unmount it is below the length of the array, so that the render
    succeeds. *)
Theorem index_in_range :
  (forall i : nat, exists e, render ([] : list (Day num)) i = Throw e)
  /\ (forall (d : Day num) (ds : list (Day num)) (evs : list Event),
        let days := d :: ds in
        let w := Pie.run days evs initial in
        i w < length days /\ exists v, render days (i w) = Normal v).
Proof.
  split.
  - intros i. now apply render_outside.
  - intros d ds evs days w.
    assert (L : i w < length days).
    { apply run_index; [discriminate|simpl; lia]. }
    split; [exact L|].
    destruct (lookup_lt_is_Some_2 days (i w) L) as [d' E].
    now apply (render_inside days (i w) d').
Qed.

End Bounds.

(** *** The fractions *)

(** C5. The fractions of a day, as the doubles of the code compute them.
    For every snapshot of whole counts (none negative, up to 2^53
    together, so that doubles hold them exactly) with encrypted + pending
    + failed > 0, the denominator max(1, sum) is the sum itself, each
    fraction is the double nearest to count / sum, within a relative
    error of 2^-53, and the three fractions, added up the way the render
    accumulates them, sum to 1 within the floating tolerance 2^-51; the
    render computes these fractions wherever the snapshot stands in the
    array of days. For
    the snapshot of three zeros the denominator is the floor 1 and the
    three fractions are 0. *)
Theorem pie_fractions (n e p f : Z) :
  ((0 <= e)%Z -> (0 <= p)%Z -> (0 <= f)%Z -> (0 < e + p + f <= 2 ^ 53)%Z ->
   exists (t : number) (ss : list (Seg number)) (q1 q2 q3 s : Q),
     total [counts n e p f] 0 = Normal t
     /\ stands_for t (inject_Z (e + p + f))
     /\ fractions (counts n e p f) = Normal ss
     /\ (forall (days : list (Day number)) (i : nat),
          days !! i = Some (counts n e p f) ->
          (t' ← total days i; segs days i t') = Normal ss)
     /\ map frac ss = [div (of_Z e) t; div (of_Z p) t; div (of_Z f) t]
     /\ stands_for (div (of_Z e) t) q1
     /\ stands_for (div (of_Z p) t) q2
     /\ stands_for (div (of_Z f) t) q3
     /\ (Qabs (q1 - inject_Z e / inject_Z (e + p + f))
         <= u53 * (inject_Z e / inject_Z (e + p + f)))%Q
     /\ (Qabs (q2 - inject_Z p / inject_Z (e + p + f))
         <= u53 * (inject_Z p / inject_Z (e + p + f)))%Q
     /\ (Qabs (q3 - inject_Z f / inject_Z (e + p + f))
         <= u53 * (inject_Z f / inject_Z (e + p + f)))%Q
     /\ stands_for (frac_sum ss) s
     /\ (Qabs (s - 1) <= 1 # 2251799813685248)%Q)
  /\ total [counts n 0 0 0 : Day number] 0 = Normal (number_of_Z 1)
  /\ (map frac <$> fractions (counts n 0 0 0 : Day number))
     = Normal [S754_zero false; S754_zero false; S754_zero false].
Proof.
  split; [|split; reflexivity].
  intros He Hp Hf S.
  destruct (FloatFacts.fractions_core e p f He Hp Hf ltac:(lia))
    as (Rt & q1 & q2 & q3 & vs & R1 & R2 & R3 & B1 & B2 & B3 & Rs & Bs).
  set (t := SFmax (number_of_Z 1)
              (SFadd 53 1024 (SFadd 53 1024 (number_of_Z e) (number_of_Z p))
                 (number_of_Z f))) in *.
  exists t,
    [ {| label := "Encrypted"; val := number_of_Z e;
         frac := SFdiv 53 1024 (number_of_Z e) t; color := C_ENC |};
      {| label := "Pending"; val := number_of_Z p;
         frac := SFdiv 53 1024 (number_of_Z p) t; color := C_PEN |};
      {| label := "Failed"; val := number_of_Z f;
         frac := SFdiv 53 1024 (number_of_Z f) t; color := C_FAIL |} ],
    q1, q2, q3, vs.
  split; [reflexivity|]. split; [exact (FloatFacts.rep_stands _ _ _ _ Rt)|].
  split; [reflexivity|].
  split; [intros days i L; now rewrite (fractions_at days i _ L)|].
  split; [reflexivity|].
  split; [exact (FloatFacts.rep_stands _ _ _ _ R1)|].
  split; [exact (FloatFacts.rep_stands _ _ _ _ R2)|].
  split; [exact (FloatFacts.rep_stands _ _ _ _ R3)|].
  split; [apply Qabs_Qle_condition; exact B1|].
  split; [apply Qabs_Qle_condition; exact B2|].
  split; [apply Qabs_Qle_condition; exact B3|].
  split; [exact (FloatFacts.rep_stands _ _ _ _ Rs)|].
  apply Qabs_Qle_condition. exact Bs.
Qed.

(** The fractions of the counts 1, 4 and 1. *)
Lemma pie_fractions_witness :
  (0 <= 1)%Z /\ (0 <= 4)%Z /\ (0 < 1 + 4 + 1 <= 2 ^ 53)%Z
  /\ exists (t : number) (ss : list (Seg number)) (q1 q2 q3 s : Q),
       total [counts 1 1 4 1] 0 = Normal t
       /\ stands_for t (inject_Z (1 + 4 + 1))
       /\ fractions (counts 1 1 4 1) = Normal ss
       /\ (forall (days : list (Day number)) (i : nat),
            days !! i = Some (counts 1 1 4 1) ->
            (t' ← total days i; segs days i t') = Normal ss)
       /\ map frac ss = [div (of_Z 1) t; div (of_Z 4) t; div (of_Z 1) t]
       /\ stands_for (div (of_Z 1) t) q1
       /\ stands_for (div (of_Z 4) t) q2
       /\ stands_for (div (of_Z 1) t) q3
       /\ (Qabs (q1 - inject_Z 1 / inject_Z (1 + 4 + 1))
           <= u53 * (inject_Z 1 / inject_Z (1 + 4 + 1)))%Q
       /\ (Qabs (q2 - inject_Z 4 / inject_Z (1 + 4 + 1))
           <= u53 * (inject_Z 4 / inject_Z (1 + 4 + 1)))%Q
       /\ (Qabs (q3 - inject_Z 1 / inject_Z (1 + 4 + 1))
           <= u53 * (inject_Z 1 / inject_Z (1 + 4 + 1)))%Q
       /\ stands_for (frac_sum ss) s
       /\ (Qabs (s - 1) <= 1 # 2251799813685248)%Q.
Proof.
  split; [lia|]. split; [lia|]. split; [split; [lia|discriminate]|].
  apply (proj1 (pie_fractions 1 1 4 1)); [lia|lia|lia|split; [lia|discriminate]].
Defined.

(** Why a tolerance: for the counts 1, 4 and 1 the three fractions add
    up to 0.9999999999999999, the double below 1, which is 2^-53 away
    from 1. *)
Example pie_fractions_rounding :
  exists ss,
    fractions (counts 1 1 4 1 : Day number) = Normal ss
    /\ frac_sum ss = S754_finite false 9007199254740991 (-53)
    /\ SFeqb (frac_sum ss) (number_of_Z 1) = false
    /\ exists q, Q_of_number (frac_sum ss) = Some q
                 /\ (1 - q == 1 # 9007199254740992)%Q.
Proof.
  exists (match fractions (counts 1 1 4 1 : Day number) with
          | Normal ss => ss
          | Throw _ => []
          end).
  split; [vm_compute; reflexivity|].
  split; [vm_compute; reflexivity|].
  split; [vm_compute; reflexivity|].
  exists (default 0%Q
            (Q_of_number
               (frac_sum (match fractions (counts 1 1 4 1 : Day number) with
                          | Normal ss => ss
                          | Throw _ => []
                          end)))).
  split; vm_compute; reflexivity.
Qed.

(** Why whole counts: the floor of the denominator is 1, so a snapshot
    whose numbers add up to one half has fractions that add up to one
    half. *)
Example pie_fractions_half :
  let half := S754_finite false 4503599627370496 (-53) in
  exists ss,
    fractions {| day := number_of_Z 1; encrypted := half;
                 pending := number_of_Z 0; failed := number_of_Z 0 |} = Normal ss
    /\ frac_sum ss = half.
Proof.
  exists (match fractions {| day := number_of_Z 1;
                            encrypted := S754_finite false 4503599627370496 (-53);
                            pending := number_of_Z 0; failed := number_of_Z 0 |} with
          | Normal ss => ss
          | Throw _ => []
          end).
  split; vm_compute; reflexivity.
Qed.

(** Four days play in four steps of 1200 ms. *)
Lemma playback_witness :
  mounted (Pie.run Sample.four_days [] initial) = true
  /\ playing_at 0 3 (after Sample.four_days 3 (start initial))
  /\ stopped_at 4800 3 (after Sample.four_days 4 (start initial)).
Proof.
  split; [reflexivity|].
  pose proof (proj2 (playback Sample.four_days [] eq_refl) eq_refl) as X.
  cbv zeta in X. destruct X as (_ & P & S).
  split; [apply (P 3%nat); simpl; lia|exact S].
Defined.

(** Pressing Start while the days play changes nothing; the fifth timeout
    finds nothing to do. *)
Example pie_session :
  let w := Pie.run Sample.four_days [Start; Fire; Start; Fire; Fire; Fire; Fire] initial in
  (i w, playing w, clock w, tRef w, timers w) = (3, false, 4800%Z, None, []).
Proof. reflexivity. Qed.

(** The cleanup of the effect cancels the pending step. *)
Example pie_unmounted :
  let w := Pie.run Sample.four_days [Start; Fire; Unmount; Fire; Start] initial in
  (i w, playing w, clock w, timers w, mounted w) = (1, true, 1200%Z, [], false).
Proof. reflexivity. Qed.

End PieFacts.

(** ** The diagnostics panel *)

Module PanelFacts.
Import Js Panel JsFacts.

Section Component.
Context `{Host} (root : string).

Abbreviation request := (Panel.request root).
Abbreviation play := (Panel.play root).

Lemma call_responded (fullUrl : string) (t0 t1 : Q) (at_ : string)
    (fetched : completion Response) (r : Response) (raw : string) :
  responds fetched r raw ->
  call fullUrl t0 t1 at_ fetched =
    {| url := fullUrl; ok := response_ok r; status := Js.status r;
       statusText := str_or (Js.statusText r) "";
       bodyPreview := snd (read_body raw); fullJson := fst (read_body raw);
       timeMs := Math_round (t1 - t0); at_ := at_ |}.
Proof.
  intros [-> T]. unfold call. simpl. rewrite T. simpl.
  now destruct (read_body raw).
Qed.

Lemma call_failed (fullUrl : string) (t0 t1 : Q) (at_ : string)
    (fetched : completion Response) (e : Thrown) :
  fails fetched e ->
  call fullUrl t0 t1 at_ fetched =
    {| url := fullUrl; ok := false; status := 0;
       statusText := default "Network error" (message e);
       bodyPreview := "(request failed)"; fullJson := JUndefined;
       timeMs := Math_round (t1 - t0); at_ := at_ |}.
Proof.
  intros [->|[r [-> T]]]; unfold call; simpl; [reflexivity|].
  now rewrite T.
Qed.

(** A request on a panel with none in flight, start to end. *)
Lemma request_alone (path : string) (t0 t1 : Q) (at_ : string)
    (fetched : completion Response) (w : Widget) :
  runs w = [] ->
  request path t0 fetched t1 at_ w =
    let res := call (root ++ path) t0 t1 at_ fetched in
    {| error :=
         if negb (ok res)
         then Some ("Request failed (" ++ Z_to_string (status res) ++ " "
                    ++ str_or (statusText res) "" ++ ")")%string
         else None;
       history := history w ++ [res];
       runs := [];
       network := network w ++ [(root ++ path)%string] |}.
Proof.
  intros R. unfold Panel.request, Panel.play. simpl.
  unfold run, swept, answered, returned, set_runs, setHistory, setError. simpl.
  rewrite R. simpl.
  now destruct (ok (call (root ++ path) t0 t1 at_ fetched)).
Qed.

Lemma answered_calling (k : nat) (fetched : completion Response) (now : Q) (at_ : string)
    (w : Widget) (fullUrl : string) (t0 : Q) :
  runs w !! k = Some (Calling fullUrl t0) ->
  history (answered k fetched now at_ w) =
    history w ++ [call fullUrl t0 now at_ fetched].
Proof. intros R. unfold answered. now rewrite R. Qed.

Lemma returned_backward (k : nat) (res : CallResult) (w : Widget) :
  runs w !! k = Some (Backward res) ->
  (ok res = true -> error (returned k w) = error w)
  /\ (ok res = false -> exists s, error (returned k w) = Some s /\ s <> "").
Proof.
  intros R. unfold returned. rewrite R. split; intros ->; simpl; [reflexivity|].
  eexists. split; [reflexivity|]. discriminate.
Qed.

(** C4. For every diagnostics request, a response that comes without an
    exception, whatever its status, yields a call-history entry whose ok
    field is the ok indicator of the response and whose status is its
    status; with status 200 the entry has ok true and status 200, and
    the request leaves the panel error as it was when it ends, which is
    unset for a request that ran alone. A fetch exception yields an
    entry with ok false and status 0, and the request then sets the
    panel error to a non-empty string. *)
Theorem diagnostics_call (path : string) (t0 t1 : Q) (at_ : string)
    (fetched : completion Response) (w : Widget) :
  let res := call (root ++ path) t0 t1 at_ fetched in
  (forall r raw, responds fetched r raw ->
     ok res = response_ok r
     /\ status res = Js.status r
     /\ (Js.status r = 200%Z -> ok res = true /\ status res = 200%Z))
  /\ (forall e, fails fetched e -> ok res = false /\ status res = 0%Z)
  /\ (forall k, runs w !! k = Some (Calling (root ++ path) t0) ->
        history (answered k fetched t1 at_ w) = history w ++ [res])
  /\ (forall k, runs w !! k = Some (Backward res) ->
        (ok res = true -> error (returned k w) = error w)
        /\ (ok res = false -> exists s, error (returned k w) = Some s /\ s <> ""))
  /\ (runs w = [] ->
      let w' := request path t0 fetched t1 at_ w in
      history w' = history w ++ [res]
      /\ (ok res = true -> error w' = None)
      /\ (ok res = false -> exists s, error w' = Some s /\ s <> "")).
Proof.
  intros res. split; [|split; [|split; [|split]]].
  - intros r raw R. subst res.
    rewrite (call_responded _ t0 t1 at_ fetched r raw R). simpl.
    split; [reflexivity|]. split; [reflexivity|].
    intros S. unfold response_ok. rewrite S. now split.
  - intros e F. subst res.
    rewrite (call_failed _ t0 t1 at_ fetched e F). now split.
  - intros k R. now apply answered_calling.
  - intros k R. now apply returned_backward.
  - intros E w'. subst w'. rewrite (request_alone path t0 t1 at_ fetched w E).
    fold res. simpl. split; [reflexivity|].
    split; intros ->; simpl; [reflexivity|].
    eexists. split; [reflexivity|]. discriminate.
Qed.

(** *** The history only grows *)

Lemma history_step (w : Widget) (e : Event) :
  exists added, history (step root w e) = history w ++ added.
Proof.
  destruct e as [path|k now|k fetched now at_|k]; simpl.
  - exists []. now rewrite app_nil_r.
  - exists []. rewrite app_nil_r. unfold swept.
    destruct (runs w !! k) as [[]|]; reflexivity.
  - unfold answered. destruct (runs w !! k) as [[]|]; simpl;
      try (exists []; now rewrite app_nil_r).
    eexists. reflexivity.
  - exists []. rewrite app_nil_r. unfold returned.
    destruct (runs w !! k) as [[| |res]|]; try reflexivity.
    now destruct (negb (ok res)).
Qed.

Lemma history_play (evs : list Event) (w : Widget) :
  history w `prefix_of` history (play evs w).
Proof.
  revert w. induction evs as [|e evs IH]; intros w; [reflexivity|].
  simpl. etransitivity; [|apply IH].
  destruct (history_step w e) as [added ->]. now apply prefix_app_r.
Qed.

End Component.

End PanelFacts.

(** ** The sequences of a session *)

Module SessionFacts.
Import Js JsFacts.

Section Transcript.
Context `{Host} (apiUrl : string).

Lemma messages_step (t : Chat.Terminal) (ev : Q * Chat.Event) :
  exists added,
    Chat.messages (Chat.state (Chat.step apiUrl t ev)) =
      Chat.messages (Chat.state t) ++ added.
Proof.
  assert (S : forall now, exists added,
    Chat.messages (Chat.state (Chat.send apiUrl now t)) =
      Chat.messages (Chat.state t) ++ added).
  { intros now. unfold Chat.send.
    destruct (negb (string_truthy (trim (Chat.input (Chat.state t))))
              || Chat.busy (Chat.state t)).
    - exists []. now rewrite app_nil_r.
    - eexists. reflexivity. }
  destruct ev as [now [value|key shiftKey| |fetched]]; simpl.
  - exists []. now rewrite app_nil_r.
  - unfold Chat.onKeyDown. destruct ((key =? "Enter") && negb shiftKey); [apply S|].
    exists []. now rewrite app_nil_r.
  - apply S.
  - unfold Chat.resume. destruct (Chat.awaiting t) as [|t0 rest].
    + exists []. now rewrite app_nil_r.
    + destruct (res ← fetched; text res); simpl.
      * rewrite <- app_assoc. eexists. reflexivity.
      * eexists. reflexivity.
Qed.

Lemma messages_run (evs : list (Q * Chat.Event)) (t : Chat.Terminal) :
  Chat.messages (Chat.state t)
    `prefix_of` Chat.messages (Chat.state (Chat.run apiUrl evs t)).
Proof.
  revert t. induction evs as [|e evs IH]; intros t; [reflexivity|].
  simpl. etransitivity; [|apply IH].
  destruct (messages_step t e) as [added ->]. now apply prefix_app_r.
Qed.

End Transcript.

(** C8. The chat transcript and the diagnostics call history are
    append-only within a session. Every event leaves the sequence as it
    was or appends to its end, so nothing is ever reordered, removed or
    deduplicated; and after any sequence of events the sequence of every
    earlier state is a prefix of the later one. *)
Theorem sequences_append_only `{Host} (apiUrl root : string) :
  (forall t ev, exists added,
     Chat.messages (Chat.state (Chat.step apiUrl t ev)) =
       Chat.messages (Chat.state t) ++ added)
  /\ (forall evs later t,
        Chat.messages (Chat.state (Chat.run apiUrl evs t))
          `prefix_of` Chat.messages (Chat.state (Chat.run apiUrl (evs ++ later) t)))
  /\ (forall w e, exists added,
        Panel.history (Panel.step root w e) = Panel.history w ++ added)
  /\ (forall evs later w,
        Panel.history (Panel.play root evs w)
          `prefix_of` Panel.history (Panel.play root (evs ++ later) w)).
Proof.
  split; [apply messages_step|]. split; [|split; [apply PanelFacts.history_step|]].
  - intros evs later t. unfold Chat.run. rewrite fold_left_app. apply messages_run.
  - intros evs later w. unfold Panel.play. rewrite fold_left_app.
    apply PanelFacts.history_play.
Qed.

End SessionFacts.

(** ** The properties at work on the reference host *)

Module Examples.
Import Js RefHost Sample.

(** *** Replies *)

Example reply_wins : Chat.resolve_reply (H := ref_host) reply_and_content = JStr "A".
Proof. vm_compute. reflexivity. Qed.

Example content_wins : Chat.resolve_reply (H := ref_host) content_and_message = JStr "B".
Proof. vm_compute. reflexivity. Qed.

Example first_choice_found : Chat.resolve_reply (H := ref_host) choices_only = JStr "D".
Proof. vm_compute. reflexivity. Qed.

Example plain_text_kept : Chat.resolve_reply (H := ref_host) "plain" = JStr "plain".
Proof. vm_compute. reflexivity. Qed.

Example null_body_kept : Chat.resolve_reply (H := ref_host) "null" = JStr "null".
Proof. vm_compute. reflexivity. Qed.

Example number_reply_kept :
  Chat.resolve_reply (H := ref_host) number_reply = JNum (number_of_Z 42).
Proof. vm_compute. reflexivity. Qed.

Example empty_body : Chat.resolve_reply (H := ref_host) "" = JStr "".
Proof. vm_compute. reflexivity. Qed.

(** The body with a reply and a content, read by the reference host. *)
Lemma reply_precedence_witness :
  Chat.parse_body (H := ref_host) reply_and_content
    = Normal (JObj [("reply", JStr "A"); ("content", JStr "B")])
  /\ Chat.resolve_reply (H := ref_host) reply_and_content = JStr "A".
Proof.
  assert (P : Chat.parse_body (H := ref_host) reply_and_content
              = Normal (JObj [("reply", JStr "A"); ("content", JStr "B")]))
    by (vm_compute; reflexivity).
  split; [exact P|].
  exact (proj1 (proj2 (ChatFacts.reply_precedence (H := ref_host) reply_and_content))
           "A" "B" P).
Defined.

(** A null reply gives way to the content. *)
Lemma reply_nullish_only_witness :
  Chat.parse_body (H := ref_host) null_reply
    = Normal (JObj [("reply", JNull); ("content", JStr "B")])
  /\ Chat.resolve_reply (H := ref_host) null_reply = JStr "B".
Proof.
  assert (P : Chat.parse_body (H := ref_host) null_reply
              = Normal (JObj [("reply", JNull); ("content", JStr "B")]))
    by (vm_compute; reflexivity).
  split; [exact P|].
  exact (proj1 (ChatFacts.reply_nullish_only (H := ref_host) chat_url null_reply _ P)
           (or_introl eq_refl)).
Defined.

(** *** A chat session *)

Example session_answered :
  Chat.messages (Chat.state
    (Chat.run (H := ref_host) chat_url
       [(5%Q, Chat.Click); (6%Q, Chat.Click); (6%Q, Chat.Change "more");
        (17.4%Q, Chat.Settled (ok_response reply_and_content))] typed))
  = [ {| Chat.role := Chat.user; Chat.content := JStr "hi" |};
      {| Chat.role := Chat.assistant; Chat.content := JStr "A" |};
      {| Chat.role := Chat.system;
         Chat.content := JStr "✓ responded in 12ms from https://api.example.com" |} ].
Proof. vm_compute. reflexivity. Qed.

Example session_empty_reply :
  Chat.messages (Chat.state
    (Chat.run (H := ref_host) chat_url
       [(5%Q, Chat.KeyDown "Enter" false);
        (9%Q, Chat.Settled (ok_response empty_reply))] typed))
  = [ {| Chat.role := Chat.user; Chat.content := JStr "hi" |};
      {| Chat.role := Chat.assistant; Chat.content := JStr "(no content)" |};
      {| Chat.role := Chat.system;
         Chat.content := JStr "✓ responded in 4ms from https://api.example.com" |} ].
Proof. vm_compute. reflexivity. Qed.

Example session_shift_enter :
  Chat.run (H := ref_host) chat_url [(5%Q, Chat.KeyDown "Enter" true)] typed = typed.
Proof. vm_compute. reflexivity. Qed.

(** Sending the typed text appends it, trimmed, as the user message. *)
Lemma submit_appends_witness :
  Chat.busy (Chat.state typed) = false
  /\ trim (Chat.input (Chat.state typed)) <> ""
  /\ Chat.messages (Chat.state (Chat.send (H := ref_host) chat_url 5 typed))
     = [ {| Chat.role := Chat.user; Chat.content := JStr "hi" |} ].
Proof.
  assert (B : Chat.busy (Chat.state typed) = false) by reflexivity.
  assert (T : trim (Chat.input (Chat.state typed)) <> "") by (vm_compute; discriminate).
  split; [exact B|]. split; [exact T|].
  exact (proj1 (proj1 (ChatFacts.submit_appends (H := ref_host) chat_url
                         [(0%Q, Chat.Change "  hi ")] 5) B T)).
Defined.

(** After an unreachable host the terminal is no longer busy. *)
Lemma transport_failure_witness :
  Chat.busy (Chat.state typed) = false
  /\ trim (Chat.input (Chat.state typed)) <> ""
  /\ Chat.busy (Chat.state
       (Chat.run (H := ref_host) chat_url ([] ++ [(9%Q, Chat.Settled unreachable)])
          (Chat.send (H := ref_host) chat_url 5 typed))) = false.
Proof.
  assert (B : Chat.busy (Chat.state typed) = false) by reflexivity.
  assert (T : trim (Chat.input (Chat.state typed)) <> "") by (vm_compute; discriminate).
  split; [exact B|]. split; [exact T|].
  exact (proj1 (ChatFacts.transport_failure (H := ref_host) chat_url
                  [(0%Q, Chat.Change "  hi ")] 5 B T [] 9%Q unreachable eq_refl)).
Defined.

Example session_failed :
  let t := Chat.run (H := ref_host) chat_url
             [(5%Q, Chat.Click); (9%Q, Chat.Settled unreachable)] typed in
  Chat.messages (Chat.state t)
  = [ {| Chat.role := Chat.user; Chat.content := JStr "hi" |};
      {| Chat.role := Chat.system; Chat.content := JStr "× request failed" |} ]
  /\ Chat.err (Chat.state t) = Some "Failed to fetch"
  /\ Chat.busy (Chat.state t) = false.
Proof. vm_compute. repeat split. Qed.


Example first_request_text :
  Chat.body (Chat.post (H := ref_host) chat_url [] "hi")
  = Some ("{" ++ quote "messages" ++ ":["
              ++ object_text [("role", "user"); ("content", "hi")] ++ "]}")%string.
Proof. vm_compute. reflexivity. Qed.

(** *** Diagnostics *)

(** A health check on a fresh panel adds its one entry to the history. *)
Lemma diagnostics_call_witness :
  Panel.runs Panel.initial = []
  /\ Panel.history
       (Panel.request (H := ref_host) lab_root "/api/health" 1 (ok_response "{}") 3
          "11/2/2026" Panel.initial)
     = [Panel.call (H := ref_host) (lab_root ++ "/api/health") 1 3 "11/2/2026"
          (ok_response "{}")].
Proof.
  split; [reflexivity|].
  exact (proj1 (proj2 (proj2 (proj2 (proj2
           (PanelFacts.diagnostics_call (H := ref_host) lab_root "/api/health"
              1 3 "11/2/2026" (ok_response "{}") Panel.initial)))) eq_refl)).
Defined.

Example health_ok :
  let w := Panel.request (H := ref_host) lab_root "/api/health" 1 (ok_response "{}") 3
             "11/2/2026" Panel.initial in
  map (fun c => (Panel.url c, Panel.ok c, Panel.status c, Panel.bodyPreview c))
      (Panel.history w)
  = [("https://lab.example.com/api/health", true, 200%Z, "{}")]
  /\ Panel.error w = None.
Proof. vm_compute. split; reflexivity. Qed.

Example health_unavailable :
  let w := Panel.request (H := ref_host) lab_root "/api/health" 1 unavailable 3
             "11/2/2026" Panel.initial in
  map (fun c => (Panel.ok c, Panel.status c, Panel.bodyPreview c)) (Panel.history w)
  = [(false, 503%Z, "upstream down")]
  /\ Panel.error w = Some "Request failed (503 Service Unavailable)".
Proof. vm_compute. split; reflexivity. Qed.

Example health_unreachable :
  let w := Panel.request (H := ref_host) lab_root "/api/health" 1 unreachable 3
             "11/2/2026" Panel.initial in
  map (fun c => (Panel.ok c, Panel.status c, Panel.statusText c, Panel.bodyPreview c))
      (Panel.history w)
  = [(false, 0%Z, "Failed to fetch", "(request failed)")]
  /\ Panel.error w = Some "Request failed (0 Failed to fetch)".
Proof. vm_compute. split; reflexivity. Qed.

End Examples.

(** * Further properties *)

(** ** Sanitized text *)

Module StringFacts.
Import Js JsFacts.

#[local] Open Scope string_scope.

Lemma single_spaced_tail (c : ascii) (r : string) :
  single_spaced (String c r) = true -> single_spaced r = true.
Proof. simpl. intros E. now apply andb_true_iff in E as [_ E]. Qed.

Lemma collapse_shape (b : bool) (s : string) :
  single_spaced (collapse_from b s) = true
  /\ (b = true -> starts_with_space (collapse_from b s) = false).
Proof.
  revert b. induction s as [|c r IH]; intros b; simpl; [now split|].
  destruct (is_space c) eqn:C.
  - destruct b.
    + apply IH.
    + destruct (IH true) as [S1 S2]. split; [|discriminate].
      simpl. rewrite S1, (S2 eq_refl). reflexivity.
  - destruct (IH false) as [S1 _]. simpl. rewrite C, S1. now split.
Qed.

Lemma trimStart_no_space (s : string) : starts_with_space (trimStart s) = false.
Proof.
  induction s as [|c r IH]; simpl; [reflexivity|].
  destruct (is_space c) eqn:C; [exact IH|]. simpl. exact C.
Qed.

Lemma trimStart_single_spaced (s : string) :
  single_spaced s = true -> single_spaced (trimStart s) = true.
Proof.
  induction s as [|c r IH]; intros S; [reflexivity|].
  simpl. destruct (is_space c); [|exact S].
  apply IH. now apply single_spaced_tail in S.
Qed.

Lemma trimEnd_first (s : string) :
  starts_with_space (trimEnd s) = true -> starts_with_space s = true.
Proof.
  destruct s as [|c r]; simpl; [discriminate|].
  destruct (is_space c && (trimEnd r =? "")) eqn:E; simpl; [discriminate|tauto].
Qed.

Lemma trimEnd_single_spaced (s : string) :
  single_spaced s = true -> single_spaced (trimEnd s) = true.
Proof.
  induction s as [|c r IH]; intros S; [reflexivity|].
  simpl in *. apply andb_true_iff in S as [S1 S2].
  destruct (is_space c && (trimEnd r =? "")) eqn:E; [reflexivity|].
  simpl. rewrite (IH S2), andb_true_r.
  destruct (is_space c); [|reflexivity].
  apply andb_true_iff in S1 as [S1 S3]. rewrite S1. simpl.
  destruct (starts_with_space (trimEnd r)) eqn:F; [|reflexivity].
  apply trimEnd_first in F. now rewrite F in S3.
Qed.

Lemma trimEnd_no_space (s : string) : ends_with_space (trimEnd s) = false.
Proof.
  induction s as [|c r IH]; simpl; [reflexivity|].
  destruct (is_space c && (trimEnd r =? "")) eqn:E; [reflexivity|].
  destruct (trimEnd r) as [|c' r'] eqn:T.
  - simpl in *. now rewrite andb_true_r in E.
  - exact IH.
Qed.

Lemma trimStart_fixed (s : string) : starts_with_space s = false -> trimStart s = s.
Proof. destruct s as [|c r]; simpl; [reflexivity|]. now intros ->. Qed.

Lemma trimEnd_fixed (s : string) : ends_with_space s = false -> trimEnd s = s.
Proof.
  induction s as [|c r IH]; intros E; [reflexivity|].
  simpl in *. destruct r as [|c' r'].
  - simpl. now rewrite E.
  - rewrite (IH E). simpl. now rewrite andb_false_r.
Qed.

Lemma trim_shape (s : string) :
  starts_with_space (trim s) = false /\ ends_with_space (trim s) = false.
Proof.
  unfold trim. split; [|apply trimEnd_no_space].
  destruct (starts_with_space (trimEnd (trimStart s))) eqn:E; [|reflexivity].
  apply trimEnd_first in E. now rewrite trimStart_no_space in E.
Qed.

Lemma trim_fixed (s : string) :
  starts_with_space s = false -> ends_with_space s = false -> trim s = s.
Proof.
  intros A B. unfold trim. rewrite (trimStart_fixed s A). now apply trimEnd_fixed.
Qed.

Lemma trim_idempotent (s : string) : trim (trim s) = trim s.
Proof. destruct (trim_shape s) as [A B]. now apply trim_fixed. Qed.

Lemma collapse_fixed (s : string) :
  single_spaced s = true ->
  collapse_from false s = s
  /\ (starts_with_space s = false -> collapse_from true s = s).
Proof.
  induction s as [|c r IH]; intros S; [now split|].
  simpl in *. apply andb_true_iff in S as [S1 S2].
  destruct (IH S2) as [F T].
  destruct (is_space c) eqn:C.
  - apply andb_true_iff in S1 as [S1 S3].
    apply Ascii.eqb_eq in S1. subst c.
    apply negb_true_iff in S3. split; [|discriminate].
    now rewrite (T S3).
  - rewrite F. now split.
Qed.

Lemma visible_collapse (b : bool) (s : string) : visible (collapse_from b s) = visible s.
Proof.
  revert b. induction s as [|c r IH]; intros b; simpl; [reflexivity|].
  destruct (is_space c) eqn:C.
  - destruct b; simpl; [apply IH|]. change (is_space " ") with true. simpl. apply IH.
  - simpl. now rewrite C, IH.
Qed.

Lemma visible_trimStart (s : string) : visible (trimStart s) = visible s.
Proof.
  induction s as [|c r IH]; simpl; [reflexivity|].
  destruct (is_space c) eqn:C; [exact IH|]. simpl. now rewrite C.
Qed.

Lemma visible_trimEnd (s : string) : visible (trimEnd s) = visible s.
Proof.
  induction s as [|c r IH]; simpl; [reflexivity|].
  destruct (is_space c) eqn:C; simpl.
  - destruct (trimEnd r =? "") eqn:E.
    + apply String.eqb_eq in E. rewrite <- IH, E. reflexivity.
    + simpl. now rewrite C.
  - now rewrite C, IH.
Qed.

Lemma collapse_true_start (s : string) :
  starts_with_space (collapse_from true s) = false.
Proof.
  induction s as [|c r IH]; [reflexivity|].
  simpl. destruct (is_space c) eqn:C; [exact IH|]. simpl. exact C.
Qed.

Lemma trimStart_collapse (s : string) :
  trimStart (collapse_from true s) = trimStart (collapse_from false s).
Proof.
  destruct s as [|c r]; [reflexivity|].
  simpl. destruct (is_space c) eqn:C; [|reflexivity].
  simpl. reflexivity.
Qed.

Lemma sanitize_space (c : ascii) (r : string) :
  is_space c = true -> Chat.sanitize (String c r) = Chat.sanitize r.
Proof.
  intros C. unfold Chat.sanitize, collapse_spaces, trim. simpl. rewrite C.
  simpl. now rewrite trimStart_collapse.
Qed.

Lemma sanitize_visible (c : ascii) (r : string) :
  is_space c = false ->
  Chat.sanitize (String c r) = String c (trimEnd (collapse_from false r)).
Proof.
  intros C. unfold Chat.sanitize, collapse_spaces, trim. simpl. rewrite C.
  simpl. rewrite C. simpl. now rewrite C.
Qed.

(** After a visible character: the rest sanitized, behind one space if
    white space comes first. *)
Lemma trimEnd_collapse (r : string) :
  trimEnd (collapse_from false r) =
    if starts_with_visible r then Chat.sanitize r
    else if Chat.sanitize r =? "" then "" else String " " (Chat.sanitize r).
Proof.
  destruct r as [|d r']; [reflexivity|].
  unfold starts_with_visible. destruct (is_space d) eqn:D; simpl negb; cbv iota.
  - rewrite (sanitize_space d r' D).
    assert (E : Chat.sanitize r' = trimEnd (collapse_from true r')).
    { unfold Chat.sanitize, collapse_spaces, trim.
      now rewrite <- trimStart_collapse, (trimStart_fixed _ (collapse_true_start r')). }
    rewrite E. simpl collapse_from. rewrite D.
    change (trimEnd (String " " (collapse_from true r')))
      with (if is_space " " && (trimEnd (collapse_from true r') =? "") then ""
            else String " " (trimEnd (collapse_from true r'))).
    reflexivity.
  - unfold Chat.sanitize, collapse_spaces, trim.
    rewrite trimStart_fixed; [reflexivity|]. simpl. rewrite D. simpl. exact D.
Qed.

Lemma words_shape (s : string) :
  Forall (fun w => w <> "" /\ visible w = w) (words s).
Proof.
  induction s as [|c r IH]; [constructor|].
  simpl. destruct (is_space c) eqn:C; [exact IH|].
  destruct (starts_with_visible r).
  - destruct (words r) as [|w ws].
    + repeat constructor; [discriminate|simpl; now rewrite C].
    + inversion IH as [|? ? [W V] F]; subst. constructor; [|exact F].
      split; [discriminate|]. simpl. now rewrite C, V.
  - constructor; [|exact IH]. split; [discriminate|]. simpl. now rewrite C.
Qed.

Lemma concat_empty (ws : list string) :
  Forall (fun w => w <> "" /\ visible w = w) ws ->
  (String.concat " " ws = "" <-> ws = []).
Proof.
  intros F. split; [|now intros ->].
  destruct ws as [|w ws]; [reflexivity|]. intros E. exfalso.
  inversion F as [|? ? [W _] _]; subst. apply W.
  destruct ws; simpl in E; [exact E|]. destruct w; [reflexivity|discriminate].
Qed.

Lemma concat_char (c : ascii) (w : string) (ws : list string) :
  String.concat " " (String c w :: ws) = String c (String.concat " " (w :: ws)).
Proof. destruct ws; reflexivity. Qed.

Lemma sanitize_words (s : string) : Chat.sanitize s = String.concat " " (words s).
Proof.
  induction s as [|c r IH]; [reflexivity|].
  simpl words. destruct (is_space c) eqn:C.
  - now rewrite (sanitize_space c r C).
  - rewrite (sanitize_visible c r C), trimEnd_collapse.
    destruct (starts_with_visible r).
    + rewrite IH. destruct (words r) as [|w ws]; [reflexivity|].
      now rewrite concat_char.
    + pose proof (concat_empty (words r) (words_shape r)) as Em.
      rewrite IH. destruct (words r) as [|w ws]; [reflexivity|].
      destruct (String.eqb_spec (String.concat " " (w :: ws)) "") as [Z|N].
      * apply Em in Z. discriminate.
      * reflexivity.
Qed.

Example sanitize_sample :
  Chat.sanitize "  two   words " = "two words" /\ words "  two   words " = ["two"; "words"].
Proof. split; reflexivity. Qed.

(** X1. [sanitize] gives the words of the text, joined by single spaces:
    every run of white space between two words becomes one space, the
    white space before the first word and after the last goes, and the
    other characters are kept, in order. So the result has no white space
    at either end and no two white-space characters in a row, and
    sanitizing twice changes nothing more. *)
Theorem sanitize_clean (s : string) :
  Chat.sanitize s = String.concat " " (words s)
  /\ Forall (fun w => w <> "" /\ visible w = w) (words s)
  /\ starts_with_space (Chat.sanitize s) = false
  /\ ends_with_space (Chat.sanitize s) = false
  /\ single_spaced (Chat.sanitize s) = true
  /\ visible (Chat.sanitize s) = visible s
  /\ Chat.sanitize (Chat.sanitize s) = Chat.sanitize s.
Proof.
  split; [apply sanitize_words|]. split; [apply words_shape|].
  unfold Chat.sanitize, collapse_spaces.
  destruct (trim_shape (collapse_from false s)) as [A B].
  assert (S : single_spaced (trim (collapse_from false s)) = true).
  { unfold trim. apply trimEnd_single_spaced, trimStart_single_spaced.
    apply (collapse_shape false s). }
  split; [exact A|]. split; [exact B|]. split; [exact S|]. split.
  - unfold trim. now rewrite visible_trimEnd, visible_trimStart, visible_collapse.
  - rewrite (proj1 (collapse_fixed _ S)). apply trim_idempotent.
Qed.

Lemma length_spaces (n : nat) : String.length (spaces n) = n.
Proof. induction n as [|n IH]; simpl; [reflexivity|now rewrite IH]. Qed.

Lemma length_append (a b : string) :
  String.length (a ++ b) = String.length a + String.length b.
Proof. induction a as [|c a IH]; simpl; [reflexivity|now rewrite IH]. Qed.

Lemma ends_with_append (a s : string) : ends_with s (a ++ s) = true.
Proof.
  induction a as [|c a IH].
  - change ("" ++ s) with s. destruct s; cbn [ends_with]; now rewrite String.eqb_refl.
  - change (String c a ++ s) with (String c (a ++ s)). cbn [ends_with].
    rewrite IH. apply orb_true_r.
Qed.

(** X2. [padStart] pads on the left and never cuts: the result ends with
    the text, its length is the larger of the width and the length of the
    text, and a text that is wide enough comes back unchanged. So for a
    whole count that a double holds exactly, the value column of the
    legend is at least two characters wide and always shows the whole
    count: a single digit gets one space before it, and a text of two or
    more characters is shown as it is. *)
Theorem padStart_pads (n : nat) (s : string) :
  ends_with s (padStart n s) = true
  /\ String.length (padStart n s) = Nat.max n (String.length s)
  /\ (n <= String.length s -> padStart n s = s)
  /\ (forall k : Z, (Z.abs k <= 2 ^ 53)%Z ->
        2 <= String.length (Pie.legend_val k)
        /\ ends_with (Z_to_string k) (Pie.legend_val k) = true
        /\ ((0 <= k <= 9)%Z -> Pie.legend_val k = " " ++ Z_to_string k)
        /\ (2 <= String.length (Z_to_string k) -> Pie.legend_val k = Z_to_string k)).
Proof.
  unfold padStart. split; [apply ends_with_append|]. split; [|split].
  - rewrite length_append, length_spaces. lia.
  - intros L. now replace (n - String.length s) with 0 by lia.
  - intros k _. unfold Pie.legend_val, padStart.
    split; [rewrite length_append, length_spaces; lia|].
    split; [apply ends_with_append|]. split.
    + intros R.
      assert (D : (k = 0 \/ k = 1 \/ k = 2 \/ k = 3 \/ k = 4 \/ k = 5 \/ k = 6
                   \/ k = 7 \/ k = 8 \/ k = 9)%Z) by lia.
      repeat (destruct D as [-> | D]; [reflexivity|]). subst k. reflexivity.
    + intros L. now replace (2 - String.length (Z_to_string k)) with 0 by lia.
Qed.

End StringFacts.

(** ** The chat terminal, further *)

Module ChatInvariants.
Import Js Chat JsFacts ChatFacts StringFacts.

Section Component.
Context `{Host} (apiUrl : string).

Abbreviation send := (Chat.send apiUrl).
Abbreviation send_from := (Chat.send_from apiUrl).
Abbreviation resume := (Chat.resume apiUrl).
Abbreviation step := (Chat.step apiUrl).
Abbreviation run := (Chat.run apiUrl).
Abbreviation onKeyDown := (Chat.onKeyDown apiUrl).

(** X3. At most one request is in flight: in every state the terminal
    can reach, at most one call of [send] is suspended at its fetch, and
    the busy flag is set exactly when one is. *)
Theorem one_request_in_flight (evs : list (Q * Event)) :
  let t := run evs initial in
  length (awaiting t) <= 1
  /\ (busy (state t) = true <-> awaiting t <> []).
Proof.
  intros t.
  destruct (coherent_run apiUrl evs initial coherent_initial)
    as [[B A]|[B [t0 A]]]; fold t in B, A; rewrite A, B; simpl.
  - split; [lia|]. split; [discriminate|congruence].
  - split; [lia|]. split; [discriminate|reflexivity].
Qed.

(** X4. The guard of [send] is that of the render it was made in.
    [send] reads the input, the busy flag and the messages of its
    render, so when one render's [send] is called twice before React
    renders again, with a text to submit and no request out, both calls
    pass the guard: the user message is appended twice and the same
    request is posted twice. Called from the next render, [send] does
    nothing. *)
Theorem send_guard_per_render (now now' : Q) (t : Terminal) :
  busy (state t) = false ->
  trim (input (state t)) <> "" ->
  let line := {| role := user; content := JStr (trim (input (state t))) |} in
  let once := send_from (state t) now t in
  let twice := send_from (state t) now' once in
  once = send now t
  /\ messages (state twice) = messages (state t) ++ [line; line]
  /\ (exists r, network once = network t ++ [r] /\ network twice = network t ++ [r; r])
  /\ awaiting twice = awaiting t ++ [now; now']
  /\ send_from (state once) now' once = once.
Proof.
  intros B T line once twice.
  assert (G : negb (string_truthy (trim (input (state t)))) || busy (state t) = false).
  { apply string_truthy_true in T. now rewrite T, B. }
  split; [reflexivity|].
  subst twice once. unfold Chat.send_from. rewrite G. cbn -[trim JSON_stringify].
  rewrite <- !app_assoc.
  split; [reflexivity|]. split; [eexists; split; reflexivity|].
  split; [reflexivity|]. now rewrite orb_true_r.
Qed.

Lemma or_else_truthy (a b : JsValue) : truthy b = true -> truthy (or_else a b) = true.
Proof. intros T. unfold or_else. now destruct (truthy a) eqn:E. Qed.

Lemma exchanges_step (t : Terminal) (ev : Q * Event) :
  coherent t ->
  exchanges (messages (state t)) (busy (state t)) ->
  exchanges (messages (state (step t ev))) (busy (state (step t ev))).
Proof.
  intros C X.
  assert (S : forall now,
    exchanges (messages (state (send now t))) (busy (state (send now t)))).
  { intros now. destruct (busy (state t)) eqn:B.
    - rewrite send_rejected by (now left). now rewrite B.
    - destruct (whitespace_only (input (state t))) eqn:W.
      + rewrite send_rejected by (now right). now rewrite B.
      + assert (T : trim (input (state t)) <> "").
        { intros E. apply trim_empty in E. congruence. }
        rewrite (send_accepted apiUrl now t B T). simpl.
        apply exchanges_asked; [exact X|exact T|apply trim_idempotent]. }
  destruct ev as [now [value|key shiftKey| |fetched]]; simpl.
  - exact X.
  - unfold onKeyDown. destruct ((key =? "Enter") && negb shiftKey); [apply S|exact X].
  - apply S.
  - destruct C as [[B A]|[B [t0 A]]].
    + unfold Chat.resume. now rewrite A.
    + rewrite B in X.
      destruct (responds_or_fails fetched) as [[r [raw R]]|[e F]].
      * rewrite (resume_responded apiUrl now fetched r raw t t0 [] R A). simpl.
        apply exchanges_answered; [exact X| |discriminate].
        now apply or_else_truthy.
      * rewrite (resume_failed apiUrl now fetched e t t0 [] F A). simpl.
        now apply exchanges_failed.
Qed.

(** X5. The transcript is always a sequence of exchanges. Each begins
    with a user message whose text is trimmed and not empty, and is
    closed by an assistant message of non-empty content followed by a
    status line, or by the failure line alone; only the last exchange can
    be open, and it is open exactly while the terminal is busy. So no
    message is ever empty, and no answer comes without its question. *)
Theorem transcript_exchanges (evs : list (Q * Event)) :
  let t := run evs initial in
  exchanges (messages (state t)) (busy (state t)).
Proof.
  intros t. subst t.
  induction evs as [|ev evs IH] using rev_ind; [constructor|].
  rewrite run_snoc. apply exchanges_step; [|exact IH].
  apply coherent_run, coherent_initial.
Qed.

(** What the error cell tells in a state. *)
Lemma status_not_failure (ms : Z) (from : string) :
  {| role := system;
     content := JStr ("✓ responded in " ++ Z_to_string ms ++ "ms from " ++ from) |}
  <> failure_line.
Proof. unfold failure_line. simpl. intros E. discriminate E. Qed.

Lemma user_not_failure (text : string) :
  {| role := user; content := JStr text |} <> failure_line.
Proof. unfold failure_line. intros E. discriminate E. Qed.

Lemma last_of_two (l : list Msg) (a b : Msg) : last (l ++ [a; b]) = Some b.
Proof. change [a; b] with ([a] ++ [b]). rewrite app_assoc. apply last_snoc. Qed.

Lemma error_step (t : Terminal) (ev : Q * Event) :
  coherent t -> error_tells t -> error_tells (step t ev).
Proof.
  intros C (Q & L & N).
  assert (S : forall now, error_tells (send now t)).
  { intros now. destruct (busy (state t)) eqn:B.
    - rewrite send_rejected by (now left). unfold error_tells. now rewrite B.
    - destruct (whitespace_only (input (state t))) eqn:W.
      + rewrite send_rejected by (now right). unfold error_tells. now rewrite B.
      + assert (T : trim (input (state t)) <> "").
        { intros E. apply trim_empty in E. congruence. }
        rewrite (send_accepted apiUrl now t B T). unfold error_tells. simpl.
        rewrite last_snoc.
        split; [reflexivity|]. split; [|discriminate]. split; [congruence|].
        intros E. apply (inj Some) in E. now apply user_not_failure in E. }
  destruct ev as [now [value|key shiftKey| |fetched]]; simpl.
  - now split.
  - unfold onKeyDown.
    destruct ((key =? "Enter") && negb shiftKey); [apply S|now split].
  - apply S.
  - destruct C as [[B A]|[B [t0 A]]].
    + unfold Chat.resume. rewrite A. now split.
    + destruct (responds_or_fails fetched) as [[r [raw R]]|[e F]].
      * rewrite (resume_responded apiUrl now fetched r raw t t0 [] R A).
        unfold error_tells. simpl.
        split; [discriminate|]. split; [|exact N].
        rewrite last_of_two, (Q B).
        split; [congruence|].
        intros E. apply (inj Some) in E. now apply status_not_failure in E.
      * rewrite (resume_failed apiUrl now fetched e t t0 [] F A).
        unfold error_tells. simpl. rewrite last_snoc.
        split; [discriminate|]. split; [split; [reflexivity|discriminate]|].
        intros s E. injection E as <-. now apply str_or_default.
Qed.

(** X6. The error line tells the outcome of the last exchange. In every
    state the terminal can reach, no error is set while a request is
    out; otherwise an error is set exactly when the transcript ends with
    the failure line, and its text is never empty. So an error stays
    until the next accepted submission and a successful answer never
    shows one. *)
Theorem error_follows_failure (evs : list (Q * Event)) :
  let t := run evs initial in
  (busy (state t) = true -> err (state t) = None)
  /\ (err (state t) <> None <-> last (messages (state t)) = Some failure_line)
  /\ (forall s, err (state t) = Some s -> s <> "").
Proof.
  intros t. subst t. change (error_tells (run evs initial)).
  induction evs as [|ev evs IH] using rev_ind.
  - unfold error_tells. simpl. split; [discriminate|]. split; [|discriminate].
    split; [congruence|discriminate].
  - rewrite run_snoc. apply error_step; [|exact IH].
    apply coherent_run, coherent_initial.
Qed.

(** X7. The Send button and [send] agree. The button is disabled
    exactly when [send] would do nothing, and the Enter key, which does
    not go through the button, sends under the same guard: while the
    button is disabled no key changes the terminal. *)
Theorem send_matches_button (now : Q) (t : Terminal) :
  (send_disabled (state t) = true <-> send now t = t)
  /\ onKeyDown now "Enter" false t = send now t
  /\ (send_disabled (state t) = true ->
      forall key shiftKey, onKeyDown now key shiftKey t = t).
Proof.
  assert (E : send_disabled (state t) = true <-> send now t = t).
  { unfold send_disabled, Chat.send. rewrite (orb_comm (busy (state t))).
    destruct (negb (string_truthy (trim (input (state t)))) || busy (state t)) eqn:G.
    - tauto.
    - split; [discriminate|]. intros S.
      apply (f_equal (fun x => busy (state x))) in S. simpl in S.
      apply orb_false_iff in G as [_ G]. congruence. }
  split; [exact E|]. split; [reflexivity|].
  intros D key shiftKey. unfold Chat.onKeyDown.
  destruct ((key =? "Enter") && negb shiftKey); [now apply E|reflexivity].
Qed.

End Component.

(** Two calls of the [send] of the render in which "  hi " was typed. *)
Lemma send_guard_per_render_witness :
  busy (state Sample.typed) = false
  /\ trim (input (state Sample.typed)) = "hi"
  /\ messages
       (state
          (send_from (H := RefHost.ref_host) Sample.chat_url (state Sample.typed) 2%Q
             (send_from (H := RefHost.ref_host) Sample.chat_url (state Sample.typed) 1%Q
                Sample.typed)))
     = [{| role := user; content := JStr "hi" |}; {| role := user; content := JStr "hi" |}].
Proof.
  split; [reflexivity|]. split; [reflexivity|].
  exact (proj1 (proj2 (send_guard_per_render (H := RefHost.ref_host) Sample.chat_url
                         1%Q 2%Q Sample.typed eq_refl
                         ltac:(discriminate)))).
Defined.

End ChatInvariants.

(** ** The rollout pie, further *)

Module PieInvariants.
Import Js Pie PieFacts.

(** X8. In the doubles of the code the denominator of the fractions is
    never zero: whatever numbers a snapshot holds, [total] is NaN or at
    least 1. *)
Theorem total_never_zero (days : list (Day number)) (i : nat) (d : Day number) :
  days !! i = Some d ->
  exists t,
    total days i = Normal t
    /\ (t = S754_nan \/ SFleb (number_of_Z 1) t = true)
    /\ forall s, t <> S754_zero s.
Proof.
  intros L. unfold total. rewrite (current_inside days i d L).
  cbn [mbind completion_bind].
  set (x := add (add (encrypted d) (pending d)) (failed d)).
  eexists. split; [reflexivity|].
  change (Math_max (of_Z 1) x) with (SFmax (number_of_Z 1) x). unfold SFmax.
  destruct (SFcompare (number_of_Z 1) x) as [[| |]|] eqn:E.
  - split; [right; vm_compute; reflexivity|]. intros s. discriminate.
  - split; [right; unfold SFleb; now rewrite E|].
    intros s X. rewrite X in E. destruct s; vm_compute in E; discriminate E.
  - split; [right; vm_compute; reflexivity|]. intros s. discriminate.
  - split; [now left|]. intros s. discriminate.
Qed.

(** The denominator for the counts 1, 4 and 1. *)
Lemma total_never_zero_witness :
  [counts 1 1 4 1 : Day number] !! 0 = Some (counts 1 1 4 1)
  /\ exists t,
       total [counts 1 1 4 1 : Day number] 0 = Normal t
       /\ (t = S754_nan \/ SFleb (number_of_Z 1) t = true)
       /\ forall s, t <> S754_zero s.
Proof.
  split; [reflexivity|].
  exact (total_never_zero [counts 1 1 4 1] 0 (counts 1 1 4 1) eq_refl).
Defined.

Section Timers.
Context {num : Type} `{Arith num} (days : list (Day num)).

Lemma sound_initial : sound initial.
Proof.
  split; [constructor|]. split; [simpl; lia|]. split; [|discriminate].
  intros _. left. now split.
Qed.

Lemma sound_start (w : Widget) : sound w -> mounted w = true -> sound (start w).
Proof.
  intros (F & N & M & U) Mt. unfold start.
  destruct (M Mt) as [[P T]|[P X]]; rewrite P; [|now split; [|split; [|split]]].
  unfold sound, schedule_tick, setI, setPlaying. simpl. rewrite Mt, T. simpl.
  split; [now repeat constructor|]. split; [lia|]. split; [|discriminate].
  intros _. right. split; [reflexivity|]. eexists. split; reflexivity.
Qed.

Lemma sound_fire (w : Widget) : sound w -> sound (fire days w).
Proof.
  intros S0. pose proof S0 as (F & N & M & U). unfold fire.
  destruct (timers w) as [|t rest] eqn:T; [exact S0|].
  destruct (mounted w) eqn:Mt; [|now specialize (U eq_refl)].
  destruct (M eq_refl) as [[_ X]|[P [t' [X R]]]]; [discriminate|].
  injection X as <- ->. unfold tick, sound, setPlaying, setI, set_tRef, schedule_tick.
  assert (Ht : 1 <= handle t) by (now inversion F).
  destruct (length days <=? S (step t))%nat; simpl; rewrite ?Mt.
  - split; [constructor|]. split; [exact N|]. split; [|discriminate].
    intros _. left. now split.
  - split; [now repeat constructor|]. split; [lia|].
    split; [|discriminate].
    intros _. right. split; [exact P|]. eexists. split; reflexivity.
Qed.

Lemma sound_unmount (w : Widget) : sound w -> sound (unmount w).
Proof.
  intros (F & N & M & U).
  assert (E : timers (unmount w) = []).
  { unfold unmount. destruct (mounted w) eqn:Mt.
    - destruct (M eq_refl) as [[_ T]|[_ [t [T R]]]].
      + destruct (tRef w) as [h|]; [|exact T].
        destruct (h =? 0)%nat; [exact T|]. simpl. now rewrite T.
      + rewrite R.
        assert (Ht : 1 <= handle t) by (rewrite T in F; now inversion F).
        destruct (Nat.eqb_spec (handle t) 0) as [Z|_]; [lia|].
        simpl. rewrite T, filter_cons, filter_nil.
        destruct (decide (handle t ≠ handle t)); [congruence|reflexivity].
    - specialize (U eq_refl).
      destruct (tRef w) as [h|]; [|exact U].
      destruct (h =? 0)%nat; [exact U|]. simpl. now rewrite U. }
  unfold sound.
  split; [rewrite E; constructor|]. split.
  - unfold unmount. destruct (tRef w) as [h|]; [|exact N].
    now destruct (h =? 0)%nat.
  - split; [discriminate|]. intros _. exact E.
Qed.
Lemma sound_step (w : Widget) (e : Event) : sound w -> sound (step_event days w e).
Proof.
  intros S. destruct e; unfold step_event.
  - destruct (mounted w) eqn:M; [now apply sound_start|exact S].
  - now apply sound_fire.
  - now apply sound_unmount.
Qed.

Lemma sound_run (evs : list Event) (w : Widget) : sound w -> sound (Pie.run days evs w).
Proof.
  revert w. induction evs as [|e evs IH]; intros w S; [exact S|].
  simpl. apply IH. now apply sound_step.
Qed.

(** X10. Playback never doubles up. In every state the widget can reach,
    at most one deferred step is pending; while the widget is mounted
    one is pending exactly when the playing flag is set; and once it is
    unmounted none is. *)
Theorem one_pending_step (evs : list Event) :
  let w := Pie.run days evs initial in
  length (timers w) <= 1
  /\ (mounted w = true -> (playing w = true <-> timers w <> []))
  /\ (mounted w = false -> timers w = []).
Proof.
  intros w. destruct (sound_run evs initial sound_initial) as (F & N & M & U).
  fold w in F, N, M, U. split; [|split; [|exact U]].
  - destruct (mounted w) eqn:Mt.
    + destruct (M eq_refl) as [[_ T]|[_ [t [T _]]]]; rewrite T; simpl; lia.
    + rewrite (U eq_refl). simpl. lia.
  - intros Mt. destruct (M Mt) as [[P T]|[P [t [T _]]]]; rewrite P, T.
    + split; [discriminate|congruence].
    + split; [discriminate|reflexivity].
Qed.

Lemma dead_step (w : Widget) (e : Event) :
  mounted w = false -> timers w = [] -> step_event days w e = w.
Proof.
  intros M T. destruct e; unfold step_event.
  - now rewrite M.
  - unfold fire. now rewrite T.
  - unfold unmount. destruct w as [wi wp wr wt wn wc wm]. simpl in *. subst.
    destruct wr as [h|]; [|reflexivity].
    now destruct (h =? 0)%nat.
Qed.

(** X11. Teardown is final. Unmounting cancels the pending step, and
    after it no start, no timeout and no second unmount changes the
    widget any more: nothing fires after the widget is gone. *)
Theorem teardown_final (evs later : list Event) :
  let u := unmount (Pie.run days evs initial) in
  timers u = [] /\ Pie.run days later u = u.
Proof.
  intros u.
  assert (S : sound u) by (apply sound_unmount, sound_run, sound_initial).
  destruct S as (_ & _ & _ & U).
  assert (M : mounted u = false) by reflexivity.
  split; [exact (U M)|].
  induction later as [|e later IH]; [reflexivity|].
  simpl. now rewrite (dead_step u e M (U M)).
Qed.

End Timers.

End PieInvariants.

(** ** The diagnostics panel, further *)

Module PanelInvariants.
Import Js Panel JsFacts StringFacts PanelFacts.

#[local] Open Scope string_scope.

Lemma whitespace_visible (s : string) : whitespace_only s = true <-> visible s = "".
Proof.
  induction s as [|c r IH]; simpl; [tauto|].
  destruct (is_space c); simpl; [exact IH|]. split; discriminate.
Qed.

Lemma sanitize_empty (s : string) : whitespace_only s = true <-> Chat.sanitize s = "".
Proof.
  unfold Chat.sanitize. rewrite trim_empty, !whitespace_visible.
  unfold collapse_spaces. now rewrite visible_collapse.
Qed.

Lemma append_not_empty (a b : string) : b <> "" -> a ++ b <> "".
Proof. destruct a; simpl; [tauto|discriminate]. Qed.

Lemma length_slice0 (n : nat) (s : string) :
  n <= String.length s -> String.length (slice0 n s) = n.
Proof.
  revert s. induction n as [|n IH]; intros s L; [reflexivity|].
  destruct s as [|c r]; simpl in *; [lia|]. rewrite IH; lia.
Qed.

Lemma slice0_all (n : nat) (s : string) : String.length s <= n -> slice0 n s = s.
Proof.
  revert s. induction n as [|n IH]; intros s L.
  - destruct s; simpl in *; [reflexivity|lia].
  - destruct s as [|c r]; simpl in *; [reflexivity|]. rewrite IH; [reflexivity|lia].
Qed.

Lemma trimPreview_not_empty (s : string) (max : nat) : trimPreview s max <> "".
Proof.
  unfold trimPreview.
  destruct (max <? String.length (trim (collapse_spaces s)))%nat.
  - apply append_not_empty. discriminate.
  - apply str_or_default. discriminate.
Qed.

(** X12. [trimPreview] gives the sanitized text when it is not empty and
    at most [max] long, its first [max] characters followed by the
    ellipsis when it is longer, and the placeholder "(empty)" when the
    text holds white space only: the preview is never empty. *)
Theorem trimPreview_cases (s : string) (max : nat) :
  trimPreview s max <> ""
  /\ (whitespace_only s = true -> trimPreview s max = "(empty)")
  /\ (Chat.sanitize s <> "" -> String.length (Chat.sanitize s) <= max ->
      trimPreview s max = Chat.sanitize s)
  /\ (max < String.length (Chat.sanitize s) ->
      trimPreview s max = slice0 max (Chat.sanitize s) ++ " …"
      /\ String.length (slice0 max (Chat.sanitize s)) = max).
Proof.
  split; [apply trimPreview_not_empty|].
  unfold trimPreview. change (trim (collapse_spaces s)) with (Chat.sanitize s).
  destruct (Nat.ltb_spec max (String.length (Chat.sanitize s))) as [L|L].
  - split; [|split].
    + intros W. apply sanitize_empty in W. rewrite W in L. simpl in L. lia.
    + lia.
    + intros _. split; [reflexivity|]. apply length_slice0. lia.
  - split; [|split].
    + intros W. apply sanitize_empty in W. now rewrite W.
    + intros N _. now apply str_or_nonempty.
    + lia.
Qed.

Section Component.
Context `{Host} (root : string).

Abbreviation play := (Panel.play root).

Lemma read_body_preview (raw : string) : snd (read_body raw) <> "".
Proof.
  unfold read_body, previewJson.
  destruct (if string_truthy raw then JSON_parse raw else Normal JUndefined) as [json|e].
  - destruct (JSON_stringify json 2) as [t|]; simpl; apply trimPreview_not_empty.
  - simpl. apply trimPreview_not_empty.
Qed.

(** X13. What [call] reads from a body. The preview is never empty. An
    empty body is not parsed: the parsed value stays undefined, and as
    [JSON.stringify] gives undefined for it the preview is "(empty)". A
    body that does not parse leaves the parsed value undefined and is
    previewed as raw text; a body that parses is previewed in its
    pretty-printed form. *)
Theorem read_body_edges (raw : string) :
  snd (read_body raw) <> ""
  /\ (JSON_stringify JUndefined 2 = None -> read_body "" = (JUndefined, "(empty)"))
  /\ (forall e, raw <> "" -> JSON_parse raw = Throw e ->
        read_body raw = (JUndefined, trimPreview raw 260))
  /\ (forall json printed, raw <> "" -> JSON_parse raw = Normal json ->
        JSON_stringify json 2 = Some printed ->
        read_body raw = (json, trimPreview printed 260)).
Proof.
  split; [apply read_body_preview|]. split; [|split].
  - intros U. unfold read_body, previewJson. simpl. now rewrite U.
  - intros e N P. unfold read_body. apply string_truthy_true in N. now rewrite N, P.
  - intros json printed N P S. unfold read_body, previewJson.
    apply string_truthy_true in N. now rewrite N, P, S.
Qed.

Lemma call_sound (path : string) (t0 t1 : Q) (at_ : string)
    (fetched : completion Response) :
  entry_sound root (call (root ++ path) t0 t1 at_ fetched).
Proof.
  destruct (responds_or_fails fetched) as [[r [raw R]]|[e F]].
  - rewrite (call_responded _ t0 t1 at_ fetched r raw R). unfold entry_sound. simpl.
    split; [|split; [apply read_body_preview|now exists path]].
    unfold response_ok. rewrite andb_true_iff, !Z.leb_le. tauto.
  - rewrite (call_failed _ t0 t1 at_ fetched e F). unfold entry_sound. simpl.
    split; [|split; [discriminate|now exists path]].
    split; [discriminate|lia].
Qed.

Lemma calling_app (a b : list Phase) : calling (a ++ b) = calling a + calling b.
Proof. induction a as [|p a IH]; simpl; [reflexivity|]. rewrite IH. lia. Qed.

Lemma calling_insert (rs : list Phase) (k : nat) (p q : Phase) :
  rs !! k = Some p ->
  calling (<[k := q]> rs) + (if is_calling p then 1 else 0)
    = calling rs + (if is_calling q then 1 else 0).
Proof.
  revert k. induction rs as [|x rs IH]; intros k L; [discriminate|].
  destruct k as [|k]; simpl in *.
  - injection L as ->. lia.
  - specialize (IH k L). lia.
Qed.

Lemma calling_delete (rs : list Phase) (k : nat) (p : Phase) :
  rs !! k = Some p ->
  calling (delete k rs) + (if is_calling p then 1 else 0) = calling rs.
Proof.
  revert k. induction rs as [|x rs IH]; intros k L; [discriminate|].
  destruct k as [|k]; simpl in *.
  - injection L as ->. lia.
  - specialize (IH k L). lia.
Qed.

(** The invariant of the panel. *)
Lemma panel_step (w : Widget) (e : Event) :
  Forall (entry_sound root) (history w)
  /\ Forall (phase_sound root) (runs w)
  /\ length (network w) = length (history w) + calling (runs w) ->
  Forall (entry_sound root) (history (step root w e))
  /\ Forall (phase_sound root) (runs (step root w e))
  /\ length (network (step root w e))
     = length (history (step root w e)) + calling (runs (step root w e)).
Proof.
  intros (Hh & Hr & Hn).
  destruct e as [path|k now|k fetched now at_|k]; simpl.
  - unfold run, set_runs, setError. simpl.
    split; [exact Hh|]. split.
    + apply Forall_app. split; [exact Hr|]. now repeat constructor.
    + rewrite calling_app. simpl. lia.
  - unfold swept. destruct (runs w !! k) as [[path| |]|] eqn:L; try now repeat split.
    simpl. split; [exact Hh|]. split.
    + apply Forall_insert; [exact Hr|]. now exists path.
    + pose proof (calling_insert (runs w) k _ (Calling (root ++ path) now) L) as C.
      simpl in C. rewrite length_app. simpl. lia.
  - unfold answered.
    destruct (runs w !! k) as [[|fullUrl t0|]|] eqn:L; try now repeat split.
    pose proof (proj1 (Forall_lookup _ _) Hr k _ L) as [path ->].
    unfold set_runs, setHistory. simpl.
    split; [|split].
    + apply Forall_app. split; [exact Hh|]. constructor; [apply call_sound|constructor].
    + apply Forall_insert; [exact Hr|]. apply call_sound.
    + pose proof (calling_insert (runs w) k _
                    (Backward (call (root ++ path) t0 now at_ fetched)) L) as C.
      simpl in C. rewrite length_app. simpl. lia.
  - unfold returned. destruct (runs w !! k) as [[| |res]|] eqn:L; try now repeat split.
    pose proof (calling_delete (runs w) k _ L) as C. simpl in C.
    assert (D : Forall (phase_sound root) (delete k (runs w))) by now apply Forall_delete.
    destruct (negb (ok res)); unfold set_runs, setError; simpl;
      (split; [exact Hh|]; split; [exact D|]; lia).
Qed.

(** X14. The history of the panel is sound. In every state the panel
    can reach, each entry has a preview that is not empty and a URL that
    begins with the base, and its ok flag is set exactly when its status
    is in 200..299; and the URLs handed to [fetch] are as many as the
    entries plus the calls that still wait for an answer, so that every
    request ends in exactly one entry and none comes from nowhere. *)
Theorem history_sound (evs : list Event) :
  let w := play evs initial in
  Forall (entry_sound root) (history w)
  /\ length (network w) = length (history w) + calling (runs w).
Proof.
  intros w.
  assert (I : Forall (entry_sound root) (history w)
              /\ Forall (phase_sound root) (runs w)
              /\ length (network w) = length (history w) + calling (runs w)).
  { subst w. induction evs as [|e evs IH] using rev_ind.
    - simpl. now repeat split.
    - unfold Panel.play in *. rewrite fold_left_app. simpl. now apply panel_step. }
  destruct I as (A & _ & B). now split.
Qed.

(** The error names an entry, and every answered run holds one. *)
Lemma error_entry_step (w : Widget) (e : Event) :
  (forall m, error w = Some m ->
     exists c, c ∈ history w /\ ok c = false
       /\ m = "Request failed (" ++ Z_to_string (status c) ++ " "
              ++ str_or (statusText c) "" ++ ")")
  /\ Forall (fun p => match p with Backward res => res ∈ history w | _ => True end)
        (runs w) ->
  (forall m, error (step root w e) = Some m ->
     exists c, c ∈ history (step root w e) /\ ok c = false
       /\ m = "Request failed (" ++ Z_to_string (status c) ++ " "
              ++ str_or (statusText c) "" ++ ")")
  /\ Forall (fun p => match p with
                      | Backward res => res ∈ history (step root w e)
                      | _ => True
                      end)
        (runs (step root w e)).
Proof.
  intros [He Hr].
  destruct e as [path|k now|k fetched now at_|k]; simpl.
  - unfold run, set_runs, setError. simpl. split; [discriminate|].
    apply Forall_app. split; [exact Hr|]. now repeat constructor.
  - unfold swept. destruct (runs w !! k) as [[path| |]|] eqn:L; try now split.
    simpl. split; [exact He|]. now apply Forall_insert.
  - unfold answered.
    destruct (runs w !! k) as [[|fullUrl t0|]|] eqn:L; try now split.
    unfold set_runs, setHistory. simpl. split.
    + intros m E. destruct (He m E) as (c & I & R). exists c.
      split; [apply elem_of_app; now left|exact R].
    + apply Forall_insert.
      * eapply Forall_impl; [exact Hr|]. intros [| |res]; try easy.
        intros I. apply elem_of_app. now left.
      * apply elem_of_app. right. constructor.
  - unfold returned. destruct (runs w !! k) as [[| |res]|] eqn:L; try now split.
    pose proof (proj1 (Forall_lookup _ _) Hr k _ L) as I. simpl in I.
    assert (D : Forall (fun p => match p with
                                 | Backward r => r ∈ history w
                                 | _ => True
                                 end) (delete k (runs w))) by now apply Forall_delete.
    destruct (ok res) eqn:O; unfold set_runs, setError; simpl; split;
      try exact He; try exact D.
    intros m E. injection E as <-. exists res. now repeat split.
Qed.

(** X15. The error line is about a request of the history. In every
    state the panel can reach, an error that shows is the line made for
    an entry of the history that is not ok, with the status and the
    status text of that entry; a press of a button clears it. *)
Theorem error_names_entry (evs : list Event) :
  let w := play evs initial in
  (forall m, error w = Some m ->
     exists c, c ∈ history w /\ ok c = false
       /\ m = "Request failed (" ++ Z_to_string (status c) ++ " "
              ++ str_or (statusText c) "" ++ ")")
  /\ (forall path, error (step root w (Press path)) = None).
Proof.
  intros w. split; [|reflexivity].
  assert (I : (forall m, error w = Some m ->
                 exists c, c ∈ history w /\ ok c = false
                   /\ m = "Request failed (" ++ Z_to_string (status c) ++ " "
                          ++ str_or (statusText c) "" ++ ")")
              /\ Forall (fun p => match p with
                                  | Backward res => res ∈ history w
                                  | _ => True
                                  end) (runs w)).
  { subst w. induction evs as [|e evs IH] using rev_ind.
    - simpl. split; [discriminate|constructor].
    - unfold Panel.play in *. rewrite fold_left_app. simpl. now apply error_entry_step. }
  exact (proj1 I).
Qed.

(** X16. Requests may overlap, and the history keeps the order in which
    they finish. On a panel with none in flight, two presses in a row
    put two requests out at once, and when the second is answered first
    its entry comes first. *)
Theorem history_in_completion_order (p1 p2 : string) (a1 a2 b1 b2 : Q)
    (at1 at2 : string) (f1 f2 : completion Response) (w : Widget) :
  runs w = [] ->
  let out := play [Press p1; Press p2; Swept 0 a1; Swept 1 a2] w in
  let back := play [Answered 1 f2 b2 at2; Answered 0 f1 b1 at1] out in
  network out = (network w ++ [(root ++ p1)%string; (root ++ p2)%string])%list
  /\ calling (runs out) = 2
  /\ history back =
       (history w ++ [call (root ++ p2)%string a2 b2 at2 f2;
                      call (root ++ p1)%string a1 b1 at1 f1])%list.
Proof.
  intros R. destruct w as [e h r n]. simpl in R. subst r.
  cbv zeta. unfold Panel.play. cbn -[call String.append].
  unfold run, swept, answered, set_runs, setHistory, setError.
  cbn -[call String.append].
  rewrite <- !app_assoc. split; [reflexivity|]. split; reflexivity.
Qed.

End Component.

Lemma history_in_completion_order_witness :
  runs initial = []
  /\ calling (runs (Panel.play (H := RefHost.ref_host) Sample.lab_root
                     [Press "/api/health"; Press "/api/ping"; Swept 0 0%Q; Swept 1 1%Q]
                     initial)) = 2.
Proof.
  split; [reflexivity|].
  exact (proj1 (proj2 (history_in_completion_order (H := RefHost.ref_host) Sample.lab_root
                         "/api/health" "/api/ping" 0%Q 1%Q 3%Q 2%Q "noon" "noon"
                         (Sample.ok_response "{}") Sample.unavailable
                         initial eq_refl))).
Defined.

End PanelInvariants.

(** ** The base of the API *)

Module RootFacts.
Import Js Panel JsFacts StringFacts.

#[local] Open Scope string_scope.

Lemma strip_slashes_empty (s : string) :
  strip_slashes s = "" -> exists k, s = slashes k.
Proof.
  induction s as [|c r IH]; intros E; [now exists 0|].
  simpl in E. destruct (is_slash c) eqn:C; [|discriminate].
  destruct (String.eqb_spec (strip_slashes r) "") as [R|R]; [|discriminate].
  destruct (IH R) as [k ->]. exists (S k). simpl. f_equal.
  unfold is_slash in C. now apply Ascii.eqb_eq in C.
Qed.

Lemma strip_slashes_prefix (s : string) :
  exists k, s = strip_slashes s ++ slashes k.
Proof.
  induction s as [|c r [k IH]]; [now exists 0|].
  simpl. destruct (is_slash c && (strip_slashes r =? "")) eqn:C.
  - apply andb_true_iff in C as [C R]. apply String.eqb_eq in R.
    destruct (strip_slashes_empty r R) as [j ->]. exists (S j). simpl. f_equal.
    unfold is_slash in C. now apply Ascii.eqb_eq in C.
  - exists k. simpl. now rewrite <- IH.
Qed.

Lemma strip_slashes_end (s : string) : ends_with "/" (strip_slashes s) = false.
Proof.
  induction s as [|c r IH]; [reflexivity|].
  simpl. destruct (is_slash c && (strip_slashes r =? "")) eqn:C; [reflexivity|].
  cbn [ends_with]. rewrite IH, orb_false_r. apply String.eqb_neq. intros E.
  injection E as Ec Er. rewrite Er, Ec in C. discriminate.
Qed.

Lemma strip_slashes_fixed (s : string) :
  ends_with "/" s = false -> strip_slashes s = s.
Proof.
  induction s as [|c r IH]; [reflexivity|].
  cbn [ends_with]. intros E. apply orb_false_iff in E as [E1 E2].
  simpl. rewrite (IH E2).
  destruct (is_slash c && (r =? "")) eqn:C; [|reflexivity].
  apply andb_true_iff in C as [C R]. apply String.eqb_eq in R.
  unfold is_slash in C. apply Ascii.eqb_eq in C. subst. discriminate.
Qed.

Lemma length_lower_all (s : string) : String.length (lower_all s) = String.length s.
Proof. induction s as [|c r IH]; simpl; [reflexivity|now rewrite IH]. Qed.

Lemma strip_health_eq (s : string) :
  strip_health s =
    if (lower_all s =? "/api/health") || (lower_all s =? "/api/health/") then ""
    else match s with
         | "" => ""
         | String c r => String c (strip_health r)
         end.
Proof. destruct s; reflexivity. Qed.

(** The suffix is cut where it begins, in whatever case it is written. *)
Lemma strip_health_suffix (base t : string) :
  lower_all t = "/api/health" \/ lower_all t = "/api/health/" ->
  strip_health (base ++ t) = base.
Proof.
  intros T. induction base as [|c b IH].
  - change ("" ++ t) with t. rewrite strip_health_eq.
    destruct T as [-> | ->]; reflexivity.
  - change (String c b ++ t) with (String c (b ++ t)). rewrite strip_health_eq.
    assert (Lt : String.length t = 11 \/ String.length t = 12).
    { destruct T as [T|T]; apply (f_equal String.length) in T;
        rewrite length_lower_all in T; simpl in T; lia. }
    assert (N1 : (lower_all (String c (b ++ t)) =? "/api/health") = false).
    { apply String.eqb_neq. intros E. apply (f_equal String.length) in E.
      rewrite length_lower_all in E. simpl in E. rewrite length_append in E. lia. }
    assert (N2 : (lower_all (String c (b ++ t)) =? "/api/health/") = false).
    { apply String.eqb_neq. intros E. pose proof (f_equal String.length E) as L.
      rewrite length_lower_all in L. simpl in L. rewrite length_append in L.
      destruct b as [|c' b']; [|simpl in L; lia].
      simpl in E. injection E as _ E. destruct T as [T|T]; rewrite T in E; discriminate. }
    rewrite N1, N2. simpl. now rewrite IH.
Qed.

Section Base.
Context `{Host}.

(** X17. The base the panel calls never ends with a slash: it is the base
    given, or else the one derived from the URL of the health check, with
    the slashes at its end dropped and nothing else changed; stripping it
    again changes nothing. *)
Theorem root_normalised (apiUrl : string) (baseUrl : option string) :
  let given := default (derivedBase apiUrl) baseUrl in
  ends_with "/" (root_of apiUrl baseUrl) = false
  /\ (exists k, given = root_of apiUrl baseUrl ++ slashes k)
  /\ strip_slashes (root_of apiUrl baseUrl) = root_of apiUrl baseUrl
  /\ (ends_with "/" given = false -> root_of apiUrl baseUrl = given).
Proof.
  intros given. unfold root_of. fold given.
  split; [apply strip_slashes_end|]. split; [apply strip_slashes_prefix|].
  split; [apply strip_slashes_fixed, strip_slashes_end|apply strip_slashes_fixed].
Qed.

(** X18. When the URL of the health check is not an absolute URL and no
    base is given, the base is that URL without its [/api/health] or
    [/api/health/] ending, in whatever case the ending is written; with a
    base that does not end with a slash, the health check of the panel
    then goes to the URL it was given. *)
Theorem root_round_trip (base ending : string) :
  URL_origin (base ++ ending) = None ->
  lower_all ending = "/api/health" \/ lower_all ending = "/api/health/" ->
  ends_with "/" base = false ->
  root_of (base ++ ending) None = base
  /\ (ending = "/api/health" -> root_of (base ++ ending) None ++ "/api/health" = base ++ ending).
Proof.
  intros U T E. unfold root_of, derivedBase. rewrite U. simpl.
  rewrite (strip_health_suffix base ending T), (strip_slashes_fixed base E).
  split; [reflexivity|]. now intros ->.
Qed.

End Base.

Lemma root_round_trip_witness :
  @URL_origin RefHost.ref_host ("/lab" ++ "/API/Health/") = None
  /\ ends_with "/" "/lab" = false
  /\ root_of (H := RefHost.ref_host) ("/lab" ++ "/API/Health/") None = "/lab".
Proof.
  split; [reflexivity|]. split; [reflexivity|].
  apply (root_round_trip (H := RefHost.ref_host) "/lab" "/API/Health/");
    [reflexivity | right; reflexivity | reflexivity].
Defined.

End RootFacts.

(** ** The typed heading *)

Module TypewriterFacts.
Import Js Typewriter StringFacts PanelInvariants.

#[local] Open Scope string_scope.

Lemma slice0_min (n : nat) (s : string) :
  slice0 (Nat.min (String.length s) n) s = slice0 n s.
Proof.
  destruct (Nat.le_gt_cases n (String.length s)) as [L|L].
  - now rewrite Nat.min_r by exact L.
  - rewrite Nat.min_l by lia. rewrite !slice0_all; [reflexivity|lia|lia].
Qed.

Section Effect.
Variable text : string.

Lemma reveal_inv (k : nat) :
  let h := run text (repeat Fire k) (mount text) in
  i h = Nat.min (String.length text) (S k)
  /\ out h = slice0 (i h) text
  /\ alive h = true
  /\ scheduled h = (i h <? String.length text)%nat.
Proof.
  induction k as [|k IH].
  - simpl. now repeat split.
  - cbv zeta in *. change (repeat Fire (S k)) with (Fire :: repeat Fire k).
    rewrite repeat_cons. unfold run in *. rewrite fold_left_app.
    set (h := fold_left (step text) (repeat Fire k) (mount text)) in *.
    destruct IH as (Hi & Ho & Ha & Hs).
    simpl. unfold fire. destruct (scheduled h) eqn:Sc.
    + symmetry in Hs. apply Nat.ltb_lt in Hs.
      unfold tick. simpl. rewrite Ha. simpl.
      assert (E : i h = S k) by lia. rewrite E.
      replace (S k + 1)%nat with (S (S k)) by lia. now repeat split.
    + symmetry in Hs. apply Nat.ltb_ge in Hs.
      split; [lia|]. split; [exact Ho|]. split; [exact Ha|].
      rewrite Sc. symmetry. now apply Nat.ltb_ge.
Qed.

(** X19. The heading is typed one character at a time. Its first
    character shows as soon as the effect runs, and after [k] further
    ticks the first [k + 1] characters show; a next tick is scheduled
    exactly while characters are missing, and once the whole text shows
    nothing is scheduled and a tick changes nothing. *)
Theorem typewriter_reveals (k : nat) :
  let h := run text (repeat Fire k) (mount text) in
  out h = slice0 (S k) text
  /\ (scheduled h = true <-> S k < String.length text)
  /\ (String.length text <= S k -> out h = text /\ fire text h = h).
Proof.
  intros h. destruct (reveal_inv k) as (Hi & Ho & Ha & Hs). fold h in Hi, Ho, Ha, Hs.
  assert (O : out h = slice0 (S k) text) by (rewrite Ho, Hi; apply slice0_min).
  split; [exact O|]. split.
  - rewrite Hs, Nat.ltb_lt. lia.
  - intros L. split; [rewrite O; now apply slice0_all|].
    unfold fire. rewrite Hs.
    destruct (Nat.ltb_spec (i h) (String.length text)); [lia|reflexivity].
Qed.

Lemma cleaned_step (h : Hook) (e : Event) :
  alive h = false -> alive (step text h e) = false /\ out (step text h e) = out h.
Proof.
  intros D. destruct e; simpl; [|now split].
  unfold fire. destruct (scheduled h); [|now split].
  unfold tick. simpl. rewrite D. simpl. now split.
Qed.

Lemma cleaned_run (evs : list Event) (h : Hook) :
  alive h = false -> out (run text evs h) = out h.
Proof.
  revert h. induction evs as [|e evs IH]; intros h D; [reflexivity|].
  change (run text (e :: evs) h) with (run text evs (step text h e)).
  destruct (cleaned_step h e D) as [D' O]. now rewrite (IH _ D').
Qed.

Lemma prefix_step (h : Hook) (e : Event) :
  (exists n, out h = slice0 n text) -> exists n, out (step text h e) = slice0 n text.
Proof.
  intros P. destruct e; simpl; [|exact P].
  unfold fire. destruct (scheduled h); [|exact P].
  unfold tick. simpl. destruct (negb (alive h)); simpl; [exact P|].
  now eexists.
Qed.

(** X20. What shows is at every moment a beginning of the text, whatever
    the order of ticks and cleanup; and once the effect is cleaned up, no
    tick changes what shows. *)
Theorem typewriter_stops_after_cleanup (evs later : list Event) :
  let h := run text evs (mount text) in
  (exists n, out h = slice0 n text)
  /\ out (run text later (unmount h)) = out h.
Proof.
  intros h. split.
  - subst h. induction evs as [|e evs IH] using rev_ind.
    + now exists (Nat.min (String.length text) (0 + 1)).
    + unfold run in *. rewrite fold_left_app. simpl. now apply prefix_step.
  - now rewrite cleaned_run.
Qed.

End Effect.

End TypewriterFacts.

(** ** The error boundary *)

Module BoundaryFacts.
Import Js Boundary JsFacts.

#[local] Open Scope string_scope.

(** X21. The boundary shows its children until an error is caught. It
    then shows the message of the error, or "Unknown error" when the
    error has none; but an error whose message is the empty string leaves
    the boundary rendering its children again. *)
Theorem boundary_shows (e : Thrown) :
  render initial = Children
  /\ (message e = None -> render (getDerivedStateFromError e) = Fallback "Unknown error")
  /\ (forall m, message e = Some m -> m <> "" ->
        render (getDerivedStateFromError e) = Fallback m)
  /\ (message e = Some "" -> render (getDerivedStateFromError e) = Children).
Proof.
  split; [reflexivity|]. unfold getDerivedStateFromError, render.
  split; [|split].
  - now intros ->.
  - intros m -> N. simpl. apply string_truthy_true in N. now rewrite N.
  - now intros ->.
Qed.

End BoundaryFacts.
